(** * knowledge_tools: document extraction, chunking and the processing queue

    A shallow embedding of the Python modules [modules/text_read.py],
    [modules/excel_read.py], [modules/word_read.py], [modules/file_read.py]
    and [routers/queue.py], with the properties of the design document
    stated and proved over it.

    Conventions.  A Python [str] is a list of Unicode code points, a Python
    [int] is a [Z], [bytes] is a list of [Byte.byte].  Names of encodings,
    paths and the column labels that are strings are Rocq strings.  An
    exception is the left injection of a sum. *)

From Stdlib Require Import List ZArith NArith Bool Lia String Ascii QArith Sorted Permutation.
From Stdlib.Strings Require Import Byte.
From Stdlib.Numbers Require HexadecimalString DecimalString.
Import ListNotations.
Open Scope Z_scope.

(** ** Python strings *)

Module Py.

Definition codepoint := N.
Definition str := list codepoint.

Definition LF : codepoint := 10%N.
Definition CR : codepoint := 13%N.
Definition SP : codepoint := 32%N.

(** [len(s)] as a Python integer. *)
Definition len {A} (l : list A) : Z := Z.of_nat (List.length l).

(** Truth value of a sequence: non-empty. *)
Definition truthy {A} (l : list A) : bool :=
  match l with [] => false | _ :: _ => true end.

(** The characters [str.strip] removes when called without argument
    (the code points with the Unicode white-space property, as listed by
    CPython's [_PyUnicode_IsWhitespace]). *)
Definition isspace (c : codepoint) : bool :=
  ((9 <=? c) && (c <=? 13) || (28 <=? c) && (c <=? 32) || (c =? 133) || (c =? 160)
   || (c =? 5760) || (8192 <=? c) && (c <=? 8202) || (c =? 8232) || (c =? 8233)
   || (c =? 8239) || (c =? 8287) || (c =? 12288))%N.

(** The line boundaries of [str.splitlines]. *)
Definition is_linebreak (c : codepoint) : bool :=
  ((10 <=? c) && (c <=? 13) || (28 <=? c) && (c <=? 30) || (c =? 133)
   || (c =? 8232) || (c =? 8233))%N.

Fixpoint lstrip (s : str) : str :=
  match s with
  | [] => []
  | c :: s' => if isspace c then lstrip s' else s
  end.

Definition rstrip (s : str) : str := rev (lstrip (rev s)).

Definition strip (s : str) : str := rstrip (lstrip s).

(** A string made of white space only (the empty string included): the
    strings [s] for which [s.strip()] is falsy. *)
Definition blank (s : str) : bool := forallb isspace s.

(** [s.splitlines()]: [cur] is the line being read. *)
Fixpoint splitlines_from (cur : str) (s : str) : list str :=
  match s with
  | [] => if truthy cur then [cur] else []
  | c :: s' =>
      if is_linebreak c then
        cur :: match s' with
               | c' :: s'' =>
                   if (c =? CR)%N && (c' =? LF)%N
                   then splitlines_from [] s''
                   else splitlines_from [] s'
               | [] => []
               end
      else splitlines_from (cur ++ [c]) s'
  end.

Definition splitlines (s : str) : list str := splitlines_from [] s.

(** [sep.join(parts)]. *)
Fixpoint join (sep : str) (parts : list str) : str :=
  match parts with
  | [] => []
  | [p] => p
  | p :: ps => p ++ sep ++ join sep ps
  end.

(** [len(s.split())]: the number of maximal runs of non-space characters;
    [inword] tells whether the previous character belonged to a word. *)
Fixpoint count_words (inword : bool) (s : str) : Z :=
  match s with
  | [] => 0
  | c :: s' =>
      if isspace c then count_words false s'
      else (if inword then 0 else 1) + count_words true s'
  end.

(** [enumerate(l, start)]. *)
Fixpoint enumerate_from {A} (start : Z) (l : list A) : list (Z * A) :=
  match l with
  | [] => []
  | x :: l' => (start, x) :: enumerate_from (start + 1) l'
  end.

Definition enumerate {A} (l : list A) : list (Z * A) := enumerate_from 0 l.

(** A literal: the code points of an ASCII string. *)
Fixpoint lit (s : string) : str :=
  match s with
  | EmptyString => []
  | String a s' => N_of_ascii a :: lit s'
  end.

End Py.

Import Py.

(** ** modules/text_read.py: the chunker *)

Module TextRead.

Record TextChunkData := mkChunk {
  chunk_id : Z;
  line_start : Z;
  line_end : Z;
  text : str;
  char_count : Z
}.

(** The variables of the loop of [extract_text_to_chunks]. *)
Record loop_state := mkLoop {
  chunks : list TextChunkData;
  next_id : Z;                       (* chunk_id *)
  current_chunk : str;
  current_chunk_lines : list Z;
  cur_start : Z                      (* line_start *)
}.

Definition loop_init : loop_state := mkLoop [] 0 [] [] 0.

(** The test [len(current_chunk) + len(line_text) > chunk_size and current_chunk]. *)
Definition must_flush (chunk_size : Z) (current : str) (line_text : str) : bool :=
  (len current + len line_text >? chunk_size) && truthy current.

(** One iteration of [for line_idx, line in enumerate(lines)]. *)
Definition loop_body (chunk_size : Z) (st : loop_state) (item : Z * str) : loop_state :=
  let '(line_idx, line) := item in
  let line_text := line ++ [LF] in
  let st1 :=
    if must_flush chunk_size (current_chunk st) line_text then
      mkLoop (chunks st ++ [mkChunk (next_id st) (cur_start st) (line_idx - 1)
                                    (rstrip (current_chunk st)) (len (current_chunk st))])
             (next_id st + 1) [] (current_chunk_lines st) line_idx
    else st in
  mkLoop (chunks st1) (next_id st1) (current_chunk st1 ++ line_text)
         (current_chunk_lines st1 ++ [line_idx]) (cur_start st1).

Definition run_loop (chunk_size : Z) (lines : list str) : loop_state :=
  fold_left (loop_body chunk_size) (enumerate lines) loop_init.

(** Lines 258-293 of the module: the chunks of the lines of a file. *)
Definition chunks_of_lines (lines : list str) (chunk_size : Z) : list TextChunkData :=
  let st := run_loop chunk_size lines in
  if truthy (strip (current_chunk st)) then
    chunks st ++ [mkChunk (next_id st) (cur_start st) (len lines - 1)
                          (rstrip (current_chunk st)) (len (current_chunk st))]
  else chunks st.

(** The chunks of a decoded file content. *)
Definition chunks_of_content (content : str) (chunk_size : Z) : list TextChunkData :=
  chunks_of_lines (splitlines content) chunk_size.

End TextRead.

(** ** The platform the modules run on *)

Module OS.

Definition bytes := list byte.

(** What [open(path, 'r', encoding=e).read()] does with the bytes of a
    file: the text, or one of the two exceptions the module catches.  (A
    codec may raise another [UnicodeError], as utf-16 does on a stream
    without a byte order mark; none of the four encodings of the trial list
    does, and such codecs are not described.) *)
Inductive decode_result :=
| Decoded (s : str)
| UnicodeDecodeError
| LookupError.

(** What a path leads to, with what [stat] tells of it: a directory, a
    regular file that can be read, a regular file that [open] refuses with
    [PermissionError], or something else that exists without being a file or
    a directory (a FIFO, a socket, a device), which [open] refuses with
    [OSError] or lets be read as a stream.  An [open] that does not return
    (a FIFO nobody writes to) is not described. *)
Inductive node :=
| Directory (st_size ctime mtime : Z)
| RegularFile (data : bytes) (ctime mtime : Z)
| Unreadable (st_size ctime mtime : Z)
| Special (st_size ctime mtime : Z) (stream : option bytes).

(** The answer of [chardet.detect]: the keys ['encoding'] and ['confidence']. *)
Record chardet_result := mkDetect {
  cd_encoding : option string;
  cd_confidence : Q
}.

Record platform := mkPlatform {
  (** the file system: [None] for a path that does not exist *)
  fs : string -> option node;
  (** the codec registry *)
  decode : string -> bytes -> decode_result;
  (** [chardet]: [None] when the import fails; the detector answers [None]
      when it raises *)
  chardet : option (bytes -> option chardet_result);
  (** pathlib *)
  path_absolute : string -> string;
  path_name : string -> string;
  path_suffix : string -> string;
  (** [datetime.now().isoformat()] and [datetime.fromtimestamp(t).isoformat()] *)
  now_isoformat : string;
  isoformat : Z -> string;
  (** [mimetypes.guess_type(path)[0]] *)
  guess_type : string -> option string;
  (** [win32security]: [None] when the import fails; the lookup answers
      [None] when it raises *)
  win32_owner : option (string -> option string);
  environ : string -> option string
}.

Inductive exn :=
| FileNotFoundError
| ValueError_not_a_file
| ValueError_not_text
| UnicodeDecodeError_raised
| LookupError_raised
| ValueError_unknown_hash
| ImportError
| ValueError_not_word
| ValueError_word_read_error
| ValueError_closed_file
| IsADirectoryError
| PermissionError
| OSError
| ValidationError
| OutOfFuel.

(** [c.lower()] on the ASCII range. *)
Definition lower_ascii (a : ascii) : ascii :=
  let n := nat_of_ascii a in
  if (Nat.leb 65 n && Nat.leb n 90)%bool then ascii_of_nat (n + 32) else a.

Fixpoint lower (s : string) : string :=
  match s with
  | EmptyString => EmptyString
  | String a s' => String (lower_ascii a) (lower s')
  end.

End OS.

Import OS.

(** ** modules/text_read.py: reading a text file *)

Module TextFile.

Record TextFileData := mkTextFile {
  file_path : string;
  filename : string;
  file_type : string;
  encoding : string;
  content : str;
  line_count : Z;
  char_count : Z;
  word_count : Z;
  is_binary : bool;
  extracted_at : string
}.

Definition encodings : list string :=
  ["utf-8"; "cp932"; "shift_jis"; "latin-1"]%string.

Definition decodes (P : platform) (enc : string) (raw : bytes) : bool :=
  match decode P enc raw with Decoded _ => true | _ => false end.

(** The loop of [_try_encodings]: the first encoding that reads the whole file. *)
Fixpoint try_each (P : platform) (candidates : list string) (raw : bytes) : option string :=
  match candidates with
  | [] => None
  | enc :: rest =>
      match decode P enc raw with
      | Decoded _ => Some enc
      | UnicodeDecodeError | LookupError => try_each P rest raw
      end
  end.

Definition _try_encodings (P : platform) (raw : bytes) : string :=
  match try_each P encodings raw with
  | Some enc => enc
  | None => "utf-8"%string
  end.

(** [result.get('confidence', 0) < 0.7] *)
Definition low_confidence (r : chardet_result) : bool :=
  match Qcompare (cd_confidence r) (7 # 10) with Lt => true | _ => false end.

Definition detect_encoding (P : platform) (raw : bytes) : string :=
  match chardet P with
  | None => _try_encodings P raw
  | Some detect =>
      match detect (firstn (Z.to_nat 10000) raw) with   (* f.read(10000) *)
      | None => _try_encodings P raw
      | Some result =>
          if low_confidence result then _try_encodings P raw
          else match cd_encoding result with
               | Some enc => lower enc
               | None => _try_encodings P raw    (* AttributeError, caught *)
               end
      end
  end.

Definition text_extensions : list string :=
  [".txt"; ".md"; ".markdown"; ".rst"; ".log";
   ".py"; ".js"; ".ts"; ".jsx"; ".tsx"; ".java"; ".c"; ".cpp"; ".h"; ".hpp";
   ".cs"; ".go"; ".rs"; ".rb"; ".php"; ".swift"; ".kt"; ".scala";
   ".html"; ".htm"; ".xml"; ".css"; ".scss"; ".sass"; ".less";
   ".sh"; ".bash"; ".zsh"; ".fish"; ".ps1"; ".bat"; ".cmd";
   ".sql"; ".r"; ".m"; ".pl"; ".pm"; ".lua"; ".vim"; ".vimrc";
   ".yaml"; ".yml"; ".toml"; ".ini"; ".cfg"; ".conf"; ".config";
   ".json"; ".jsonl"; ".csv"; ".tsv";
   ".dockerfile"; ".gitignore"; ".gitattributes"; ".env";
   ".makefile"; ".cmake"; ".gradle"; ".properties";
   ".tex"; ".bib"; ".sty"; ".cls"]%string.

Definition is_text_file (P : platform) (path : string) : bool :=
  existsb (String.eqb (lower (path_suffix P path))) text_extensions.

Definition build (P : platform) (path : string) (enc : string) (text : str) : TextFileData :=
  mkTextFile (path_absolute P path) (path_name P path) (lower (path_suffix P path))
             enc text (len (splitlines text)) (len text)
             (if truthy text then count_words false text else 0)
             (negb (is_text_file P path)) (now_isoformat P).

Definition read_text_file (P : platform) (path : string) (enc : option string)
  : exn + TextFileData :=
  match fs P path with
  | None => inl FileNotFoundError
  | Some (Directory _ _ _) | Some (Special _ _ _ _) => inl ValueError_not_a_file
  | Some (Unreadable _ _ _) => inl PermissionError
  | Some (RegularFile raw _ _) =>
      let detected_encoding :=
        match enc with None => detect_encoding P raw | Some e => e end in
      match decode P detected_encoding raw with
      | Decoded text => inr (build P path detected_encoding text)
      | UnicodeDecodeError =>
          match enc with
          | Some _ =>
              let detected_encoding := detect_encoding P raw in
              match decode P detected_encoding raw with
              | Decoded text => inr (build P path detected_encoding text)
              | UnicodeDecodeError => inl UnicodeDecodeError_raised
              | LookupError => inl LookupError_raised
              end
          | None => inl ValueError_not_text
          end
      | LookupError => inl LookupError_raised
      end
  end.

Definition extract_text_to_chunks (P : platform) (path : string) (chunk_size : Z)
    (enc : option string) : exn + list TextRead.TextChunkData :=
  match read_text_file P path enc with
  | inl e => inl e
  | inr text_data => inr (TextRead.chunks_of_content (content text_data) chunk_size)
  end.

End TextFile.

(** ** modules/excel_read.py *)

Module ExcelRead.

(** A cell of a DataFrame, by what the code reads of it.  [NaN] is a
    missing value that [fillna("")] fills; [NaT] is a missing date where
    [fillna("")] leaves it, the column of dates taking no string.  [Value]
    is a value, kept as the text [str] gives for it.  [Timestamp] is a date
    in a row of dates: [row[col]] is a [Timestamp] and the same cell in
    [row.values] a [datetime64], and [str] gives a text for each. *)
Inductive cell :=
| NaN
| NaT
| Value (repr : str)
| Timestamp (scalar element : str).

(** A column label: a string, or what else the header row of the sheet
    held (a number, a date), named by its [repr]. *)
Inductive label :=
| Name (name : string)
| NotStr (repr : string).

(** A DataFrame as [pd.read_excel] builds it: column labels, which differ
    from one another, and, under the default [RangeIndex], the rows in
    order.  A row has a cell per column; a position a row does not reach
    holds no value. *)
Record DataFrame := mkFrame {
  columns : list label;
  values : list (list cell)
}.

Record ExcelRowData := mkRow {
  row_index : Z;
  data : list (string * str);
  text : str
}.

Record ExcelSheetData := mkSheet {
  row_count : Z;
  column_count : Z;
  sheet_columns : list string;
  rows : list ExcelRowData;
  full_text : str;
  word_count : Z
}.

(** [df.fillna("")] on one cell. *)
Definition fillna (c : cell) : cell :=
  match c with
  | NaN => Value []
  | NaT => NaT
  | Value v => Value v
  | Timestamp scalar element => Timestamp scalar element
  end.

Definition notna (c : cell) : bool :=
  match c with
  | NaN | NaT => false
  | Value _ | Timestamp _ _ => true
  end.

(** [str(row[col])] *)
Definition py_str (c : cell) : str :=
  match c with
  | NaN => lit "nan"
  | NaT => lit "NaT"
  | Value v => v
  | Timestamp scalar _ => scalar
  end.

(** [str(val)] for [val] in [row.values] *)
Definition array_str (c : cell) : str :=
  match c with
  | NaN => lit "nan"
  | NaT => lit "NaT"
  | Value v => v
  | Timestamp _ element => element
  end.

(** [row[col]] for the column at position [j]. *)
Definition at_column (row : list cell) (j : nat) : cell := nth j row NaN.

(** The body of [for col in df.columns], on the pair
    [(row_texts, row_data)]. *)
Definition cell_step (row : list cell) (acc : list str * list (label * str))
    (jc : nat * label) : list str * list (label * str) :=
  let '(j, col) := jc in
  let c := fillna (at_column row j) in
  let cell_value := if notna c then py_str c else [] in
  if truthy (strip cell_value)
  then (fst acc ++ [cell_value], snd acc ++ [(col, cell_value)])
  else acc.

Fixpoint positions {A} (start : nat) (l : list A) : list (nat * A) :=
  match l with
  | [] => []
  | x :: l' => (start, x) :: positions (S start) l'
  end.

(** The dictionary appended to [rows_data]: ["row_index"], ["data"] and
    ["text"]. *)
Definition row_dict : Type := Z * list (label * str) * str.

(** The body of [for index, row in df.iterrows()], on the pair
    [(all_texts, rows_data)]. *)
Definition row_step (cols : list label) (acc : list str * list row_dict)
    (ir : Z * list cell) : list str * list row_dict :=
  let '(index, row) := ir in
  let '(row_texts, row_data) := fold_left (cell_step row) (positions 0 cols) ([], []) in
  if truthy row_texts
  then (fst acc ++ row_texts, snd acc ++ [(index, row_data, join [SP] row_texts)])
  else acc.

(** pydantic takes a string, and nothing else, where a model says [str]:
    a label that is not one is refused. *)
Definition as_str (l : label) : option string :=
  match l with
  | Name name => Some name
  | NotStr _ => None
  end.

(** The validation of the elements of a list or of a list comprehension,
    in order: [None] when one is refused. *)
Fixpoint validated {A B} (f : A -> option B) (l : list A) : option (list B) :=
  match l with
  | [] => Some []
  | x :: l' =>
      match f x with
      | None => None
      | Some y =>
          match validated f l' with
          | None => None
          | Some ys => Some (y :: ys)
          end
      end
  end.

(** [ExcelRowData(row_index=..., data=..., text=...)], with
    [data: Dict[str, str]]. *)
Definition ExcelRowData_of (row : row_dict) : option ExcelRowData :=
  let '(index, row_data, row_text) := row in
  match validated (fun kv => match as_str (fst kv) with
                             | Some k => Some (k, snd kv)
                             | None => None
                             end) row_data with
  | Some d => Some (mkRow index d row_text)
  | None => None
  end.

(** The function returns the record, or raises the [ValidationError] of
    pydantic: of a row first, then of [columns: List[str]]. *)
Definition _extract_dataframe_text (df : DataFrame) : exn + ExcelSheetData :=
  let '(all_texts, rows_data) :=
    fold_left (row_step (columns df)) (enumerate (values df)) ([], []) in
  let full := join [SP] all_texts in
  match validated ExcelRowData_of rows_data with
  | None => inl ValidationError
  | Some rows_models =>
      match validated as_str (columns df) with
      | None => inl ValidationError
      | Some cols =>
          inr (mkSheet (len rows_data) (len (columns df)) cols rows_models full
                       (if truthy full then count_words false full else 0))
      end
  end.

End ExcelRead.

(** ** modules/word_read.py *)

Module WordRead.

(** What python-docx shows of a document. *)
Record Paragraph := mkPar {
  par_text : str;
  par_style : option string;       (* paragraph.style.name *)
  par_alignment : option string    (* str(paragraph.alignment), when truthy *)
}.

Record Table := mkTable {
  table_rows : list (list str);    (* the text of the cells of each row *)
  table_columns : Z                (* len(table.columns) *)
}.

Record Document := mkDoc {
  paragraphs : list Paragraph;
  tables : list Table
}.

Record WordParagraphData := mkParData {
  paragraph_index : Z;
  text : str;
  style : option string;
  alignment : option string
}.

Record WordTableRowData := mkRowData {
  row_index : Z;
  cells : list str
}.

Record WordTableData := mkTableData {
  table_index : Z;
  row_count : Z;
  column_count : Z;
  rows : list WordTableRowData;
  full_text : str
}.

Record WordFileData := mkWordFile {
  file_path : string;
  filename : string;
  paragraph_count : Z;
  table_count : Z;
  out_paragraphs : list WordParagraphData;
  out_tables : list WordTableData;
  out_full_text : str;
  word_count : Z;
  extracted_at : string
}.

Definition bar : str := lit " | ".

(** The body of [for idx, paragraph in enumerate(doc.paragraphs)], on the
    pair [(paragraphs_data, paragraph_texts)]. *)
Definition paragraph_step (acc : list WordParagraphData * list str)
    (ip : Z * Paragraph) : list WordParagraphData * list str :=
  let '(idx, paragraph) := ip in
  let text := strip (par_text paragraph) in
  if truthy text
  then (fst acc ++ [mkParData idx text (par_style paragraph) (par_alignment paragraph)],
        snd acc ++ [text])
  else acc.

(** [" | ".join([cell for cell in cells if cell])] *)
Definition cells_text (cells : list str) : str := join bar (filter truthy cells).

(** The body of [for row_idx, row in enumerate(table.rows)], on the pair
    [(rows_data, table_full_text)]. *)
Definition table_row_step (acc : list WordTableRowData * list str)
    (ir : Z * list str) : list WordTableRowData * list str :=
  let '(row_idx, row) := ir in
  let cells := map strip row in
  let joined := cells_text cells in
  if truthy joined
  then (fst acc ++ [mkRowData row_idx cells], snd acc ++ [joined])
  else acc.

(** The body of [for table_idx, table in enumerate(doc.tables)], on the
    pair [(tables_data, table_texts)]. *)
Definition table_step (acc : list WordTableData * list str)
    (it : Z * Table) : list WordTableData * list str :=
  let '(table_idx, table) := it in
  let '(rows_data, table_full_text) :=
    fold_left table_row_step (enumerate (table_rows table)) ([], []) in
  if truthy rows_data
  then let table_text := join bar table_full_text in
       (fst acc ++ [mkTableData table_idx (len rows_data) (table_columns table)
                                rows_data table_text],
        snd acc ++ [table_text])
  else acc.

(** The [try] block of [read_word_file], from the parsed document on. *)
Definition read_word_document (P : platform) (path : string) (doc : Document)
  : WordFileData :=
  let '(paragraphs_data, paragraph_texts) :=
    fold_left paragraph_step (enumerate (paragraphs doc)) ([], []) in
  let '(tables_data, table_texts) :=
    fold_left table_step (enumerate (tables doc)) ([], []) in
  let all_texts := paragraph_texts ++ table_texts in
  let full := join [LF] all_texts in
  mkWordFile (path_absolute P path) (path_name P path)
             (len paragraphs_data) (len tables_data) paragraphs_data tables_data full
             (if truthy full then count_words false full else 0)
             (now_isoformat P).

(** [docx] is python-docx: [None] when the import fails; [Document(path)]
    answers [None] when it raises. *)
Definition read_word_file (P : platform) (docx : option (string -> option Document))
    (path : string) : exn + WordFileData :=
  match docx with
  | None => inl ImportError
  | Some open_document =>
      match fs P path with
      | None => inl FileNotFoundError
      | Some _ =>
          let suffix := lower (path_suffix P path) in
          if negb (String.eqb suffix ".docx" || String.eqb suffix ".doc")
          then inl ValueError_not_word
          else match open_document path with
               | None => inl ValueError_word_read_error
               | Some doc => inr (read_word_document P path doc)
               end
      end
  end.

End WordRead.

(** ** modules/file_read.py *)

Module FileRead.

Record FileMetadata := mkMeta {
  file_id : string;
  filename : string;
  file_path : string;
  file_type : string;
  file_size : Z;
  file_hash : string;
  mime_type : string;
  created_at : string;
  file_last_modified : string;
  file_owner : string;
  file_revision : string;
  file_tags : list string;
  file_pages : list Z;
  category : string;
  active : bool
}.

(** [hashlib]: a hash object is created for an algorithm name (or the name
    is refused), fed with [update] and read with [hexdigest]. *)
Record hashlib := mkHashlib {
  hash_object : Type;
  hash_new : string -> option hash_object;
  hash_update : hash_object -> bytes -> hash_object;
  hash_hexdigest : hash_object -> string
}.

(** The digest of a byte string given at once. *)
Definition digest (H : hashlib) (algorithm : string) (data : bytes) : option string :=
  match hash_new H algorithm with
  | Some h => Some (hash_hexdigest H (hash_update H h data))
  | None => None
  end.

(** What a call can change: the files, and the files the process holds
    open (for each the bytes not read yet, the innermost [with] first). *)
Record world := mkWorld {
  files : string -> option node;
  open_files : list bytes
}.

Definition IO (A : Type) : Type := world -> (exn + A) * world.

Definition ret {A} (a : A) : IO A := fun w => (inr a, w).
Definition raise {A} (e : exn) : IO A := fun w => (inl e, w).
Definition bind {A B} (m : IO A) (k : A -> IO B) : IO B :=
  fun w => match m w with
           | (inl e, w') => (inl e, w')
           | (inr a, w') => k a w'
           end.

Notation "x <- m ;; k" := (bind m (fun x => k))
  (at level 61, m at next level, right associativity).
Notation "m ;;; k" := (bind m (fun _ => k))
  (at level 61, right associativity).

Definition path_exists (path : string) : IO bool :=
  fun w => (inr (match files w path with Some _ => true | None => false end), w).

Definition path_is_file (path : string) : IO bool :=
  fun w => (inr (match files w path with
                 | Some (RegularFile _ _ _) | Some (Unreadable _ _ _) => true
                 | _ => false
                 end), w).

(** [path.stat()]: size and the two time stamps. *)
Definition path_stat (path : string) : IO (Z * Z * Z) :=
  fun w => match files w path with
           | Some (RegularFile data ctime mtime) => (inr (len data, ctime, mtime), w)
           | Some (Directory st_size ctime mtime)
           | Some (Unreadable st_size ctime mtime)
           | Some (Special st_size ctime mtime _) => (inr (st_size, ctime, mtime), w)
           | None => (inl FileNotFoundError, w)
           end.

Definition open_rb (path : string) : IO unit :=
  fun w => match files w path with
           | Some (RegularFile data _ _)
           | Some (Special _ _ _ (Some data)) =>
               (inr tt, mkWorld (files w) (data :: open_files w))
           | Some (Directory _ _ _) => (inl IsADirectoryError, w)
           | Some (Unreadable _ _ _) => (inl PermissionError, w)
           | Some (Special _ _ _ None) => (inl OSError, w)
           | None => (inl FileNotFoundError, w)
           end.

(** [f.read(n)] on the innermost open file. *)
Definition read (n : Z) : IO bytes :=
  fun w => match open_files w with
           | unread :: others =>
               (inr (firstn (Z.to_nat n) unread),
                mkWorld (files w) (skipn (Z.to_nat n) unread :: others))
           | [] => (inl ValueError_closed_file, w)
           end.

Definition close : IO unit :=
  fun w => (inr tt, mkWorld (files w) (tl (open_files w))).

Definition unread_count : IO nat :=
  fun w => (inr (match open_files w with u :: _ => List.length u | [] => O end), w).

(** [with open(path, 'rb') as f: body]: the file is closed on the way out,
    also when the body raises. *)
Definition with_open_rb {A} (path : string) (body : IO A) : IO A :=
  open_rb path ;;;
  (fun w => match body w with
            | (r, w') => (r, snd (close w'))
            end).

(** [for chunk in iter(lambda: f.read(4096), b""): hash_obj.update(chunk)];
    [fuel] bounds the number of reads. *)
Fixpoint update_blocks (H : hashlib) (fuel : nat) (h : hash_object H) : IO (hash_object H) :=
  match fuel with
  | O => raise OutOfFuel
  | S fuel' =>
      chunk <- read 4096 ;;
      if truthy chunk then update_blocks H fuel' (hash_update H h chunk) else ret h
  end.

Definition calculate_file_hash (H : hashlib) (path : string) (algorithm : string)
  : IO string :=
  match hash_new H algorithm with
  | None => raise ValueError_unknown_hash
  | Some hash_obj =>
      h <- with_open_rb path (n <- unread_count ;; update_blocks H (S n) hash_obj) ;;
      ret (hash_hexdigest H h)
  end.

Definition get_file_owner (P : platform) (path : string) : string :=
  match win32_owner P with
  | Some lookup => match lookup path with Some owner => owner | None => "" end
  | None =>
      match environ P "USERNAME" with
      | Some user => user
      | None => match environ P "USER" with Some user => user | None => "" end
      end
  end.

Definition get_file_metadata (P : platform) (H : hashlib) (path : string)
  : IO FileMetadata :=
  found <- path_exists path ;;
  if negb found then raise FileNotFoundError else
  regular <- path_is_file path ;;
  if negb regular then raise ValueError_not_a_file else
  st <- path_stat path ;;
  let '(st_size, st_ctime, st_mtime) := st in
  hash <- calculate_file_hash H path "md5" ;;
  let mime := guess_type P path in
  let file_ext := lower (path_suffix P path) in
  ret (mkMeta (path_absolute P path) (path_name P path) (path_absolute P path)
              file_ext st_size hash
              (match mime with Some m => m | None => "application/octet-stream" end)
              (isoformat P st_ctime) (isoformat P st_mtime)
              (get_file_owner P path) "" [] [] "general" true).

End FileRead.

(** ** routers/queue.py *)

Module Queue.

Inductive status := PENDING | PROCESSING | COMPLETED | FAILED.

(** A row of [file_processing_queue]. *)
Record QueueItem := mkItem {
  id : Z;
  file_path : string;
  item_status : status;
  priority : Z;
  retry_count : Z;
  error_message : option string;
  file_hash : option string;
  metadata : option string;
  created_at : string;
  updated_at : string;
  started_at : option string;
  completed_at : option string
}.

(** The table, in insertion order. *)
Definition table := list QueueItem.

Record EnqueueRequest := mkRequest {
  req_file_path : string;
  req_priority : Z
}.

Record EnqueueResponse := mkResponse {
  queue_id : Z;
  resp_file_path : string;
  resp_status : status;
  resp_priority : Z
}.

Inductive HTTPException := HTTP (status_code : Z).

(** The integrity constraints of the table, declared by
    [sql/file_processing_queue.sql]: given the table and a candidate row,
    whether the row is refused with [sqlite3.IntegrityError]. *)
Definition constraint := table -> QueueItem -> bool.

Definition non_terminal (s : status) : bool :=
  match s with PENDING | PROCESSING => true | COMPLETED | FAILED => false end.

(** The uniqueness rule the design document gives for the table, whose
    declaration ([sql/file_processing_queue.sql]) is not part of the
    sources: "file_path is unique among non-terminal items (re-enqueueing
    an in-flight/pending path is rejected)".  The statements about
    [enqueue] take it as a hypothesis on the store. *)
Definition unique_among_non_terminal : constraint :=
  fun t row =>
    existsb (fun r => String.eqb (file_path r) (file_path row)
                      && non_terminal (item_status r)) t.

(** For comparison, a column constraint [file_path TEXT UNIQUE]: any row
    with the same path refuses the insertion, whatever its state. *)
Definition unique_file_path : constraint :=
  fun t row => existsb (fun r => String.eqb (file_path r) (file_path row)) t.

(** [sqlite3] binds a Python integer as a 64-bit signed integer, and raises
    [OverflowError] for one that does not fit. *)
Definition fits_int64 (n : Z) : bool := (- 2 ^ 63 <=? n) && (n <? 2 ^ 63).

(** What the sources do not hold of the database: the constraints of the
    table, the key it gives a row inserted without one ([cursor.lastrowid]),
    and whether the connection, the statement or the commit raise another
    exception (the database file cannot be opened, the table is missing, the
    database is locked). *)
Record store := mkStore {
  violates : constraint;
  rowid : table -> Z;
  breaks : table -> bool
}.

(** How [cursor.execute("INSERT INTO file_processing_queue ...")] followed
    by [conn.commit()] ends: the new table and [cursor.lastrowid], or
    [sqlite3.IntegrityError], or another exception, the table being left as
    it was in both cases. *)
Inductive insert_result :=
| Inserted (lastrowid : Z) (t : table)
| IntegrityError
| OtherException.

Definition insert (S : store) (t : table) (row : Z -> QueueItem) : insert_result :=
  let new := row (rowid S t) in
  if breaks S t then OtherException
  else if negb (fits_int64 (priority new)) then OtherException
  else if violates S t new then IntegrityError
  else Inserted (rowid S t) (t ++ [new]).

(** [enqueue]: [except sqlite3.IntegrityError] answers 400, [except
    Exception] answers 500. *)
Definition enqueue (S : store) (now : string) (request : EnqueueRequest)
    (db : table) : (HTTPException + EnqueueResponse) * table :=
  let row := fun rowid =>
    mkItem rowid (req_file_path request) PENDING (req_priority request) 0
           None None None now now None None in
  match insert S db row with
  | Inserted lastrowid db' =>
      (inr (mkResponse lastrowid (req_file_path request) PENDING (req_priority request)),
       db')
  | IntegrityError => (inl (HTTP 400), db)
  | OtherException => (inl (HTTP 500), db)
  end.

(** An entry of the answer of [get_queue_list]: the nine columns it selects. *)
Record QueueListEntry := mkEntry {
  entry_id : Z;
  entry_file_path : string;
  entry_status : status;
  entry_priority : Z;
  entry_retry_count : Z;
  entry_created_at : string;
  entry_updated_at : string;
  entry_started_at : option string;
  entry_completed_at : option string
}.

(** [ORDER BY priority DESC, created_at ASC]: whether [a] may come before
    [b] ([created_at] is text, compared character by character). *)
Definition comes_before (a b : QueueItem) : bool :=
  (priority a >? priority b)
  || ((priority a =? priority b) && String.leb (created_at a) (created_at b)).

Fixpoint insert_ordered (x : QueueItem) (l : list QueueItem) : list QueueItem :=
  match l with
  | [] => [x]
  | y :: l' => if comes_before y x then y :: insert_ordered x l' else x :: y :: l'
  end.

(** The rows in the order of the query; rows that compare alike stay in
    insertion order. *)
Definition order_by (t : table) : list QueueItem :=
  fold_left (fun sorted x => insert_ordered x sorted) t [].

Definition entry_of (r : QueueItem) : QueueListEntry :=
  mkEntry (id r) (file_path r) (item_status r) (priority r) (retry_count r)
          (created_at r) (updated_at r) (started_at r) (completed_at r).

(** [get_queue_list]: the list and its length; the table is only read. *)
Definition get_queue_list (db : table) : (list QueueListEntry * Z) * table :=
  let queue_list := map entry_of (order_by db) in
  ((queue_list, len queue_list), db).

(** [dequeue]: the alias that enqueues with priority 0. *)
Definition dequeue (S : store) (now : string) (request : EnqueueRequest)
    (db : table) : (HTTPException + EnqueueResponse) * table :=
  enqueue S now (mkRequest (req_file_path request) 0) db.

End Queue.

(** ** The chunker of the design document *)

Module Chunker.

Record TextUnit := mkUnit {
  index : Z;
  unit_text : str
}.

Record Chunk := mkSpecChunk {
  chunk_id : Z;
  span_start : Z;
  span_end : Z;
  text : str
}.

(** The accumulator string, the bounds of the units folded into it, and the
    chunks completed so far. *)
Record state := mkState {
  emitted : list Chunk;
  accumulator : str;
  bounds : option (Z * Z)
}.

Definition init : state := mkState [] [] None.

Definition separator : str := [LF].

Definition flush (s : state) : list Chunk :=
  match bounds s with
  | Some (first, last) => [mkSpecChunk (len (emitted s)) first last (accumulator s)]
  | None => []
  end.

(** "If appending the unit's text (plus a unit separator) would push the
    accumulator's length past the configured budget AND the accumulator is
    non-empty, flush the accumulator as a completed Chunk, reset the
    accumulator, then begin the new accumulator with the current unit.
    Otherwise append the unit to the accumulator." *)
Definition step (budget : Z) (s : state) (u : TextUnit) : state :=
  let piece := unit_text u ++ separator in
  if (len (accumulator s) + len piece >? budget) && truthy (accumulator s)
  then mkState (emitted s ++ flush s) piece (Some (index u, index u))
  else mkState (emitted s) (accumulator s ++ piece)
               (Some (match bounds s with Some (first, _) => first | None => index u end,
                      index u)).

Definition units_of (lines : list str) : list TextUnit :=
  map (fun il => mkUnit (fst il) (snd il)) (enumerate lines).

Definition run (budget : Z) (lines : list str) : state :=
  fold_left (step budget) (units_of lines) init.

(** A chunk of the module against a chunk of the design document: same
    number and bounds; the module strips the text on the right and counts
    the characters before stripping. *)
Definition matches (c : TextRead.TextChunkData) (k : Chunk) : Prop :=
  TextRead.chunk_id c = chunk_id k /\
  TextRead.line_start c = span_start k /\
  TextRead.line_end c = span_end k /\
  TextRead.text c = rstrip (text k) /\
  TextRead.char_count c = len (text k).

End Chunker.

(** ** Vocabulary of the statements about chunks *)

Section ChunkVocabulary.

Import TextRead.

(** The accumulator built from a run of lines: each line and a newline. *)
Definition acc_text (g : list str) : str := List.concat (map (fun l => l ++ [LF]) g).

(** The lines [a..b], both included. *)
Definition slice (lines : list str) (a b : Z) : list str :=
  firstn (Z.to_nat (b - a + 1)) (skipn (Z.to_nat a) lines).

(** The line [i] lies in the range of the chunk. *)
Definition covers (c : TextChunkData) (i : Z) : Prop :=
  line_start c <= i <= line_end c.

(** The chunks partition the line indices [0 .. n-1]. *)
Record exact_partition (cs : list TextChunkData) (n : Z) : Prop := mkPartition {
  first_at_zero : forall c, hd_error cs = Some c -> line_start c = 0;
  last_at_end : forall c, nth_error cs (Nat.pred (List.length cs)) = Some c -> line_end c = n - 1;
  consecutive : forall j c c',
      nth_error cs j = Some c -> nth_error cs (S j) = Some c' ->
      line_start c' = line_end c + 1;
  in_exactly_one : forall i, 0 <= i < n ->
      exists j c, nth_error cs j = Some c /\ covers c i /\
                  forall j' c', nth_error cs j' = Some c' -> covers c' i -> j' = j
}.

(** Consecutive ranges from [lo] up to [hi], none empty. *)
Fixpoint tiles (lo : Z) (cs : list TextChunkData) (hi : Z) : Prop :=
  match cs with
  | [] => lo = hi
  | c :: cs' => line_start c = lo /\ lo <= line_end c /\ tiles (line_end c + 1) cs' hi
  end.

(** The runs of lines the loop folds together: [acc] is the run being
    accumulated; the result is the completed runs and the last one. *)
Fixpoint group_lines (budget : Z) (acc : list str) (lines : list str)
  : list (list str) * list str :=
  match lines with
  | [] => ([], acc)
  | l :: rest =>
      if must_flush budget (acc_text acc) (l ++ [LF])
      then let '(gs, a) := group_lines budget [l] rest in (acc :: gs, a)
      else group_lines budget (acc ++ [l]) rest
  end.

(** The chunks of consecutive runs of lines, numbered from [cid], the first
    run starting at line [lo]. *)
Fixpoint chunks_of_groups (cid lo : Z) (gs : list (list str)) : list TextChunkData :=
  match gs with
  | [] => []
  | g :: gs' =>
      mkChunk cid lo (lo + len g - 1) (rstrip (acc_text g)) (len (acc_text g))
      :: chunks_of_groups (cid + 1) (lo + len g) gs'
  end.

(** The runs that become chunks: the last one only when it is not blank. *)
Definition emitted_groups (lines : list str) (budget : Z) : list (list str) :=
  let '(gs, a) := group_lines budget [] lines in
  if blank (acc_text a) then gs else gs ++ [a].

(** A run within the budget, or a single line. *)
Definition bounded (budget : Z) (g : list str) : Prop :=
  len (acc_text g) <= budget \/ (List.length g <= 1)%nat.

(** What relates the variables of the loop to the state of the design
    document's fold after the same lines. *)
Definition simulates (lines : list str) (st : loop_state) (sp : Chunker.state) : Prop :=
  Forall2 Chunker.matches (chunks st) (Chunker.emitted sp) /\
  current_chunk st = Chunker.accumulator sp /\
  next_id st = len (Chunker.emitted sp) /\
  (lines = [] -> Chunker.bounds sp = None /\ cur_start st = 0 /\ current_chunk st = []) /\
  (lines <> [] -> Chunker.bounds sp = Some (cur_start st, len lines - 1)).

End ChunkVocabulary.

(** ** Vocabulary of the statements about encodings *)

Section EncodingVocabulary.

Import TextFile.

(** The first candidate of the trial list that decodes the whole file. *)
Definition first_decoding (P : platform) (raw : bytes) : option string :=
  find (fun enc => decodes P enc raw) encodings.

(** [detect_encoding] goes through the trial list: chardet is missing, or
    raises, or is less than 0.7 confident, or names no encoding. *)
Definition uses_trial_list (P : platform) (raw : bytes) : bool :=
  match chardet P with
  | None => true
  | Some detect =>
      match detect (firstn (Z.to_nat 10000) raw) with
      | None => true
      | Some result =>
          low_confidence result
          || match cd_encoding result with None => true | Some _ => false end
      end
  end.

End EncodingVocabulary.

(** ** Vocabulary of the statements about sheets *)

Section SheetVocabulary.

Import ExcelRead.

(** The text of a cell of a row: nothing for a missing value. *)
Definition cell_text (c : cell) : str :=
  match c with
  | NaN | NaT => []
  | Value v => v
  | Timestamp scalar _ => scalar
  end.

(** The cells of a row under their column labels. *)
Definition labelled_cells {L} (cols : list L) (row : list cell) : list (L * str) :=
  map (fun jc => (snd jc, cell_text (at_column row (fst jc)))) (positions 0 cols).

(** Those that hold more than white space. *)
Definition nonblank_cells {L} (cols : list L) (row : list cell) : list (L * str) :=
  filter (fun cv => negb (blank (snd cv))) (labelled_cells cols row).

Definition nonempty_row {L} (cols : list L) (ir : Z * list cell) : bool :=
  truthy (nonblank_cells cols (snd ir)).

(** The record of a row: its index, its non-blank cells and their values
    joined with a space. *)
Definition row_record (cols : list string) (ir : Z * list cell) : ExcelRowData :=
  mkRow (fst ir) (nonblank_cells cols (snd ir))
        (join [SP] (map snd (nonblank_cells cols (snd ir)))).

(** The dictionary [row_step] appends for a row that holds a non-blank
    cell. *)
Definition dict_of (cols : list label) (ir : Z * list cell) : row_dict :=
  (fst ir, nonblank_cells cols (snd ir),
   join [SP] (map snd (nonblank_cells cols (snd ir)))).

(** The sheet with the rows ["a","b"], ["",""], ["c"] as [pd.read_excel]
    gives it to the code: called without [header], it takes the first row
    of the sheet for the column labels; the rows below it are the rows of
    the frame, numbered from 0, and their empty cells are missing values. *)
Definition three_row_sheet : DataFrame :=
  mkFrame [Name "a"; Name "b"] [[NaN; NaN]; [Value (lit "c"); NaN]].

(** A sheet whose first row holds the number 1 and the text "b", above the
    row ["x", ""]. *)
Definition numbered_sheet : DataFrame :=
  mkFrame [NotStr "1"; Name "b"] [[Value (lit "x"); NaN]].

End SheetVocabulary.

(** ** Vocabulary of the statements about Word documents *)

Section WordVocabulary.

Import WordRead.

(** A paragraph that holds more than white space. *)
Definition keeps_paragraph (ip : Z * Paragraph) : bool :=
  negb (blank (par_text (snd ip))).

Definition paragraph_record (ip : Z * Paragraph) : WordParagraphData :=
  mkParData (fst ip) (strip (par_text (snd ip)))
            (par_style (snd ip)) (par_alignment (snd ip)).

(** A table row with a cell that holds more than white space. *)
Definition keeps_row (ir : Z * list str) : bool :=
  negb (forallb blank (snd ir)).

Definition kept_rows (t : Table) : list (Z * list str) :=
  filter keeps_row (enumerate (table_rows t)).

(** The cells of a row, stripped, the empty ones left out, joined. *)
Definition row_text (row : list str) : str := cells_text (map strip row).

Definition row_record_of (ir : Z * list str) : WordTableRowData :=
  mkRowData (fst ir) (map strip (snd ir)).

Definition keeps_table (it : Z * Table) : bool := truthy (kept_rows (snd it)).

Definition table_record (it : Z * Table) : WordTableData :=
  mkTableData (fst it) (len (kept_rows (snd it))) (table_columns (snd it))
              (map row_record_of (kept_rows (snd it)))
              (join bar (map (fun ir => row_text (snd ir)) (kept_rows (snd it)))).

(** The units of the output, in order: the texts that [full_text] joins. *)
Definition units (out : WordFileData) : list str :=
  map text (out_paragraphs out) ++ map full_text (out_tables out).

(** The units of the design document's Word variant: "one TextUnit per
    non-empty paragraph followed by one TextUnit per non-empty table row
    (cells joined with a separator)". *)
Definition units_of_design (doc : Document) : list str :=
  map (fun ip => strip (par_text (snd ip)))
      (filter keeps_paragraph (enumerate (paragraphs doc)))
  ++ flat_map (fun t => map (fun ir => row_text (snd ir)) (kept_rows t)) (tables doc).

End WordVocabulary.

(** ** Vocabulary of the statements about file metadata *)

Section MetadataVocabulary.

Import FileRead.

(** What [hashlib] promises of a hash object: feeding it piece by piece is
    feeding it the concatenation, feeding it nothing changes nothing, and
    md5 is among the algorithms. *)
Record hashlib_contract (H : hashlib) : Prop := mkContract {
  update_app : forall h a b,
      hash_update H (hash_update H h a) b = hash_update H h (a ++ b);
  update_nil : forall h, hash_update H h [] = h;
  md5_known : hash_new H "md5" <> None
}.

(** What [open(path, 'rb')] gives on a path that exists: the bytes to be
    read, or the exception raised. *)
Definition opens (n : node) : exn + bytes :=
  match n with
  | RegularFile data _ _ | Special _ _ _ (Some data) => inr data
  | Directory _ _ _ => inl IsADirectoryError
  | Unreadable _ _ _ => inl PermissionError
  | Special _ _ _ None => inl OSError
  end.

(** [st_size] and [st_mtime] of what a path leads to. *)
Definition stat_size (n : node) : Z :=
  match n with
  | RegularFile data _ _ => len data
  | Directory st_size _ _ | Unreadable st_size _ _ | Special st_size _ _ _ => st_size
  end.

Definition stat_mtime (n : node) : Z :=
  match n with
  | RegularFile _ _ mtime | Directory _ _ mtime | Unreadable _ _ mtime
  | Special _ _ mtime _ => mtime
  end.

(** The size of the blocks [calculate_file_hash] reads. *)
Definition block_size : Z := 4096.

End MetadataVocabulary.

(** ** Sample platforms *)

Module Sample.

Local Open Scope string_scope.

Definition is_ascii (raw : bytes) : bool :=
  forallb (fun b => (Byte.to_N b <? 128)%N) raw.

Definition known_codecs : list string :=
  ["utf-8"; "cp932"; "shift_jis"; "latin-1"; "ascii"]%string.

(** A codec registry described on ASCII content, which the five codecs
    decode alike; other content is passed by latin-1 alone here. *)
Definition ascii_decode (enc : string) (raw : bytes) : decode_result :=
  if negb (existsb (String.eqb enc) known_codecs) then LookupError
  else if is_ascii raw || String.eqb enc "latin-1" then Decoded (map Byte.to_N raw)
  else UnicodeDecodeError.

Definition hello : bytes := list_byte_of_string "hello".

Definition one_file (name : string) (raw : bytes) (path : string) : option node :=
  if String.eqb path name then Some (RegularFile raw 0 0)
  else if String.eqb path "dir" then Some (Directory 4096 0 0)
  else if String.eqb path "locked.txt" then Some (Unreadable 5 0 0)
  else if String.eqb path "pipe" then Some (Special 0 0 0 None)
  else None.

Definition suffix_txt (path : string) : string := ".txt".

(** A platform without chardet holding the file [hello.txt]. *)
Definition plain : platform :=
  mkPlatform (one_file "hello.txt" hello) ascii_decode None
             (fun p => p) (fun p => p) suffix_txt
             "2024-01-01T00:00:00" (fun _ => "2024-01-01T00:00:00")
             (fun _ => Some "text/plain"%string) None (fun _ => None).

(** The same with chardet, which finds [hello.txt] to be ASCII for sure. *)
Definition with_chardet : platform :=
  mkPlatform (one_file "hello.txt" hello) ascii_decode
             (Some (fun _ => Some (mkDetect (Some "ascii"%string) 1)))
             (fun p => p) (fun p => p) suffix_txt
             "2024-01-01T00:00:00" (fun _ => "2024-01-01T00:00:00")
             (fun _ => Some "text/plain"%string) None (fun _ => None).

(** A hash library whose digests are a 32-bit polynomial checksum. *)
Definition checksum_update (h : Z) (data : bytes) : Z :=
  fold_left (fun a b => (a * 31 + Z.of_N (Byte.to_N b)) mod 4294967296) data h.

Definition checksum : FileRead.hashlib :=
  FileRead.mkHashlib Z
    (fun algorithm =>
       if existsb (String.eqb algorithm) ["md5"; "sha1"; "sha256"] then Some 0 else None)
    checksum_update
    (fun h => HexadecimalString.NilZero.string_of_uint (N.to_hex_uint (Z.to_N h))).

(** The world of [plain], nothing open. *)
Definition world : FileRead.world := FileRead.mkWorld (one_file "hello.txt" hello) [].

(** A platform without chardet holding [notes.txt], of three lines. *)
Definition notes : bytes :=
  (list_byte_of_string "one" ++ [x0a] ++ list_byte_of_string "two" ++ [x0a]
   ++ list_byte_of_string "three" ++ [x0a])%list.

Definition with_notes : platform :=
  mkPlatform (one_file "notes.txt" notes) ascii_decode None
             (fun p => p) (fun p => p) suffix_txt
             "2024-01-01T00:00:00" (fun _ => "2024-01-01T00:00:00")
             (fun _ => Some "text/plain"%string) None (fun _ => None).

End Sample.

(** ** Vocabulary of the statements about the queue router *)

Section RouterVocabulary.

Import Queue.

(** A call of one of the three handlers of the router. *)
Inductive call :=
| CallEnqueue (now : string) (request : EnqueueRequest)
| CallDequeue (now : string) (request : EnqueueRequest)
| CallList.

(** The table after a call. *)
Definition after_call (S : store) (db : table) (c : call) : table :=
  match c with
  | CallEnqueue now request => snd (enqueue S now request db)
  | CallDequeue now request => snd (dequeue S now request db)
  | CallList => snd (get_queue_list db)
  end.

(** The table after a sequence of calls. *)
Definition after_calls (S : store) (db : table) (calls : list call) : table :=
  fold_left (after_call S) calls db.

(** A row as [enqueue] writes it: waiting, never tried, never started. *)
Definition untouched (r : QueueItem) : Prop :=
  item_status r = PENDING /\ retry_count r = 0 /\
  started_at r = None /\ completed_at r = None /\
  error_message r = None /\ updated_at r = created_at r.

(** The order of the listing on its entries. *)
Definition listed_before (a b : QueueListEntry) : Prop :=
  entry_priority a > entry_priority b \/
  (entry_priority a = entry_priority b /\
   String.leb (entry_created_at a) (entry_created_at b) = true).

End RouterVocabulary.

(** ** A sample database *)

Module SampleQueue.

Import Queue.

(** The integer key SQLite gives a row inserted without one: one more than
    the largest in the table. *)
Definition next_rowid (t : table) : Z := 1 + fold_right Z.max 0 (map id t).

(** A database that answers, with the given constraints on its table. *)
Definition store_with (violates : constraint) : store :=
  mkStore violates next_rowid (fun _ => false).

(** The table of the design document. *)
Definition store : store := store_with unique_among_non_terminal.

End SampleQueue.

(** ** Further vocabulary of the statements about chunks *)

Section ChunkTotals.

Import TextRead.

(** The sum of the [char_count] of the chunks. *)
Definition total_char_count (cs : list TextChunkData) : Z :=
  fold_right Z.add 0 (map char_count cs).

End ChunkTotals.

(** ** modules/text_read.py: the other readers *)

Module TextLines.

Import TextFile.

Definition read_text_file_simple (P : platform) (path : string) (enc : option string)
  : exn + str :=
  match read_text_file P path enc with
  | inl e => inl e
  | inr text_data => inr (content text_data)
  end.

Definition read_text_file_lines (P : platform) (path : string) (enc : option string)
  : exn + list str :=
  match read_text_file P path enc with
  | inl e => inl e
  | inr text_data => inr (splitlines (content text_data))
  end.

(** [lines[a:b]] for [0 <= a <= b <= len(lines)]. *)
Definition slice_lines (lines : list str) (a b : Z) : list str :=
  firstn (Z.to_nat (b - a)) (skipn (Z.to_nat a) lines).

(** The body of [read_text_file_by_lines] once the lines are read;
    [end_line] is [None] for the default. *)
Definition select_lines (lines : list str) (start_line : Z) (end_line : option Z) : str :=
  let end_line := match end_line with None => len lines | Some e => e end in
  let start_line := Z.max 0 start_line in
  let end_line := Z.min (len lines) end_line in
  if start_line >=? end_line then []
  else join [LF] (slice_lines lines start_line end_line).

Definition read_text_file_by_lines (P : platform) (path : string) (start_line : Z)
    (end_line : option Z) (enc : option string) : exn + str :=
  match read_text_file_lines P path enc with
  | inl e => inl e
  | inr lines => inr (select_lines lines start_line end_line)
  end.

End TextLines.

(** ** Vocabulary of the statements about lines *)

Section LineVocabulary.

(** A string that holds no line boundary. *)
Definition breakfree (l : str) : bool := forallb (fun c => negb (is_linebreak c)) l.

End LineVocabulary.

(** ** modules/file_read.py: the other readers *)

Module FileReaders.

Import FileRead.

(** [f.read()] on the innermost open file: everything that is left. *)
Definition read_all : IO bytes :=
  fun w => match open_files w with
           | unread :: others => (inr unread, mkWorld (files w) ([] :: others))
           | [] => (inl ValueError_closed_file, w)
           end.

Definition read_file_binary (path : string) : IO bytes :=
  found <- path_exists path ;;
  if negb found then raise FileNotFoundError else
  with_open_rb path read_all.

(** [open(path, 'r', encoding=encoding)] and [f.read()]: the bytes of the
    file through the codec; the [UnicodeDecodeError] is turned into the
    [ValueError] of a file that is not text once the file is closed. *)
Definition read_file_content (P : platform) (path : string) (encoding : string)
  : IO str :=
  found <- path_exists path ;;
  if negb found then raise FileNotFoundError else
  with_open_rb path
    (data <- read_all ;;
     match decode P encoding data with
     | Decoded text => ret text
     | UnicodeDecodeError => raise ValueError_not_text
     | LookupError => raise LookupError_raised
     end).

(** The dictionary [get_file_info_summary] returns: the two shapes it has. *)
Inductive summary :=
| Missing (caught : option exn)
| Present (filename : string) (file_size : Z) (file_type : string) (modified : string)
          (is_file is_directory : bool).

Definition path_is_dir (path : string) : IO bool :=
  fun w => (inr (match files w path with Some (Directory _ _ _) => true | _ => false end), w).

(** [get_file_info_summary]: any exception of the body is caught and
    answered with the dictionary of a missing file. *)
Definition get_file_info_summary (P : platform) (path : string) : IO summary :=
  fun w =>
    match (found <- path_exists path ;;
           if negb found then ret (Missing None) else
           st <- path_stat path ;;
           let '(st_size, _, st_mtime) := st in
           regular <- path_is_file path ;;
           directory <- path_is_dir path ;;
           ret (Present (path_name P path) st_size (lower (path_suffix P path))
                        (isoformat P st_mtime) regular directory)) w with
    | (inl e, w') => (inr (Missing (Some e)), w')
    | (inr answer, w') => (inr answer, w')
    end.

End FileReaders.

(** ** modules/word_read.py: the other readers *)

(** How a call of these readers ends when it raises: the exceptions the
    functions raise themselves, the [ValueError] their [except] clause
    turns any exception of the [try] block into, and an exception of the
    library that no clause catches. *)
Inductive failure :=
| ImportError_raised
| FileNotFoundError_raised
| ValueError_wrong_suffix
| ValueError_raised
| LibraryError_raised.

Module WordTools.

Import WordRead.

(** The body of [for paragraph in doc.paragraphs], on [texts]. *)
Definition simple_paragraph_step (texts : list str) (paragraph : Paragraph) : list str :=
  let text := strip (par_text paragraph) in
  if truthy text then texts ++ [text] else texts.

(** The body of [for row in table.rows], on [table_texts]. *)
Definition simple_row_step (table_texts : list str) (row : list str) : list str :=
  let cells := map strip row in
  let row_text := cells_text cells in
  if truthy row_text then table_texts ++ [row_text] else table_texts.

(** The body of [for table in doc.tables], on [texts]. *)
Definition simple_table_step (texts : list str) (table : Table) : list str :=
  let table_texts := fold_left simple_row_step (table_rows table) [] in
  if truthy table_texts
  then (texts ++ [lit "=== Table ==="]) ++ table_texts
  else texts.

(** The [try] block of [read_word_simple], from the parsed document on. *)
Definition read_word_text (doc : Document) : str :=
  let texts := fold_left simple_paragraph_step (paragraphs doc) [] in
  let texts := fold_left simple_table_step (tables doc) texts in
  join [LF] texts.

Definition read_word_simple (P : platform) (docx : option (string -> option Document))
    (path : string) : failure + str :=
  match docx with
  | None => inl ImportError_raised
  | Some open_document =>
      match fs P path with
      | None => inl FileNotFoundError_raised
      | Some _ =>
          match open_document path with
          | None => inl ValueError_raised
          | Some doc => inr (read_word_text doc)
          end
      end
  end.

(** What [get_word_metadata] looks at in [doc.sections]: for each section
    the number of paragraphs of its header and of its footer. *)
Record DocSection := mkSection {
  header_paragraphs : Z;
  footer_paragraphs : Z
}.

Record WordMetadata := mkWordMeta {
  meta_file_path : string;
  meta_filename : string;
  meta_paragraph_count : Z;
  meta_table_count : Z;
  has_headers : bool;
  has_footers : bool;
  has_headers_footers : bool
}.

(** [any(p.style.name.startswith('Heading') for p in doc.paragraphs)]: the
    paragraphs are looked at until one is a heading; [None] is the
    [AttributeError] of a paragraph without a style met on the way. *)
Fixpoint any_heading (ps : list Paragraph) : option bool :=
  match ps with
  | [] => Some false
  | p :: ps' =>
      match par_style p with
      | None => None
      | Some name => if String.prefix "Heading" name then Some true else any_heading ps'
      end
  end.

(** The [try] block of [get_word_metadata], from the parsed document on;
    [None] when an exception is raised in it. *)
Definition word_metadata (P : platform) (path : string) (doc : Document)
    (sections : list DocSection) : option WordMetadata :=
  let paragraph_count :=
    len (filter (fun p => truthy (strip (par_text p))) (paragraphs doc)) in
  let table_count := len (tables doc) in
  match any_heading (paragraphs doc) with
  | None => None
  | Some headers =>
      Some (mkWordMeta (path_absolute P path) (path_name P path)
                       paragraph_count table_count headers
                       (match sections with
                        | first :: _ => footer_paragraphs first >? 0
                        | [] => false
                        end)
                       (match sections with
                        | first :: _ => header_paragraphs first >? 0
                        | [] => false
                        end))
  end.

Definition get_word_metadata (P : platform)
    (docx : option (string -> option (Document * list DocSection)))
    (path : string) : failure + WordMetadata :=
  match docx with
  | None => inl ImportError_raised
  | Some open_document =>
      match fs P path with
      | None => inl FileNotFoundError_raised
      | Some _ =>
          match open_document path with
          | None => inl ValueError_raised
          | Some (doc, sections) =>
              match word_metadata P path doc sections with
              | None => inl ValueError_raised
              | Some meta => inr meta
              end
          end
      end
  end.

End WordTools.

(** ** modules/word_read.py: the chunker *)

Module WordChunks.

Import WordRead WordTools.

Record WordChunk := mkWordChunk {
  chunk_id : Z;
  type : string;
  paragraph_start : Z;
  paragraph_end : Z;
  text : str;
  char_count : Z
}.

(** The variables of the loops of [extract_word_to_chunks]. *)
Record loop_state := mkLoop {
  chunks : list WordChunk;
  next_id : Z;                          (* chunk_id *)
  current_chunk : str;
  current_chunk_paragraphs : list Z
}.

Definition loop_init : loop_state := mkLoop [] 0 [] [].

(** [l[0] if l else default]; [l[-1] if l else default] is [last l default]. *)
Definition first_or (l : list Z) (default : Z) : Z :=
  match l with
  | x :: _ => x
  | [] => default
  end.

(** The test [len(current_chunk) + len(piece) > chunk_size and current_chunk]. *)
Definition must_save (chunk_size : Z) (current : str) (piece : str) : bool :=
  (len current + len piece >? chunk_size) && truthy current.

(** [chunks.append({...}); chunk_id += 1; current_chunk = "";
    current_chunk_paragraphs = []]; without the three resets this is also
    what is done with the last chunk. *)
Definition save (st : loop_state) (default : Z) : loop_state :=
  mkLoop (chunks st ++ [mkWordChunk (next_id st) "paragraph"
                                    (first_or (current_chunk_paragraphs st) default)
                                    (last (current_chunk_paragraphs st) default)
                                    (strip (current_chunk st))
                                    (len (current_chunk st))])
         (next_id st + 1) [] [].

(** One iteration of [for para_idx, paragraph in enumerate(doc.paragraphs)]. *)
Definition paragraph_body (chunk_size : Z) (st : loop_state) (ip : Z * Paragraph)
  : loop_state :=
  let '(para_idx, paragraph) := ip in
  let text := strip (par_text paragraph) in
  if negb (truthy text) then st else
  let st1 := if must_save chunk_size (current_chunk st) text then save st para_idx else st in
  mkLoop (chunks st1) (next_id st1) (current_chunk st1 ++ text ++ [LF])
         (current_chunk_paragraphs st1 ++ [para_idx]).

(** The body of [for row in table.rows], on [table_text]. *)
Definition table_text_step (table_text : str) (row : list str) : str :=
  let cells := map strip row in
  let row_text := cells_text cells in
  if truthy row_text then table_text ++ row_text ++ [LF] else table_text.

(** [str(n)] for an integer. *)
Definition str_of_int (n : Z) : str :=
  lit (DecimalString.NilZero.string_of_int (Z.to_int n)).

(** [f"=== Table {table_idx} ===\n"] *)
Definition table_banner (table_idx : Z) : str :=
  lit "=== Table " ++ str_of_int table_idx ++ lit " ===" ++ [LF].

(** One iteration of [for table_idx, table in enumerate(doc.tables)]. *)
Definition table_body (chunk_size : Z) (st : loop_state) (it : Z * Table) : loop_state :=
  let '(table_idx, table) := it in
  let table_text := fold_left table_text_step (table_rows table) [] in
  if truthy table_text then
    let st1 := if must_save chunk_size (current_chunk st) table_text then save st 0 else st in
    mkLoop (chunks st1) (next_id st1)
           (current_chunk st1 ++ table_banner table_idx ++ table_text)
           (current_chunk_paragraphs st1)
  else st.

Definition run_loops (chunk_size : Z) (doc : Document) : loop_state :=
  fold_left (table_body chunk_size) (enumerate (tables doc))
            (fold_left (paragraph_body chunk_size) (enumerate (paragraphs doc)) loop_init).

(** The chunks of a parsed document. *)
Definition chunks_of_document (doc : Document) (chunk_size : Z) : list WordChunk :=
  let st := run_loops chunk_size doc in
  if truthy (strip (current_chunk st)) then chunks (save st 0) else chunks st.

(** [Document(file_path)] is called outside any [try]: what it raises is
    passed on. *)
Definition extract_word_to_chunks (P : platform)
    (docx : option (string -> option Document)) (path : string) (chunk_size : Z)
  : failure + list WordChunk :=
  match docx with
  | None => inl ImportError_raised
  | Some open_document =>
      match fs P path with
      | None => inl FileNotFoundError_raised
      | Some _ =>
          match open_document path with
          | None => inl LibraryError_raised
          | Some doc => inr (chunks_of_document doc chunk_size)
          end
      end
  end.

End WordChunks.

(** ** Vocabulary of the statements about the other Word readers *)

Section WordToolsVocabulary.

Import WordRead WordTools WordChunks.

(** The lines [read_word_simple] gives a table of the record: the banner
    and the text of each of its rows. *)
Definition table_lines (t : WordTableData) : list str :=
  lit "=== Table ===" :: map (fun r => cells_text (cells r)) (rows t).

(** A table with a row that holds more than white space. *)
Definition table_kept (t : Table) : bool := keeps_table (0, t).

(** What the chunker appends for a kept paragraph and for a kept table. *)
Definition paragraph_piece (ip : Z * Paragraph) : str :=
  strip (par_text (snd ip)) ++ [LF].

Definition table_block (t : Table) : str :=
  List.concat (map (fun ir => row_text (snd ir) ++ [LF]) (kept_rows t)).

Definition table_piece (it : Z * Table) : str :=
  table_banner (fst it) ++ table_block (snd it).

(** Everything the chunker appends for a document, in order. *)
Definition document_pieces (doc : Document) : list str :=
  map paragraph_piece (filter keeps_paragraph (enumerate (paragraphs doc)))
  ++ map table_piece (filter keeps_table (enumerate (tables doc))).

(** What the loops keep true of the text gathered so far: the chunks are
    numbered from zero, they and the accumulator cut [gathered] into
    consecutive segments, none blank. *)
Record gathers (st : loop_state) (gathered : str) : Prop := mkGathers {
  ids_count : map chunk_id (chunks st) = map Z.of_nat (seq 0 (List.length (chunks st)));
  next_is_count : next_id st = len (chunks st);
  segments : exists accs,
      List.concat accs ++ current_chunk st = gathered /\
      map text (chunks st) = map strip accs /\
      map char_count (chunks st) = map len accs /\
      Forall (fun a => blank a = false) accs;
  current_not_blank : current_chunk st = [] \/ blank (current_chunk st) = false
}.

(** The paragraph index [i] is accounted for. *)
Definition covered (st : loop_state) (i : Z) : Prop :=
  (exists c, In c (chunks st) /\ paragraph_start c <= i <= paragraph_end c)
  \/ In i (current_chunk_paragraphs st).

(** What the loops keep true of the paragraph indices, [bound] being the
    next index to come. *)
Record ranges (st : loop_state) (bound : Z) : Prop := mkRanges {
  ordered_chunks : Forall (fun c => paragraph_start c <= paragraph_end c) (chunks st);
  current_sorted : StronglySorted Z.lt (current_chunk_paragraphs st);
  current_below : Forall (fun i => i < bound) (current_chunk_paragraphs st);
  current_empty : current_chunk st = [] -> current_chunk_paragraphs st = []
}.

End WordToolsVocabulary.

(** ** modules/excel_read.py: the other readers *)

Module ExcelTools.

Import ExcelRead.

(** The name of a sheet is a Python string. *)
Fixpoint str_eqb (a b : str) : bool :=
  match a, b with
  | [], [] => true
  | x :: a', y :: b' => (x =? y)%N && str_eqb a' b'
  | _, _ => false
  end.

(** What pandas shows of a workbook: its sheets, in order, each under its
    name. *)
Definition workbook := list (str * DataFrame).

(** [pandas]: [None] when the import fails; opening a path answers [None]
    when it raises. *)
Definition pandas := option (string -> option workbook).

(** [pd.read_excel(..., sheet_name=name)]: the first sheet of that name;
    [None] when there is none, which raises. *)
Definition read_sheet (wb : workbook) (name : str) : option DataFrame :=
  match find (fun sheet => str_eqb (fst sheet) name) wb with
  | Some sheet => Some (snd sheet)
  | None => None
  end.

(** [excel_file.sheet_names] *)
Definition names (wb : workbook) : list str := map fst wb.

(** [d[key] = value] on a dictionary kept in insertion order. *)
Fixpoint dict_set {V} (d : list (str * V)) (key : str) (value : V) : list (str * V) :=
  match d with
  | [] => [(key, value)]
  | (k, v) :: d' =>
      if str_eqb k key then (k, value) :: d' else (k, v) :: dict_set d' key value
  end.

Record ExcelFileData := mkExcelFile {
  file_path : string;
  filename : string;
  sheet_count : Z;
  sheet_names : list str;
  sheets : list (str * ExcelSheetData);
  extracted_at : string
}.

(** The sheet asked for: [if sheet_name:] takes an empty name as none. *)
Definition asked (sheet_name : option str) : option str :=
  match sheet_name with
  | Some name => if truthy name then Some name else None
  | None => None
  end.

(** [_extract_dataframe_text(df)] inside the [try] block: [None] when it
    raises. *)
Definition extracted (df : DataFrame) : option ExcelSheetData :=
  match _extract_dataframe_text df with
  | inr d => Some d
  | inl _ => None
  end.

(** The body of [for sheet in excel_file.sheet_names] in
    [read_excel_file], on [sheets_data]; [None] once a read or an
    extraction has raised. *)
Definition sheet_step (wb : workbook) (sheets_data : option (list (str * ExcelSheetData)))
    (sheet : str) : option (list (str * ExcelSheetData)) :=
  match sheets_data with
  | None => None
  | Some d =>
      match read_sheet wb sheet with
      | None => None
      | Some df =>
          match extracted df with
          | None => None
          | Some data => Some (dict_set d sheet data)
          end
      end
  end.

(** The two branches of the [try] block of [read_excel_file]. *)
Definition sheets_of (wb : workbook) (sheet_name : option str)
  : option (list (str * ExcelSheetData)) :=
  match asked sheet_name with
  | Some name =>
      match read_sheet wb name with
      | None => None
      | Some df =>
          match extracted df with
          | None => None
          | Some data => Some [(name, data)]
          end
      end
  | None => fold_left (sheet_step wb) (names wb) (Some [])
  end.

Definition excel_suffixes : list string := [".xlsx"; ".xls"; ".xlsm"]%string.

Definition read_excel_file (P : platform) (pd : pandas) (path : string)
    (sheet_name : option str) : failure + ExcelFileData :=
  match pd with
  | None => inl ImportError_raised
  | Some open_workbook =>
      match fs P path with
      | None => inl FileNotFoundError_raised
      | Some _ =>
          if negb (existsb (String.eqb (lower (path_suffix P path))) excel_suffixes)
          then inl ValueError_wrong_suffix
          else match open_workbook path with
               | None => inl ValueError_raised
               | Some wb =>
                   match sheets_of wb sheet_name with
                   | None => inl ValueError_raised
                   | Some sheets_data =>
                       inr (mkExcelFile (path_absolute P path) (path_name P path)
                                        (len sheets_data) (map fst sheets_data)
                                        sheets_data (now_isoformat P))
                   end
               end
      end
  end.

(** [row.values] once [df.fillna("")] is done: a value for each column. *)
Definition filled_row (cols : list label) (row : list cell) : list cell :=
  map (fun jc => fillna (at_column row (fst jc))) (positions 0 cols).

(** [[str(val) for val in row.values if str(val).strip()]] *)
Definition row_values (cols : list label) (row : list cell) : list str :=
  filter (fun v => truthy (strip v)) (map array_str (filled_row cols row)).

(** The body of [for index, row in df.iterrows()] in [_dataframe_to_text],
    on [lines]. *)
Definition line_step (cols : list label) (lines : list str) (row : list cell) : list str :=
  let values := row_values cols row in
  if truthy values then lines ++ [join (lit " | ") values] else lines.

Definition _dataframe_to_text (df : DataFrame) : str :=
  join [LF] (fold_left (line_step (columns df)) (values df) []).

(** The body of [for sheet in excel_file.sheet_names] in
    [read_excel_simple], on [texts]. *)
Definition sheet_text_step (wb : workbook) (texts : option (list str)) (sheet : str)
  : option (list str) :=
  match texts with
  | None => None
  | Some ts =>
      match read_sheet wb sheet with
      | None => None
      | Some df =>
          Some (ts ++ [lit "=== Sheet: " ++ sheet ++ lit " ===" ++ [LF]
                       ++ _dataframe_to_text df ++ [LF]])
      end
  end.

Definition simple_text_of (wb : workbook) (sheet_name : option str) : option str :=
  match asked sheet_name with
  | Some name =>
      match read_sheet wb name with
      | None => None
      | Some df => Some (_dataframe_to_text df)
      end
  | None =>
      match fold_left (sheet_text_step wb) (names wb) (Some []) with
      | None => None
      | Some texts => Some (join [LF] texts)
      end
  end.

Definition read_excel_simple (P : platform) (pd : pandas) (path : string)
    (sheet_name : option str) : failure + str :=
  match pd with
  | None => inl ImportError_raised
  | Some open_workbook =>
      match fs P path with
      | None => inl FileNotFoundError_raised
      | Some _ =>
          match open_workbook path with
          | None => inl ValueError_raised
          | Some wb =>
              match simple_text_of wb sheet_name with
              | None => inl ValueError_raised
              | Some text => inr text
              end
          end
      end
  end.

End ExcelTools.

(** ** modules/excel_read.py: the chunker *)

Module ExcelChunks.

Import ExcelRead ExcelTools.

Record ExcelChunk := mkExcelChunk {
  chunk_id : Z;
  sheet_name : str;
  row_start : Z;
  row_end : Z;
  text : str;
  char_count : Z
}.

(** The variables of the loops of [extract_excel_to_chunks]. *)
Record loop_state := mkLoop {
  chunks : list ExcelChunk;
  next_id : Z;                          (* chunk_id *)
  current_chunk : str;
  current_chunk_rows : list Z
}.

(** [l[0] if l else default]; [l[-1] if l else default] is [last l default]. *)
Definition first_or (l : list Z) (default : Z) : Z :=
  match l with
  | x :: _ => x
  | [] => default
  end.

(** [" ".join([str(val) for val in row.values if str(val).strip()])] *)
Definition row_text_of (cols : list label) (row : list cell) : str :=
  join [SP] (row_values cols row).

(** The test [len(current_chunk) + len(row_text) > chunk_size and current_chunk]. *)
Definition must_save (chunk_size : Z) (current : str) (row_text : str) : bool :=
  (len current + len row_text >? chunk_size) && truthy current.

(** The dictionary appended to [chunks]. *)
Definition chunk_of (sheet : str) (st : loop_state) (default : Z) : ExcelChunk :=
  mkExcelChunk (next_id st) sheet
               (first_or (current_chunk_rows st) default)
               (last (current_chunk_rows st) default)
               (strip (current_chunk st)) (len (current_chunk st)).

(** One iteration of [for index, row in df.iterrows()]. *)
Definition row_body (chunk_size : Z) (sheet : str) (cols : list label)
    (st : loop_state) (ir : Z * list cell) : loop_state :=
  let '(index, row) := ir in
  let row_text := row_text_of cols row in
  let st1 :=
    if must_save chunk_size (current_chunk st) row_text
    then mkLoop (chunks st ++ [chunk_of sheet st index]) (next_id st + 1) [] []
    else st in
  mkLoop (chunks st1) (next_id st1) (current_chunk st1 ++ row_text ++ [SP])
         (current_chunk_rows st1 ++ [index]).

(** The rows of one sheet, from the chunks and the [chunk_id] reached. *)
Definition sheet_loop (chunk_size : Z) (sheet : str) (df : DataFrame)
    (done : list ExcelChunk * Z) : list ExcelChunk * Z :=
  let st := fold_left (row_body chunk_size sheet (columns df)) (enumerate (values df))
                      (mkLoop (fst done) (snd done) [] []) in
  if truthy (strip (current_chunk st))
  then (chunks st ++ [chunk_of sheet st 0], next_id st + 1)
  else (chunks st, next_id st).

(** One iteration of [for sheet_name in excel_file.sheet_names]; [None]
    once a read has raised. *)
Definition sheet_body (chunk_size : Z) (wb : workbook)
    (done : option (list ExcelChunk * Z)) (sheet : str) : option (list ExcelChunk * Z) :=
  match done with
  | None => None
  | Some d =>
      match read_sheet wb sheet with
      | None => None
      | Some df => Some (sheet_loop chunk_size sheet df d)
      end
  end.

(** The chunks of an opened workbook. *)
Definition chunks_of_workbook (wb : workbook) (chunk_size : Z) : option (list ExcelChunk) :=
  match fold_left (sheet_body chunk_size wb) (names wb) (Some ([], 0)) with
  | None => None
  | Some d => Some (fst d)
  end.

(** [pd.ExcelFile] and [pd.read_excel] are called outside any [try]: what
    they raise is passed on. *)
Definition extract_excel_to_chunks (P : platform) (pd : pandas) (path : string)
    (chunk_size : Z) : failure + list ExcelChunk :=
  match pd with
  | None => inl ImportError_raised
  | Some open_workbook =>
      match fs P path with
      | None => inl FileNotFoundError_raised
      | Some _ =>
          match open_workbook path with
          | None => inl LibraryError_raised
          | Some wb =>
              match chunks_of_workbook wb chunk_size with
              | None => inl LibraryError_raised
              | Some cs => inr cs
              end
          end
      end
  end.

End ExcelChunks.

(** ** Vocabulary of the statements about the other Excel readers *)

Section ExcelToolsVocabulary.

Import ExcelRead ExcelTools ExcelChunks.

(** The lines [_dataframe_to_text] gives for the rows of a sheet record:
    the values of each row joined with " | ". *)
Definition sheet_lines (d : ExcelSheetData) : str :=
  join [LF] (map (fun r => join (lit " | ") (map snd (data r))) (rows d)).

(** What [read_excel_simple] gives for a sheet of the record in the listing
    of all sheets. *)
Definition sheet_block (entry : str * ExcelSheetData) : str :=
  lit "=== Sheet: " ++ fst entry ++ lit " ===" ++ [LF] ++ sheet_lines (snd entry) ++ [LF].

(** The text of a record: the lines of its one sheet when a sheet was asked
    for, the blocks of its sheets otherwise. *)
Definition record_text (sheet_name : option str) (out : ExcelFileData) : str :=
  match asked sheet_name with
  | Some _ => List.concat (map (fun entry => sheet_lines (snd entry)) (sheets out))
  | None => join [LF] (map sheet_block (sheets out))
  end.

(** The texts of the rows of a sheet, as the chunker joins them. *)
Definition row_texts (df : DataFrame) : list str :=
  map (row_text_of (columns df)) (values df).

(** The accumulator built from a run of rows: each row and a space. *)
Definition spaced (g : list str) : str := List.concat (map (fun t => t ++ [SP]) g).

(** The chunk of rows that answers a chunk of lines: the same range and
    count, the identifiers counted from [first_id]. *)
Definition of_lines (sheet : str) (first_id : Z) (texts : list str)
    (c : TextRead.TextChunkData) : ExcelChunk :=
  mkExcelChunk (first_id + TextRead.chunk_id c) sheet
               (TextRead.line_start c) (TextRead.line_end c)
               (strip (spaced (slice texts (TextRead.line_start c) (TextRead.line_end c))))
               (TextRead.char_count c).

(** The chunks the text chunker makes of the row texts of a sheet, taken
    as lines, under a budget one larger. *)
Definition sheet_chunks (sheet : str) (first_id : Z) (df : DataFrame) (chunk_size : Z)
  : list ExcelChunk :=
  map (of_lines sheet first_id (row_texts df))
      (TextRead.chunks_of_lines (row_texts df) (chunk_size + 1)).

Fixpoint workbook_chunks (first_id : Z) (wb : workbook) (chunk_size : Z) : list ExcelChunk :=
  match wb with
  | [] => []
  | (sheet, df) :: wb' =>
      let cs := sheet_chunks sheet first_id df chunk_size in
      cs ++ workbook_chunks (first_id + len cs) wb' chunk_size
  end.

(** The chunks of consecutive runs of rows, numbered from [cid], the first
    run starting at row [lo]. *)
Fixpoint chunks_of_runs (sheet : str) (cid lo : Z) (gs : list (list str)) : list ExcelChunk :=
  match gs with
  | [] => []
  | g :: gs' =>
      mkExcelChunk cid sheet lo (lo + len g - 1) (strip (spaced g)) (len (spaced g))
      :: chunks_of_runs sheet (cid + 1) (lo + len g) gs'
  end.

(** The row indices [lo], [lo + 1], ... of a run of [n] rows. *)
Definition indices (lo : Z) (n : nat) : list Z := map (fun k => lo + Z.of_nat k) (seq 0 n).

(** The entry of a sheet in the dictionary of [read_excel_file], and the
    entries of the sheets of a workbook: [None] when a sheet gets no
    record. *)
Definition record_of (s : str * DataFrame) : option (str * ExcelSheetData) :=
  match extracted (snd s) with
  | Some d => Some (fst s, d)
  | None => None
  end.

Definition records (wb : workbook) : option (list (str * ExcelSheetData)) :=
  validated record_of wb.

(** A cell that reads the same in [row[col]] and in [row.values]: not a
    missing date that was left, and not a date of a row of dates whose two
    texts differ. *)
Definition reads_alike (c : cell) : bool :=
  match c with
  | NaN | Value _ => true
  | NaT => false
  | Timestamp scalar element => str_eqb scalar element
  end.

(** A frame whose cells all do. *)
Definition plain (df : DataFrame) : bool := forallb (forallb reads_alike) (values df).

(** A sheet of one column of dates, holding one day. *)
Definition dated_sheet : DataFrame :=
  mkFrame [Name "day"]
          [[Timestamp (lit "2024-01-01 00:00:00") (lit "2024-01-01T00:00:00.000000000")]].

End ExcelToolsVocabulary.

(** ** A sample Word document and a sample workbook *)

Module SampleOffice.

Import WordRead WordTools ExcelRead ExcelTools.

Local Open Scope string_scope.

Definition two_files (path : string) : option node :=
  if String.eqb path "report.docx" then Some (RegularFile [] 0 0)
  else if String.eqb path "ledger.xlsx" then Some (RegularFile [] 0 0)
  else None.

Definition suffix_of (path : string) : string :=
  if String.eqb path "ledger.xlsx" then ".xlsx" else ".docx".

(** A platform that holds the two files [report.docx] and [ledger.xlsx]. *)
Definition office : platform :=
  mkPlatform two_files Sample.ascii_decode None
             (fun p => p) (fun p => p) suffix_of
             "2024-01-01T00:00:00" (fun _ => "2024-01-01T00:00:00")
             (fun _ => None) None (fun _ => None).

(** Two paragraphs, the second blank, and two tables, the second without
    text. *)
Definition report : Document :=
  mkDoc [mkPar (lit " Title ") (Some "Heading 1") None; mkPar (lit "  ") (Some "Normal") None]
        [mkTable [[lit "a"; lit " "]; [lit ""; lit ""]; [lit "b"; lit "c"]] 2;
         mkTable [[lit " "]] 1].

Definition report_sections : list DocSection := [mkSection 1 0].

Definition open_report (path : string) : option (Document * list DocSection) :=
  if String.eqb path "report.docx" then Some (report, report_sections) else None.

Definition open_document (path : string) : option Document :=
  option_map fst (open_report path).

(** Two sheets: three rows, the second empty, and one row. *)
Definition ledger : workbook :=
  [(lit "Q1", mkFrame [Name "item"; Name "sum"]
                      [[Value (lit "ink"); Value (lit "12")];
                       [NaN; Value (lit " ")];
                       [Value (lit "pens"); NaN]]);
   (lit "Q2", mkFrame [Name "item"] [[Value (lit "paper")]])].

Definition open_ledger (path : string) : option workbook :=
  if String.eqb path "ledger.xlsx" then Some ledger else None.

End SampleOffice.

(** * Properties *)

(** ** Python strings *)

Section PyFacts.

Lemma len_app {A} (a b : list A) : len (a ++ b) = len a + len b.
Proof. unfold len. rewrite length_app. lia. Qed.

Lemma len_nonneg {A} (a : list A) : 0 <= len a.
Proof. unfold len. lia. Qed.

Lemma len_cons {A} (x : A) (a : list A) : len (x :: a) = 1 + len a.
Proof. unfold len. cbn [List.length]. lia. Qed.

Lemma len_nil {A} : len (@nil A) = 0.
Proof. reflexivity. Qed.

Lemma len_map {A B} (f : A -> B) (l : list A) : len (map f l) = len l.
Proof. unfold len. now rewrite length_map. Qed.

Lemma truthy_true {A} (l : list A) : truthy l = true <-> l <> [].
Proof. destruct l; cbn; split; congruence. Qed.

Lemma truthy_false {A} (l : list A) : truthy l = false <-> l = [].
Proof. destruct l; cbn; split; congruence. Qed.

Lemma truthy_app_r {A} (l : list A) (x : A) : truthy (l ++ [x]) = true.
Proof. destruct l; reflexivity. Qed.

Lemma isspace_LF : isspace LF = true.
Proof. reflexivity. Qed.

Lemma blank_app (a b : str) : blank (a ++ b) = blank a && blank b.
Proof. apply forallb_app. Qed.

Lemma blank_rev (s : str) : blank (rev s) = blank s.
Proof.
  induction s as [|c s IH]; [reflexivity|].
  cbn [rev]. rewrite blank_app, IH. cbn. rewrite andb_true_r. apply andb_comm.
Qed.

Lemma lstrip_nil (s : str) : lstrip s = [] <-> blank s = true.
Proof.
  induction s as [|c s IH]; cbn; [tauto|].
  destruct (isspace c); cbn; [exact IH|]. split; discriminate.
Qed.

Lemma blank_lstrip (s : str) : blank (lstrip s) = blank s.
Proof.
  induction s as [|c s IH]; [reflexivity|].
  cbn [lstrip]. destruct (isspace c) eqn:E; [|reflexivity].
  rewrite IH. cbn. now rewrite E.
Qed.

Lemma rstrip_nil (s : str) : rstrip s = [] <-> blank s = true.
Proof.
  unfold rstrip. rewrite <- (blank_rev s), <- lstrip_nil.
  split; intros H.
  - apply (f_equal (@rev _)) in H. now rewrite rev_involutive in H.
  - now rewrite H.
Qed.

(** The test [if s.strip()] asks for a character that is not white space. *)
Lemma truthy_strip (s : str) : truthy (strip s) = negb (blank s).
Proof.
  unfold strip. destruct (blank s) eqn:E.
  - apply truthy_false, rstrip_nil. now rewrite blank_lstrip.
  - apply truthy_true. rewrite rstrip_nil, blank_lstrip. congruence.
Qed.

Lemma rstrip_snoc_space (s : str) (c : codepoint) :
  isspace c = true -> rstrip (s ++ [c]) = rstrip s.
Proof.
  intros H. unfold rstrip. rewrite rev_app_distr. cbn. now rewrite H.
Qed.

Lemma length_lstrip (s : str) : (List.length (lstrip s) <= List.length s)%nat.
Proof.
  induction s as [|c s IH]; cbn; [lia|].
  destruct (isspace c); cbn; lia.
Qed.

Lemma len_rstrip (s : str) : len (rstrip s) <= len s.
Proof.
  unfold len, rstrip. rewrite length_rev.
  pose proof (length_lstrip (rev s)) as H. rewrite length_rev in H. lia.
Qed.

Lemma len_rstrip_snoc (s : str) (c : codepoint) :
  isspace c = true -> len (rstrip (s ++ [c])) < len (s ++ [c]).
Proof.
  intros H. rewrite rstrip_snoc_space by assumption.
  pose proof (len_rstrip s). rewrite len_app, len_cons, len_nil. lia.
Qed.

Lemma enumerate_from_app {A} (l l' : list A) (i : Z) :
  enumerate_from i (l ++ l') = enumerate_from i l ++ enumerate_from (i + len l) l'.
Proof.
  revert i. induction l as [|x l IH]; intros i; cbn [enumerate_from app].
  - rewrite len_nil. now replace (i + 0) with i by lia.
  - rewrite IH, len_cons. now replace (i + 1 + len l) with (i + (1 + len l)) by lia.
Qed.

End PyFacts.

(** ** The chunker: the loop and the runs of lines it folds *)

Section Grouping.

Import TextRead.

Variable budget : Z.

Lemma acc_text_app (g g' : list str) : acc_text (g ++ g') = acc_text g ++ acc_text g'.
Proof. unfold acc_text. now rewrite map_app, concat_app. Qed.

Lemma acc_text_one (l : str) : acc_text [l] = l ++ [LF].
Proof. unfold acc_text. cbn. now rewrite app_nil_r. Qed.

Lemma truthy_acc_text (g : list str) : truthy (acc_text g) = truthy g.
Proof. destruct g as [|l g]; [reflexivity|]. cbn. now destruct l. Qed.

Lemma blank_acc_text (g : list str) : blank (acc_text g) = forallb blank g.
Proof.
  induction g as [|l g IH]; [reflexivity|].
  change (acc_text (l :: g)) with ((l ++ [LF]) ++ acc_text g).
  rewrite !blank_app, IH. cbn. now rewrite andb_true_r.
Qed.

Lemma len_acc_text_in (g : list str) (l : str) : In l g -> len l + 1 <= len (acc_text g).
Proof.
  induction g as [|l' g IH]; [easy|].
  change (acc_text (l' :: g)) with ((l' ++ [LF]) ++ acc_text g).
  rewrite !len_app, len_cons, len_nil.
  intros [->|H].
  - pose proof (len_nonneg (acc_text g)). lia.
  - specialize (IH H). pose proof (len_nonneg l'). lia.
Qed.

Lemma loop_body_flush (st : loop_state) (i : Z) (l : str) :
  must_flush budget (current_chunk st) (l ++ [LF]) = true ->
  loop_body budget st (i, l) =
  mkLoop (chunks st ++ [mkChunk (next_id st) (cur_start st) (i - 1)
                                (rstrip (current_chunk st)) (len (current_chunk st))])
         (next_id st + 1) (l ++ [LF]) (current_chunk_lines st ++ [i]) i.
Proof. intros H. unfold loop_body. now rewrite H. Qed.

Lemma loop_body_keep (st : loop_state) (i : Z) (l : str) :
  must_flush budget (current_chunk st) (l ++ [LF]) = false ->
  loop_body budget st (i, l) =
  mkLoop (chunks st) (next_id st) (current_chunk st ++ l ++ [LF])
         (current_chunk_lines st ++ [i]) (cur_start st).
Proof. intros H. unfold loop_body. now rewrite H. Qed.

(** The loop, started in any state whose accumulator holds the run [acc],
    emits the chunks of the runs [group_lines] computes. *)
Lemma loop_groups (lines : list str) :
  forall (st : loop_state) (acc : list str) (gs : list (list str)) (a : list str),
    current_chunk st = acc_text acc ->
    group_lines budget acc lines = (gs, a) ->
    let st' := fold_left (loop_body budget)
                         (enumerate_from (cur_start st + len acc) lines) st in
    chunks st' = chunks st ++ chunks_of_groups (next_id st) (cur_start st) gs /\
    next_id st' = next_id st + len gs /\
    current_chunk st' = acc_text a /\
    cur_start st' = cur_start st + len (List.concat gs).
Proof.
  induction lines as [|l rest IH]; intros st acc gs a Hcur Hg; cbn [group_lines] in Hg.
  - injection Hg as <- <-. cbn. rewrite app_nil_r.
    repeat split; try lia; assumption.
  - cbn [enumerate_from fold_left].
    rewrite <- Hcur in Hg.
    destruct (must_flush budget (current_chunk st) (l ++ [LF])) eqn:Hf.
    + rewrite (loop_body_flush _ _ _ Hf).
      destruct (group_lines budget [l] rest) as [gs' a'] eqn:Hg'.
      injection Hg as <- <-.
      match goal with |- context [fold_left _ _ ?s] => set (st1 := s) end.
      specialize (IH st1 [l] gs' a').
      cbn [st1 chunks next_id current_chunk cur_start] in IH.
      rewrite acc_text_one in IH. specialize (IH eq_refl Hg').
      replace (cur_start st + len acc + len [l]) with (cur_start st + len acc + 1) in IH
        by (rewrite len_cons, len_nil; lia).
      destruct IH as (H1 & H2 & H3 & H4).
      rewrite H1, H2, H3, H4, <- app_assoc. cbn [chunks_of_groups app List.concat].
      rewrite len_app, len_cons, Hcur.
      repeat split; try lia.
    + rewrite (loop_body_keep _ _ _ Hf).
      match goal with |- context [fold_left _ _ ?s] => set (st1 := s) end.
      specialize (IH st1 (acc ++ [l]) gs a).
      cbn [st1 chunks next_id current_chunk cur_start] in IH.
      rewrite acc_text_app, acc_text_one, Hcur in IH. specialize (IH eq_refl Hg).
      replace (cur_start st + len (acc ++ [l])) with (cur_start st + len acc + 1) in IH
        by (rewrite len_app, len_cons, len_nil; lia).
      exact IH.
Qed.

(** The runs are the lines, in order. *)
Lemma group_lines_concat (lines : list str) :
  forall acc gs a, group_lines budget acc lines = (gs, a) ->
                   List.concat gs ++ a = acc ++ lines.
Proof.
  induction lines as [|l rest IH]; intros acc gs a Hg; cbn [group_lines] in Hg.
  - injection Hg as <- <-. cbn. now rewrite app_nil_r.
  - destruct (must_flush budget (acc_text acc) (l ++ [LF])).
    + destruct (group_lines budget [l] rest) as [gs' a'] eqn:Hg'.
      injection Hg as <- <-. cbn [List.concat]. rewrite <- app_assoc.
      now rewrite (IH _ _ _ Hg').
    + rewrite (IH _ _ _ Hg), <- app_assoc. reflexivity.
Qed.

(** No completed run is empty, and neither is the last one once a line
    has been read. *)
Lemma group_lines_nonempty (lines : list str) :
  forall acc gs a, group_lines budget acc lines = (gs, a) ->
                   Forall (fun g => g <> []) gs /\ (acc <> [] \/ lines <> [] -> a <> []).
Proof.
  induction lines as [|l rest IH]; intros acc gs a Hg; cbn [group_lines] in Hg.
  - injection Hg as <- <-. split; [constructor|]. intros [H|H]; congruence.
  - destruct (must_flush budget (acc_text acc) (l ++ [LF])) eqn:Hf.
    + destruct (group_lines budget [l] rest) as [gs' a'] eqn:Hg'.
      injection Hg as <- <-. destruct (IH _ _ _ Hg') as [H1 H2]. split.
      * constructor; [|assumption].
        apply andb_prop in Hf. destruct Hf as [_ Hf].
        rewrite truthy_acc_text in Hf. now apply truthy_true.
      * intros _. apply H2. left. discriminate.
    + destruct (IH _ _ _ Hg) as [H1 H2]. split; [assumption|].
      intros _. apply H2. left. now destruct acc.
Qed.

(** Every run fits the budget or is a single line. *)
Lemma group_lines_bounded (lines : list str) :
  forall acc gs a, group_lines budget acc lines = (gs, a) -> bounded budget acc ->
                   Forall (bounded budget) gs /\ bounded budget a.
Proof.
  induction lines as [|l rest IH]; intros acc gs a Hg Hb; cbn [group_lines] in Hg.
  - injection Hg as <- <-. split; [constructor|assumption].
  - destruct (must_flush budget (acc_text acc) (l ++ [LF])) eqn:Hf.
    + destruct (group_lines budget [l] rest) as [gs' a'] eqn:Hg'.
      injection Hg as <- <-.
      destruct (IH _ _ _ Hg') as [H1 H2]; [right; cbn; lia|].
      split; [constructor|]; assumption.
    + apply (IH _ _ _ Hg). unfold must_flush in Hf.
      apply andb_false_iff in Hf. destruct Hf as [Hf|Hf].
      * left. rewrite acc_text_app, acc_text_one, len_app. lia.
      * rewrite truthy_acc_text in Hf. apply truthy_false in Hf. subst acc.
        right. cbn. lia.
Qed.

Lemma chunks_of_groups_app (gs gs' : list (list str)) :
  forall cid lo,
    chunks_of_groups cid lo (gs ++ gs') =
    chunks_of_groups cid lo gs
      ++ chunks_of_groups (cid + len gs) (lo + len (List.concat gs)) gs'.
Proof.
  induction gs as [|g gs IH]; intros cid lo; cbn [chunks_of_groups app List.concat].
  - rewrite !len_nil, !Z.add_0_r. reflexivity.
  - rewrite IH, len_cons, len_app, !Z.add_assoc. reflexivity.
Qed.

(** What the loop has done when the lines are exhausted. *)
Lemma run_loop_groups (lines : list str) (gs : list (list str)) (a : list str) :
  group_lines budget [] lines = (gs, a) ->
  let st := run_loop budget lines in
  chunks st = chunks_of_groups 0 0 gs /\
  next_id st = len gs /\
  current_chunk st = acc_text a /\
  cur_start st = len (List.concat gs).
Proof.
  intros Hg. pose proof (loop_groups lines loop_init [] gs a eq_refl Hg) as H.
  exact H.
Qed.

(** The chunks returned are the chunks of the emitted runs. *)
Lemma chunks_of_lines_groups (lines : list str) :
  chunks_of_lines lines budget = chunks_of_groups 0 0 (emitted_groups lines budget).
Proof.
  unfold chunks_of_lines, emitted_groups.
  destruct (group_lines budget [] lines) as [gs a] eqn:Hg.
  destruct (run_loop_groups lines gs a Hg) as (H1 & H2 & H3 & H4).
  rewrite truthy_strip, H1, H2, H3, H4.
  destruct (blank (acc_text a)); cbn [negb]; [reflexivity|].
  rewrite chunks_of_groups_app. cbn [chunks_of_groups].
  pose proof (group_lines_concat lines [] gs a Hg) as Hc. cbn [app] in Hc.
  rewrite <- Hc, len_app, !Z.add_0_l.
  reflexivity.
Qed.

(** The chunks of non-empty runs follow one another. *)
Lemma tiles_groups (gs : list (list str)) :
  Forall (fun g => g <> []) gs ->
  forall cid lo, tiles lo (chunks_of_groups cid lo gs) (lo + len (List.concat gs)).
Proof.
  induction 1 as [|g gs Hg _ IH]; intros cid lo; cbn [chunks_of_groups tiles List.concat].
  - rewrite len_nil. lia.
  - cbn [line_start line_end]. rewrite len_app.
    assert (0 < len g) by (destruct g; [congruence|rewrite len_cons; pose proof (len_nonneg g); lia]).
    repeat split; try lia.
    replace (lo + len g - 1 + 1) with (lo + len g) by lia.
    replace (lo + (len g + len (List.concat gs))) with (lo + len g + len (List.concat gs)) by lia.
    apply IH.
Qed.

(** The emitted runs are the lines up to a tail of blank lines, which is
    empty unless the last accumulator is dropped. *)
Lemma emitted_groups_spec (lines : list str) :
  let eg := emitted_groups lines budget in
  let st := run_loop budget lines in
  exists tail,
    List.concat eg ++ tail = lines /\
    forallb blank tail = true /\
    bounded budget tail /\
    Forall (fun g => g <> []) eg /\
    Forall (bounded budget) eg /\
    (blank (current_chunk st) = false -> tail = []) /\
    (blank (current_chunk st) = true ->
     chunks st = chunks_of_groups 0 0 eg /\ cur_start st = len (List.concat eg) /\
     (lines <> [] -> tail <> [])).
Proof.
  unfold emitted_groups.
  destruct (group_lines budget [] lines) as [gs a] eqn:Hg.
  destruct (run_loop_groups lines gs a Hg) as (H1 & H2 & H3 & H4).
  pose proof (group_lines_concat lines [] gs a Hg) as Hc. cbn [app] in Hc.
  destruct (group_lines_nonempty lines [] gs a Hg) as [Hn Ha].
  destruct (group_lines_bounded lines [] gs a Hg) as [Hb Hba]; [right; cbn; lia|].
  cbn zeta. rewrite H3.
  destruct (blank (acc_text a)) eqn:Hbl.
  - exists a. rewrite blank_acc_text in Hbl.
    repeat split; try assumption; try congruence.
    intros Hl. apply Ha. now right.
  - exists []. rewrite concat_app. cbn [List.concat]. rewrite !app_nil_r.
    repeat split; try assumption; try congruence.
    + right. cbn. lia.
    + apply Forall_app. split; [assumption|]. constructor; [|constructor].
      apply Ha. right. intros ->. cbn in Hg. inversion Hg; subst. discriminate Hbl.
    + apply Forall_app. split; [assumption|]. constructor; [assumption|constructor].
Qed.

(** The position of an element of a concatenation. *)
Lemma nth_error_concat {A} (gs : list (list A)) :
  forall i x, nth_error (List.concat gs) i = Some x ->
    exists pre g post k,
      gs = pre ++ g :: post /\ i = (List.length (List.concat pre) + k)%nat /\
      nth_error g k = Some x.
Proof.
  induction gs as [|g gs IH]; intros i x H; cbn [List.concat] in H.
  - now destruct i.
  - destruct (Nat.lt_ge_cases i (List.length g)) as [Hlt|Hge].
    + rewrite nth_error_app1 in H by assumption.
      exists [], g, gs, i. now repeat split.
    + rewrite nth_error_app2 in H by assumption.
      destruct (IH _ _ H) as (pre & g' & post & k & -> & Hi & Hk).
      exists (g :: pre), g', post, k. repeat split; [|assumption].
      cbn [List.concat]. rewrite length_app. lia.
Qed.

(** A chunk is the chunk of one of the runs. *)
Lemma In_chunks_of_groups (gs : list (list str)) :
  forall cid lo c, In c (chunks_of_groups cid lo gs) ->
    exists pre g post,
      gs = pre ++ g :: post /\
      c = mkChunk (cid + len pre) (lo + len (List.concat pre))
                  (lo + len (List.concat pre) + len g - 1)
                  (rstrip (acc_text g)) (len (acc_text g)).
Proof.
  induction gs as [|g gs IH]; intros cid lo c H; cbn [chunks_of_groups] in H; [easy|].
  destruct H as [<-|H].
  - exists [], g, gs. split; [reflexivity|]. cbn [List.concat]. rewrite !len_nil, !Z.add_0_r.
    reflexivity.
  - destruct (IH _ _ _ H) as (pre & g' & post & -> & ->).
    exists (g :: pre), g', post. split; [reflexivity|].
    cbn [List.concat]. rewrite len_cons, len_app, !Z.add_assoc. reflexivity.
Qed.

Lemma chunk_of_group_In (pre post : list (list str)) (g : list str) (cid lo : Z) :
  In (mkChunk (cid + len pre) (lo + len (List.concat pre))
              (lo + len (List.concat pre) + len g - 1)
              (rstrip (acc_text g)) (len (acc_text g)))
     (chunks_of_groups cid lo (pre ++ g :: post)).
Proof.
  rewrite chunks_of_groups_app. apply in_or_app. right. left. reflexivity.
Qed.

Lemma slice_middle (pre g post : list str) :
  g <> [] ->
  slice (pre ++ g ++ post) (len pre) (len pre + len g - 1) = g.
Proof.
  intros _. unfold slice, len.
  replace (Z.to_nat (Z.of_nat (List.length pre) + Z.of_nat (List.length g) - 1
                     - Z.of_nat (List.length pre) + 1)) with (List.length g) by lia.
  rewrite Nat2Z.id, skipn_app, skipn_all, Nat.sub_diag. cbn [skipn app].
  rewrite firstn_app, firstn_all, Nat.sub_diag. cbn [firstn]. apply app_nil_r.
Qed.

End Grouping.

(** ** Consecutive ranges partition an interval *)

Section Tiling.

Import TextRead.

Lemma tiles_bounds (cs : list TextChunkData) :
  forall lo hi, tiles lo cs hi ->
    lo <= hi /\
    forall c, In c cs -> lo <= line_start c /\ line_start c <= line_end c /\ line_end c < hi.
Proof.
  induction cs as [|c cs IH]; intros lo hi H; cbn [tiles] in H.
  - split; [lia|]. intros c [].
  - destruct H as (H1 & H2 & H3). destruct (IH _ _ H3) as [H4 H5].
    split; [lia|]. intros c' [<-|Hin]; [lia|].
    specialize (H5 _ Hin). lia.
Qed.

Lemma tiles_last (cs : list TextChunkData) :
  forall lo hi c, tiles lo cs hi ->
    nth_error cs (Nat.pred (List.length cs)) = Some c -> line_end c = hi - 1.
Proof.
  induction cs as [|c0 cs IH]; intros lo hi c H Hn; [discriminate|].
  cbn [tiles] in H. destruct H as (H1 & H2 & H3).
  destruct cs as [|c1 cs].
  - cbn in Hn. injection Hn as <-. cbn [tiles] in H3. lia.
  - apply (IH _ _ _ H3). exact Hn.
Qed.

Lemma tiles_consecutive (cs : list TextChunkData) :
  forall lo hi j c c', tiles lo cs hi ->
    nth_error cs j = Some c -> nth_error cs (S j) = Some c' ->
    line_start c' = line_end c + 1.
Proof.
  induction cs as [|c0 cs IH]; intros lo hi j c c' H Hj Hj'; [now destruct j|].
  cbn [tiles] in H. destruct H as (H1 & H2 & H3). destruct j as [|j].
  - cbn in Hj, Hj'. injection Hj as <-. destruct cs as [|c1 cs]; [discriminate|].
    cbn in Hj'. injection Hj' as <-. cbn [tiles] in H3. lia.
  - apply (IH _ _ j c c' H3); assumption.
Qed.

Lemma tiles_in_exactly_one (cs : list TextChunkData) :
  forall lo hi i, tiles lo cs hi -> lo <= i < hi ->
    exists j c, nth_error cs j = Some c /\ covers c i /\
                forall j' c', nth_error cs j' = Some c' -> covers c' i -> j' = j.
Proof.
  induction cs as [|c0 cs IH]; intros lo hi i H Hi; cbn [tiles] in H; [lia|].
  destruct H as (H1 & H2 & H3).
  destruct (Z_le_gt_dec i (line_end c0)) as [Hle|Hgt].
  - exists O, c0. split; [reflexivity|]. split; [unfold covers; lia|].
    intros [|j'] c' Hj' Hc'; [reflexivity|]. cbn in Hj'.
    apply nth_error_In in Hj'. destruct (tiles_bounds _ _ _ H3) as [_ Hb].
    specialize (Hb _ Hj'). unfold covers in Hc'. lia.
  - destruct (tiles_bounds _ _ _ H3) as [Hb _].
    destruct (IH _ _ i H3) as (j & c & Hj & Hc & Hu); [lia|].
    exists (S j), c. split; [exact Hj|]. split; [exact Hc|].
    intros [|j'] c' Hj' Hc'.
    + cbn in Hj'. injection Hj' as <-. unfold covers in Hc'. lia.
    + f_equal. apply (Hu j' c'); assumption.
Qed.

Lemma tiles_partition (cs : list TextChunkData) (n : Z) :
  tiles 0 cs n -> exact_partition cs n.
Proof.
  intros H. constructor.
  - intros c Hc. destruct cs as [|c0 cs]; [discriminate|].
    injection Hc as <-. cbn [tiles] in H. lia.
  - intros c. now apply tiles_last with (lo := 0).
  - intros j c c'. now apply tiles_consecutive with (lo := 0) (hi := n).
  - intros i. now apply tiles_in_exactly_one.
Qed.

End Tiling.


(** ** The chunks of a text file *)

Section ChunkFacts.

Import TextRead.

(** Every chunk returned is the chunk of a non-empty run of consecutive
    lines that fits the budget or is a single line. *)
Lemma chunk_decomposition (lines : list str) (budget : Z) (c : TextChunkData) :
  In c (chunks_of_lines lines budget) ->
  exists (before g after : list str) (k : Z),
    lines = before ++ g ++ after /\ g <> [] /\ bounded budget g /\
    c = mkChunk k (len before) (len before + len g - 1)
                (rstrip (acc_text g)) (len (acc_text g)).
Proof.
  intros Hin. rewrite chunks_of_lines_groups in Hin.
  destruct (emitted_groups_spec budget lines) as (tail & Hc & _ & _ & Hn & Hb & _).
  destruct (In_chunks_of_groups _ _ _ _ Hin) as (pre & g & post & Heg & ->).
  rewrite Heg in Hc, Hn, Hb.
  apply Forall_app in Hn. destruct Hn as [_ Hn]. apply Forall_inv in Hn.
  apply Forall_app in Hb. destruct Hb as [_ Hb]. apply Forall_inv in Hb.
  exists (List.concat pre), g, (List.concat post ++ tail), (0 + len pre).
  rewrite concat_app in Hc. cbn [List.concat] in Hc.
  rewrite <- !app_assoc in Hc. rewrite !Z.add_0_l.
  repeat split; try assumption. now symmetry.
Qed.

Lemma acc_text_ends_with_newline (g : list str) :
  g <> [] -> exists s, acc_text g = s ++ [LF].
Proof.
  intros Hg. destruct (exists_last Hg) as (g' & l & ->).
  exists (acc_text g' ++ l). now rewrite acc_text_app, acc_text_one, app_assoc.
Qed.

(** C1 (amended).  The chunks of a non-empty list of lines partition the
    line indices [0 .. m-1] exactly, for some [m] up to the number of lines:
    the first chunk starts at line 0, the last one ends at line [m-1], each
    chunk starts one line after the previous one ends, and each of these
    indices lies in the range of exactly one chunk.  The lines from [m] on
    consist of white space only.  When the accumulator left by the last line
    holds a character that is not white space it is flushed as the final
    chunk and [m] is the number of lines; otherwise it is dropped, and [m]
    is the line its run starts at. *)
Theorem chunks_partition_covered_lines (lines : list str) (chunk_size : Z) :
  lines <> [] ->
  let st := run_loop chunk_size lines in
  exists m,
    0 <= m <= len lines /\
    exact_partition (chunks_of_lines lines chunk_size) m /\
    (forall i l, nth_error lines i = Some l -> m <= Z.of_nat i -> blank l = true) /\
    (blank (current_chunk st) = false -> m = len lines) /\
    (blank (current_chunk st) = true -> m = cur_start st /\ m < len lines).
Proof.
  intros Hne st.
  destruct (emitted_groups_spec chunk_size lines) as (tail & Hc & Hbl & _ & Hn & _ & Hf & Ht).
  fold st in Hf, Ht.
  exists (len (List.concat (emitted_groups lines chunk_size))).
  assert (Hlen : len lines = len (List.concat (emitted_groups lines chunk_size)) + len tail)
    by (rewrite <- Hc at 1; apply len_app).
  pose proof (len_nonneg tail) as Htl.
  pose proof (len_nonneg (List.concat (emitted_groups lines chunk_size))) as Hel.
  split; [lia|]. split; [|split; [|split]].
  - apply tiles_partition. rewrite chunks_of_lines_groups.
    apply (tiles_groups _ Hn 0 0).
  - intros i l Hi Hm. rewrite <- Hc in Hi. unfold len in Hm.
    rewrite nth_error_app2 in Hi by lia.
    apply nth_error_In in Hi. rewrite forallb_forall in Hbl. now apply Hbl.
  - intros H. rewrite (Hf H), len_nil in Hlen. lia.
  - intros H. destruct (Ht H) as (_ & H4 & H5). split; [now rewrite H4|].
    specialize (H5 Hne). destruct tail as [|l tail]; [congruence|].
    rewrite len_cons in Hlen. pose proof (len_nonneg tail). lia.
Qed.

(** C1, as stated, fails on a file that holds a single newline: its
    content splits into one (empty) line, and no chunk is returned, so line 0
    lies in no chunk. *)
Lemma newline_only_file_has_no_chunk :
  splitlines [LF] = [[]] /\
  chunks_of_content [LF] 1000 = [] /\
  ~ exact_partition (chunks_of_content [LF] 1000) (len (splitlines [LF])).
Proof.
  split; [reflexivity|]. split; [reflexivity|].
  intros [_ _ _ H]. destruct (H 0) as (j & c & Hj & _); [cbn; lia|].
  change (chunks_of_content [LF] 1000) with (@nil TextChunkData) in Hj.
  now destruct j.
Qed.

(** The partition, on three lines of which the second is empty. *)
Lemma chunks_partition_covered_lines_witness :
  [lit "ab"; lit ""; lit "c"] <> [] /\
  exists m,
    0 <= m <= len [lit "ab"; lit ""; lit "c"] /\
    exact_partition (chunks_of_lines [lit "ab"; lit ""; lit "c"] 4) m.
Proof.
  split; [discriminate|].
  destruct (chunks_partition_covered_lines [lit "ab"; lit ""; lit "c"] 4)
    as (m & Hm & Hp & _); [discriminate|].
  exists m. split; assumption.
Defined.

(** A run that holds a line longer than the budget holds nothing else. *)
Lemma oversized_alone (budget : Z) (g : list str) (l : str) :
  bounded budget g -> In l g -> budget < len l -> g = [l].
Proof.
  intros [Hb|Hb] Hin Hl.
  - pose proof (len_acc_text_in g l Hin). lia.
  - destruct g as [|l0 [|l1 g]]; cbn in Hb; [easy| |lia].
    destruct Hin as [->|[]]. reflexivity.
Qed.




(** C10.  The text of every chunk is its accumulator (each line of its
    range followed by a newline) with the trailing white space stripped,
    and its [char_count] the length of the accumulator before stripping; so
    [char_count] is at least the length of the text, and greater whenever
    the accumulator ends in white space, which it always does, ending with
    the newline of its last line.  When the accumulator left by the last
    line holds white space only, no chunk is appended for it: the chunks are
    those flushed by the loop, none of them covers a line from the start of
    that last run on, and there is such a line once the file has one. *)
Theorem chunk_text_stripped_count_unstripped (lines : list str) (chunk_size : Z) :
  let st := run_loop chunk_size lines in
  (forall c,
      In c (chunks_of_lines lines chunk_size) ->
      let raw := acc_text (slice lines (line_start c) (line_end c)) in
      text c = rstrip raw /\ char_count c = len raw /\
      len (text c) <= char_count c /\
      (forall s w, raw = s ++ [w] -> isspace w = true -> len (text c) < char_count c) /\
      (exists s, raw = s ++ [LF])) /\
  (blank (current_chunk st) = true ->
   chunks_of_lines lines chunk_size = chunks st /\
   (forall c i, In c (chunks_of_lines lines chunk_size) -> cur_start st <= i -> ~ covers c i) /\
   (lines <> [] -> 0 <= cur_start st < len lines)).
Proof.
  intros st. split.
  - intros c Hin.
    destruct (chunk_decomposition lines chunk_size c Hin)
      as (before & g & after & k & -> & Hg & _ & ->).
    cbn [char_count line_start line_end text]. rewrite (slice_middle before g after Hg).
    cbn zeta. split; [reflexivity|]. split; [reflexivity|].
    split; [apply len_rstrip|]. split.
    + intros s w -> Hw. now apply len_rstrip_snoc.
    + now apply acc_text_ends_with_newline.
  - intros Hbl.
    destruct (emitted_groups_spec chunk_size lines) as (tail & Hc & _ & _ & Hn & _ & _ & Ht).
    destruct (Ht Hbl) as (H1 & H2 & H3).
    assert (Heq : chunks_of_lines lines chunk_size = chunks st).
    { unfold chunks_of_lines. fold st. now rewrite truthy_strip, Hbl. }
    split; [exact Heq|]. split.
    + intros c i Hin Hi Hcov. rewrite Heq in Hin. fold st in H1. rewrite H1 in Hin.
      destruct (tiles_bounds _ _ _ (tiles_groups _ Hn 0 0)) as [_ Hb].
      specialize (Hb c Hin). fold st in H2. unfold covers in Hcov. lia.
    + intros Hne. specialize (H3 Hne). fold st in H2. rewrite H2.
      assert (Hlen : len lines = len (List.concat (emitted_groups lines chunk_size)) + len tail)
        by (rewrite <- Hc at 1; apply len_app).
      rewrite Hlen.
      pose proof (len_nonneg (List.concat (emitted_groups lines chunk_size))).
      destruct tail as [|l tail]; [congruence|].
      rewrite len_cons. pose proof (len_nonneg tail). lia.
Qed.

End ChunkFacts.

(** ** The loop against the chunker of the design document *)

Section Refinement.

Import TextRead.

Variable budget : Z.

Lemma enumerate_snoc {A} (l : list A) (x : A) :
  enumerate (l ++ [x]) = enumerate l ++ [(len l, x)].
Proof. unfold enumerate. now rewrite enumerate_from_app. Qed.

Lemma simulates_step (lines : list str) (l : str) (st : loop_state) (sp : Chunker.state) :
  simulates lines st sp ->
  simulates (lines ++ [l]) (loop_body budget st (len lines, l))
            (Chunker.step budget sp (Chunker.mkUnit (len lines) l)).
Proof.
  intros (H1 & H2 & H3 & H4 & H5).
  assert (Hlen : len (lines ++ [l]) - 1 = len lines)
    by (rewrite len_app; unfold len; cbn [List.length]; lia).
  unfold Chunker.step. cbn [Chunker.unit_text Chunker.index]. unfold Chunker.separator.
  rewrite <- H2. fold (must_flush budget (current_chunk st) (l ++ [LF])).
  destruct (must_flush budget (current_chunk st) (l ++ [LF])) eqn:Hf.
  - rewrite (loop_body_flush budget _ _ _ Hf).
    assert (Hne : lines <> []).
    { intros ->. apply andb_prop in Hf. destruct Hf as [_ Hf].
      destruct (H4 eq_refl) as (_ & _ & H0). rewrite H0 in Hf. discriminate. }
    specialize (H5 Hne). unfold Chunker.flush. rewrite H5.
    unfold simulates.
    cbn [chunks next_id current_chunk cur_start Chunker.emitted
         Chunker.accumulator Chunker.bounds].
    split; [|split; [|split; [|split]]].
    + apply Forall2_app; [assumption|]. constructor; [|constructor].
      unfold Chunker.matches. cbn. rewrite H2. now repeat split.
    + reflexivity.
    + rewrite len_app, H3. unfold len; cbn [List.length]; lia.
    + intros Habs. now destruct lines.
    + intros _. now rewrite Hlen.
  - rewrite (loop_body_keep budget _ _ _ Hf).
    unfold simulates.
    cbn [chunks next_id current_chunk cur_start Chunker.emitted
         Chunker.accumulator Chunker.bounds].
    split; [|split; [|split; [|split]]]; try assumption.
    + reflexivity.
    + intros Habs. now destruct lines.
    + intros _. rewrite Hlen. destruct lines as [|l0 lines'].
      * destruct (H4 eq_refl) as (-> & -> & _). reflexivity.
      * rewrite H5 by discriminate. reflexivity.
Qed.

(** The loop and the fold of the design document stay related. *)
Lemma run_loop_simulates (lines : list str) :
  simulates lines (run_loop budget lines) (Chunker.run budget lines).
Proof.
  induction lines as [|l lines IH] using rev_ind.
  - unfold simulates. cbn.
    split; [constructor|]. split; [reflexivity|]. split; [reflexivity|].
    split; [now intros _|]. congruence.
  - unfold run_loop, Chunker.run, Chunker.units_of.
    rewrite enumerate_snoc, map_app, !fold_left_app. cbn [map fold_left fst snd].
    now apply simulates_step.
Qed.

End Refinement.

Section ChunkerClaim.

Import TextRead.

Lemma must_flush_empty (budget : Z) (line_text : str) :
  must_flush budget [] line_text = false.
Proof. unfold must_flush. apply andb_false_r. Qed.

(** The scenario of the design document: three lines of 400 characters and
    a budget of 1000. *)
Lemma three_lines_of_400 (l0 l1 l2 : str) :
  len l0 = 400 -> len l1 = 400 -> len l2 = 400 -> blank l2 = false ->
  chunks_of_lines [l0; l1; l2] 1000 =
  [mkChunk 0 0 1 (rstrip (l0 ++ [LF] ++ l1 ++ [LF])) 802;
   mkChunk 1 2 2 (rstrip (l2 ++ [LF])) 401].
Proof.
  intros H0 H1 H2 Hb.
  assert (L0 : len (l0 ++ [LF]) = 401) by (rewrite len_app, H0; reflexivity).
  assert (L1 : len (l1 ++ [LF]) = 401) by (rewrite len_app, H1; reflexivity).
  assert (L2 : len (l2 ++ [LF]) = 401) by (rewrite len_app, H2; reflexivity).
  assert (A01 : acc_text [l0; l1] = l0 ++ [LF] ++ l1 ++ [LF]).
  { unfold acc_text. cbn [map List.concat]. now rewrite app_nil_r, <- app_assoc. }
  assert (L01 : len (l0 ++ [LF] ++ l1 ++ [LF]) = 802)
    by (rewrite !len_app, H0, H1; reflexivity).
  assert (F1 : must_flush 1000 (acc_text [l0]) (l1 ++ [LF]) = false).
  { unfold must_flush. rewrite acc_text_one, L0, L1. reflexivity. }
  assert (F2 : must_flush 1000 (acc_text [l0; l1]) (l2 ++ [LF]) = true).
  { unfold must_flush. rewrite truthy_acc_text, A01, L01, L2. reflexivity. }
  rewrite chunks_of_lines_groups. unfold emitted_groups. cbn [group_lines].
  change (acc_text []) with (@nil codepoint).
  rewrite must_flush_empty. cbn [app]. rewrite F1. cbn [app]. rewrite F2.
  rewrite blank_acc_text. cbn [forallb]. rewrite Hb. cbn [andb app chunks_of_groups].
  rewrite A01, L01, acc_text_one, L2. reflexivity.
Qed.

(** C2 (amended).  The loop is the fold of the design document.  Each
    iteration tests whether the accumulator, with the line and its newline
    appended, would be longer than [chunk_size] while the accumulator is not
    empty; if so it flushes the accumulator as a chunk that starts where the
    accumulator started and ends at the previous line, and starts a new
    accumulator with the current line; otherwise it appends the line.  After
    any list of lines the chunks flushed, the accumulator and its bounds
    are those of the design document's fold.  For three lines of 400
    characters and a budget of 1000, the third holding a character that is
    not white space, exactly two chunks are returned: number 0 for lines 0
    to 1 and number 1 for line 2 alone. *)
Theorem loop_implements_chunker_fold :
  (forall chunk_size st line_idx line,
      loop_body chunk_size st (line_idx, line) =
      if must_flush chunk_size (current_chunk st) (line ++ [LF])
      then mkLoop (chunks st ++ [mkChunk (next_id st) (cur_start st) (line_idx - 1)
                                         (rstrip (current_chunk st))
                                         (len (current_chunk st))])
                  (next_id st + 1) (line ++ [LF])
                  (current_chunk_lines st ++ [line_idx]) line_idx
      else mkLoop (chunks st) (next_id st) (current_chunk st ++ line ++ [LF])
                  (current_chunk_lines st ++ [line_idx]) (cur_start st)) /\
  (forall chunk_size lines,
      simulates lines (run_loop chunk_size lines) (Chunker.run chunk_size lines)) /\
  (forall l0 l1 l2,
      len l0 = 400 -> len l1 = 400 -> len l2 = 400 -> blank l2 = false ->
      chunks_of_lines [l0; l1; l2] 1000 =
      [mkChunk 0 0 1 (rstrip (l0 ++ [LF] ++ l1 ++ [LF])) 802;
       mkChunk 1 2 2 (rstrip (l2 ++ [LF])) 401]).
Proof.
  split; [|split].
  - intros chunk_size st line_idx line.
    destruct (must_flush chunk_size (current_chunk st) (line ++ [LF])) eqn:Hf.
    + now apply loop_body_flush.
    + now apply loop_body_keep.
  - intros chunk_size lines. apply run_loop_simulates.
  - exact three_lines_of_400.
Qed.

(** The scenario on three lines of 400 letters. *)
Lemma loop_implements_chunker_fold_witness :
  len (repeat 97%N 400) = 400 /\
  blank (repeat 97%N 400) = false /\
  List.length (chunks_of_lines [repeat 97%N 400; repeat 97%N 400; repeat 97%N 400] 1000)
  = 2%nat.
Proof.
  split; [reflexivity|]. split; [reflexivity|].
  pose proof (proj2 (proj2 loop_implements_chunker_fold)
                     (repeat 97%N 400) (repeat 97%N 400) (repeat 97%N 400)
                     eq_refl eq_refl eq_refl eq_refl) as E.
  exact (f_equal (@List.length _) E).
Defined.

(** C2, as stated, fails when the third line holds white space only: of
    two lines of 400 letters and one of 400 spaces, only the chunk of lines
    0 to 1 is returned. *)
Lemma blank_third_line_gives_one_chunk :
  len (repeat SP 400) = 400 /\
  len (repeat 97%N 400) = 400 /\
  chunks_of_lines [repeat 97%N 400; repeat 97%N 400; repeat SP 400] 1000 =
  [mkChunk 0 0 1 (repeat 97%N 400 ++ [LF] ++ repeat 97%N 400) 802].
Proof.
  split; [|split]; vm_compute; reflexivity.
Qed.

End ChunkerClaim.

(** ** Reading a text file: the encoding *)

Section Encoding.

Import TextFile.

Lemma try_each_find (P : platform) (raw : bytes) (candidates : list string) :
  try_each P candidates raw = find (fun enc => decodes P enc raw) candidates.
Proof.
  induction candidates as [|enc rest IH]; [reflexivity|].
  cbn [try_each find]. unfold decodes at 1.
  now destruct (decode P enc raw).
Qed.

Lemma detect_encoding_trial (P : platform) (raw : bytes) :
  uses_trial_list P raw = true -> detect_encoding P raw = _try_encodings P raw.
Proof.
  unfold uses_trial_list, detect_encoding.
  destruct (chardet P) as [detect|]; [|reflexivity].
  destruct (detect _) as [result|]; [|reflexivity].
  destruct (low_confidence result); [reflexivity|].
  now destruct (cd_encoding result).
Qed.

(** C6 (amended).  When [detect_encoding] goes through the trial list
    (chardet is not installed, fails, is less than 0.7 confident or names
    no encoding) and no encoding is given by the caller: if no candidate of
    the list decodes the whole file, reading fails, with the [ValueError]
    of a file that is not text (or the [LookupError] of the codec
    registry), and so does the extraction of chunks; otherwise the file is
    read with the first candidate of the list that decodes it. *)
Theorem encoding_is_first_candidate_on_trial_route
    (P : platform) (path : string) (raw : bytes) (ctime mtime : Z) :
  fs P path = Some (RegularFile raw ctime mtime) ->
  uses_trial_list P raw = true ->
  (first_decoding P raw = None ->
   exists e, read_text_file P path None = inl e /\
             (e = ValueError_not_text \/ e = LookupError_raised) /\
             forall chunk_size, extract_text_to_chunks P path chunk_size None = inl e) /\
  (forall enc, first_decoding P raw = Some enc ->
   exists text, decode P enc raw = Decoded text /\
                read_text_file P path None = inr (build P path enc text) /\
                encoding (build P path enc text) = enc).
Proof.
  intros Hfs Htrial. unfold extract_text_to_chunks, read_text_file. rewrite Hfs.
  rewrite (detect_encoding_trial P raw Htrial). unfold _try_encodings.
  rewrite try_each_find. fold (first_decoding P raw). split.
  - intros Hnone. rewrite Hnone.
    assert (Hutf : decodes P "utf-8" raw = false).
    { unfold first_decoding in Hnone.
      apply (find_none _ _ Hnone). cbn. now left. }
    unfold decodes in Hutf.
    destruct (decode P "utf-8" raw); [discriminate| |].
    + exists ValueError_not_text. split; [reflexivity|]. split; [now left|reflexivity].
    + exists LookupError_raised. split; [reflexivity|]. split; [now right|reflexivity].
  - intros enc Hsome. rewrite Hsome.
    unfold first_decoding in Hsome. apply find_some in Hsome.
    destruct Hsome as [_ Hd]. unfold decodes in Hd.
    destruct (decode P enc raw) as [text| |]; try discriminate.
    exists text. repeat split.
Qed.

Lemma encoding_is_first_candidate_on_trial_route_witness :
  fs Sample.plain "hello.txt" = Some (RegularFile Sample.hello 0 0) /\
  uses_trial_list Sample.plain Sample.hello = true /\
  first_decoding Sample.plain Sample.hello = Some "utf-8"%string /\
  exists text, read_text_file Sample.plain "hello.txt" None
               = inr (build Sample.plain "hello.txt" "utf-8" text).
Proof.
  split; [reflexivity|]. split; [reflexivity|]. split; [reflexivity|].
  destruct (encoding_is_first_candidate_on_trial_route
              Sample.plain "hello.txt" Sample.hello 0 0 eq_refl eq_refl) as [_ H].
  destruct (H "utf-8"%string eq_refl) as (text & _ & Hr & _).
  exists text. exact Hr.
Defined.

(** C6, as stated, fails where chardet is installed and confident: the
    ASCII file [hello.txt] is read as ["ascii"], which chardet names, and not
    as ["utf-8"], the first candidate of the list that decodes it. *)
Lemma chardet_overrides_trial_list :
  first_decoding Sample.with_chardet Sample.hello = Some "utf-8"%string /\
  exists data, read_text_file Sample.with_chardet "hello.txt" None = inr data /\
               encoding data = "ascii"%string /\
               content data = lit "hello".
Proof.
  split; [reflexivity|]. eexists. split; [reflexivity|]. split; reflexivity.
Qed.

End Encoding.

(** ** Spreadsheets *)

Section Sheets.

Import ExcelRead.

Lemma fillna_text (c : cell) :
  (if notna (fillna c) then py_str (fillna c) else []) = cell_text c.
Proof. now destruct c. Qed.

Lemma cells_fold (row : list cell) (cols : list label) :
  forall j ts ds,
    fold_left (cell_step row) (positions j cols) (ts, ds) =
    let kept := filter (fun cv => negb (blank (snd cv)))
                  (map (fun jc => (snd jc, cell_text (at_column row (fst jc))))
                       (positions j cols)) in
    (ts ++ map snd kept, ds ++ kept).
Proof.
  induction cols as [|col cols IH]; intros j ts ds; cbn [positions fold_left map filter].
  - cbn. now rewrite !app_nil_r.
  - unfold cell_step at 2. cbn [fst snd]. rewrite fillna_text, truthy_strip.
    destruct (negb (blank (cell_text (at_column row j)))); rewrite IH; cbn zeta.
    + cbn [map]. now rewrite <- !app_assoc.
    + reflexivity.
Qed.

Lemma row_step_spec (cols : list label) (acc : list str * list row_dict)
    (ir : Z * list cell) :
  row_step cols acc ir =
  if nonempty_row cols ir
  then (fst acc ++ map snd (nonblank_cells cols (snd ir)), snd acc ++ [dict_of cols ir])
  else acc.
Proof.
  unfold row_step, nonempty_row, dict_of, nonblank_cells, labelled_cells.
  destruct ir as [index row]. cbn [fst snd].
  rewrite cells_fold. cbn zeta. cbn [app].
  match goal with |- context [filter ?f ?l] => destruct (filter f l) as [|cv kept] end;
    reflexivity.
Qed.

Lemma rows_fold (cols : list label) (rows : list (list cell)) :
  forall start all_texts rows_data,
    fold_left (row_step cols) (enumerate_from start rows) (all_texts, rows_data) =
    (all_texts ++ flat_map (fun ir => map snd (nonblank_cells cols (snd ir)))
                           (enumerate_from start rows),
     rows_data ++ map (dict_of cols)
                      (filter (nonempty_row cols) (enumerate_from start rows))).
Proof.
  induction rows as [|row rows IH]; intros start all_texts rows_data;
    cbn [enumerate_from fold_left flat_map filter map].
  - now rewrite !app_nil_r.
  - rewrite row_step_spec. cbn [fst snd].
    destruct (nonempty_row cols (start, row)) eqn:Hne; rewrite IH.
    + cbn [map]. now rewrite <- !app_assoc.
    + unfold nonempty_row in Hne. cbn [snd] in Hne. apply truthy_false in Hne.
      now rewrite Hne.
Qed.

(** *** Labels that are strings, and labels that are not *)

Lemma validated_named (names : list string) : validated as_str (map Name names) = Some names.
Proof. induction names as [|n names IH]; cbn [map validated as_str]; now rewrite ?IH. Qed.

Lemma validated_cases (ls : list label) :
  match validated as_str ls with
  | Some names => ls = map Name names
  | None => exists l, In l ls /\ as_str l = None
  end.
Proof.
  induction ls as [|[n|r] ls IH]; cbn [validated as_str]; [reflexivity| |].
  - destruct (validated as_str ls) as [names|].
    + cbn [map]. now rewrite IH.
    + destruct IH as (l & Hl & E). exists l. split; [now right|assumption].
  - exists (NotStr r). split; [now left|reflexivity].
Qed.

Lemma positions_map {A B} (f : A -> B) (l : list A) :
  forall j, positions j (map f l) = map (fun jc => (fst jc, f (snd jc))) (positions j l).
Proof. induction l as [|x l IH]; intros j; cbn [map positions fst snd]; now rewrite ?IH. Qed.

Lemma filter_map_comm {A B} (f : B -> bool) (g : A -> B) (l : list A) :
  filter f (map g l) = map g (filter (fun x => f (g x)) l).
Proof.
  induction l as [|x l IH]; cbn [map filter]; [reflexivity|].
  destruct (f (g x)); cbn [map]; now rewrite IH.
Qed.

Lemma nonblank_cells_map {A B} (f : A -> B) (cols : list A) (row : list cell) :
  nonblank_cells (map f cols) row
  = map (fun kv => (f (fst kv), snd kv)) (nonblank_cells cols row).
Proof.
  unfold nonblank_cells, labelled_cells. rewrite positions_map, map_map. cbn [fst snd].
  rewrite <- (map_map (fun jc : nat * A => (snd jc, cell_text (at_column row (fst jc))))
                      (fun kv : A * str => (f (fst kv), snd kv))).
  now rewrite filter_map_comm.
Qed.

Lemma nonempty_row_map {A B} (f : A -> B) (cols : list A) (ir : Z * list cell) :
  nonempty_row (map f cols) ir = nonempty_row cols ir.
Proof.
  unfold nonempty_row. rewrite nonblank_cells_map.
  now destruct (nonblank_cells cols (snd ir)).
Qed.

Lemma validated_keys (d : list (string * str)) :
  validated (fun kv : label * str => match as_str (fst kv) with
                                     | Some k => Some (k, snd kv)
                                     | None => None
                                     end)
            (map (fun kv => (Name (fst kv), snd kv)) d) = Some d.
Proof.
  induction d as [|[k v] d IH]; cbn [map validated as_str fst snd]; now rewrite ?IH.
Qed.

Lemma ExcelRowData_of_named (names : list string) (ir : Z * list cell) :
  ExcelRowData_of (dict_of (map Name names) ir) = Some (row_record names ir).
Proof.
  unfold ExcelRowData_of, dict_of, row_record. rewrite nonblank_cells_map, validated_keys.
  now rewrite map_map.
Qed.

Lemma validated_map {A B} (f : A -> option B) (g : A -> B) (l : list A) :
  (forall x, In x l -> f x = Some (g x)) -> validated f l = Some (map g l).
Proof.
  induction l as [|x l IH]; intros H; cbn [validated map]; [reflexivity|].
  rewrite (H x (or_introl eq_refl)), IH; [reflexivity|].
  intros y Hy. apply H. now right.
Qed.

Lemma validated_dicts (names : list string) (l : list (Z * list cell)) :
  validated ExcelRowData_of (map (dict_of (map Name names)) l)
  = Some (map (row_record names) l).
Proof.
  induction l as [|ir l IH]; cbn [map validated]; [reflexivity|].
  now rewrite ExcelRowData_of_named, IH.
Qed.

(** The record of a frame whose labels are strings. *)
Lemma extract_named (names : list string) (values : list (list cell)) :
  _extract_dataframe_text (mkFrame (map Name names) values) =
  inr (mkSheet (len (filter (nonempty_row names) (enumerate values))) (len names) names
               (map (row_record names) (filter (nonempty_row names) (enumerate values)))
               (join [SP] (flat_map (fun ir => map snd (nonblank_cells names (snd ir)))
                                    (enumerate values)))
               (if truthy (join [SP] (flat_map
                                        (fun ir => map snd (nonblank_cells names (snd ir)))
                                        (enumerate values)))
                then count_words false
                       (join [SP] (flat_map
                                     (fun ir => map snd (nonblank_cells names (snd ir)))
                                     (enumerate values)))
                else 0)).
Proof.
  unfold _extract_dataframe_text, enumerate. cbn [columns ExcelRead.values].
  rewrite rows_fold. cbn [app].
  rewrite (filter_ext _ _ (nonempty_row_map Name names)).
  rewrite validated_dicts, validated_named, !len_map.
  assert (E : forall l : list (Z * list cell),
             flat_map (fun ir => map snd (nonblank_cells (map Name names) (snd ir))) l
             = flat_map (fun ir => map snd (nonblank_cells names (snd ir))) l).
  { intros l. apply flat_map_ext. intros ir.
    now rewrite nonblank_cells_map, map_map. }
  now rewrite E.
Qed.

(** A label that is not a string is refused, by the record of a row or
    by that of the sheet. *)
Lemma extract_refused (df : DataFrame) :
  validated as_str (columns df) = None ->
  _extract_dataframe_text df = inl ValidationError.
Proof.
  intros H. unfold _extract_dataframe_text.
  destruct (fold_left _ _ _) as [all_texts rows_data].
  destruct (validated ExcelRowData_of rows_data); [|reflexivity].
  now rewrite H.
Qed.

(** What [_extract_dataframe_text] does, by the labels of the frame. *)
Lemma extract_cases (df : DataFrame) :
  (exists names, columns df = map Name names /\
                 _extract_dataframe_text df
                 = _extract_dataframe_text (mkFrame (map Name names) (ExcelRead.values df)))
  \/ ((exists l, In l (columns df) /\ as_str l = None) /\
      _extract_dataframe_text df = inl ValidationError).
Proof.
  pose proof (validated_cases (columns df)) as H.
  destruct (validated as_str (columns df)) as [names|] eqn:E.
  - left. exists names. split; [assumption|]. destruct df as [cols vals].
    cbn [columns] in H. now subst cols.
  - right. split; [assumption|]. now apply extract_refused.
Qed.

Lemma blank_join_false (sep : str) (v : str) (vs : list str) :
  blank v = false -> blank (join sep (v :: vs)) = false.
Proof.
  intros H. destruct vs as [|v' vs]; cbn [join]; [assumption|].
  now rewrite blank_app, H.
Qed.

Lemma In_enumerate_from {A} (l : list A) :
  forall start i x, In (i, x) (enumerate_from start l) ->
                    start <= i /\ nth_error l (Z.to_nat (i - start)) = Some x.
Proof.
  induction l as [|y l IH]; intros start i x H; cbn [enumerate_from] in H; [easy|].
  destruct H as [H|H].
  - injection H as <- <-. rewrite Z.sub_diag. split; [lia|reflexivity].
  - destruct (IH _ _ _ H) as [H1 H2]. split; [lia|].
    replace (Z.to_nat (i - start)) with (S (Z.to_nat (i - (start + 1)))) by lia.
    exact H2.
Qed.

Lemma nonempty_row_has_nonblank {L} (cols : list L) (ir : Z * list cell) :
  nonempty_row cols ir = true ->
  exists cv, In cv (labelled_cells cols (snd ir)) /\ blank (snd cv) = false /\
             exists rest, nonblank_cells cols (snd ir) = cv :: rest.
Proof.
  unfold nonempty_row. intros H.
  destruct (nonblank_cells cols (snd ir)) as [|cv rest] eqn:E; [discriminate|].
  assert (Hin : In cv (nonblank_cells cols (snd ir))) by (rewrite E; now left).
  unfold nonblank_cells in Hin. apply filter_In in Hin. destruct Hin as [Hin Hb].
  exists cv. split; [assumption|]. split; [now destruct (blank (snd cv))|].
  now exists rest.
Qed.



End Sheets.

(** ** Word documents *)

Section WordDocuments.

Import WordRead.

Lemma truthy_map {A B} (f : A -> B) (l : list A) : truthy (map f l) = truthy l.
Proof. now destruct l. Qed.

Lemma truthy_join_filter (sep : str) (xs : list str) :
  truthy (join sep (filter truthy xs)) = truthy (filter truthy xs).
Proof.
  destruct (filter truthy xs) as [|x rest] eqn:E; [reflexivity|].
  assert (Hx : truthy x = true).
  { assert (Hin : In x (filter truthy xs)) by (rewrite E; now left).
    apply filter_In in Hin. tauto. }
  destruct x as [|c x]; [discriminate|]. now destruct rest.
Qed.

Lemma truthy_filter_strip (row : list str) :
  truthy (filter truthy (map strip row)) = negb (forallb blank row).
Proof.
  induction row as [|c row IH]; [reflexivity|].
  cbn [map filter forallb]. rewrite truthy_strip.
  destruct (blank c); cbn [negb andb]; [exact IH|reflexivity].
Qed.

Lemma truthy_row_text (row : list str) :
  truthy (row_text row) = negb (forallb blank row).
Proof.
  unfold row_text, cells_text. now rewrite truthy_join_filter, truthy_filter_strip.
Qed.

Lemma paragraph_step_spec (acc : list WordParagraphData * list str) (ip : Z * Paragraph) :
  paragraph_step acc ip =
  if keeps_paragraph ip
  then (fst acc ++ [paragraph_record ip], snd acc ++ [text (paragraph_record ip)])
  else acc.
Proof.
  unfold paragraph_step, keeps_paragraph, paragraph_record. destruct ip as [idx p].
  cbn [fst snd text]. rewrite truthy_strip. reflexivity.
Qed.

Lemma paragraphs_fold (ps : list Paragraph) :
  forall start ds ts,
    fold_left paragraph_step (enumerate_from start ps) (ds, ts) =
    let kept := map paragraph_record (filter keeps_paragraph (enumerate_from start ps)) in
    (ds ++ kept, ts ++ map text kept).
Proof.
  induction ps as [|p ps IH]; intros start ds ts; cbn [enumerate_from fold_left filter map].
  - cbn. now rewrite !app_nil_r.
  - rewrite paragraph_step_spec. cbn [fst snd].
    destruct (keeps_paragraph (start, p)); rewrite IH; cbn zeta; [|reflexivity].
    cbn [map]. now rewrite <- !app_assoc.
Qed.

Lemma table_row_step_spec (acc : list WordTableRowData * list str) (ir : Z * list str) :
  table_row_step acc ir =
  if keeps_row ir
  then (fst acc ++ [row_record_of ir], snd acc ++ [row_text (snd ir)])
  else acc.
Proof.
  unfold table_row_step, keeps_row, row_record_of. destruct ir as [idx r].
  cbn [fst snd]. fold (row_text r). rewrite truthy_row_text. reflexivity.
Qed.

Lemma table_rows_fold (rs : list (list str)) :
  forall start ds ts,
    fold_left table_row_step (enumerate_from start rs) (ds, ts) =
    let kept := filter keeps_row (enumerate_from start rs) in
    (ds ++ map row_record_of kept, ts ++ map (fun ir => row_text (snd ir)) kept).
Proof.
  induction rs as [|r rs IH]; intros start ds ts; cbn [enumerate_from fold_left filter map].
  - cbn. now rewrite !app_nil_r.
  - rewrite table_row_step_spec. cbn [fst snd].
    destruct (keeps_row (start, r)); rewrite IH; cbn zeta; [|reflexivity].
    cbn [map]. now rewrite <- !app_assoc.
Qed.

Lemma table_step_spec (acc : list WordTableData * list str) (it : Z * Table) :
  table_step acc it =
  if keeps_table it
  then (fst acc ++ [table_record it], snd acc ++ [full_text (table_record it)])
  else acc.
Proof.
  unfold table_step, keeps_table, table_record, kept_rows, enumerate.
  destruct it as [idx t]. cbn [fst snd].
  rewrite table_rows_fold. cbn zeta. cbn [app]. rewrite truthy_map.
  unfold len. rewrite length_map.
  now destruct (filter keeps_row (enumerate_from 0 (table_rows t))).
Qed.

Lemma tables_fold (tbls : list Table) :
  forall start ds ts,
    fold_left table_step (enumerate_from start tbls) (ds, ts) =
    let kept := map table_record (filter keeps_table (enumerate_from start tbls)) in
    (ds ++ kept, ts ++ map full_text kept).
Proof.
  induction tbls as [|t tbls IH]; intros start ds ts; cbn [enumerate_from fold_left filter map].
  - cbn. now rewrite !app_nil_r.
  - rewrite table_step_spec. cbn [fst snd].
    destruct (keeps_table (start, t)); rewrite IH; cbn zeta; [|reflexivity].
    cbn [map]. now rewrite <- !app_assoc.
Qed.

(** The indices kept from an enumeration increase. *)
Lemma filter_enumerate_sorted {A} (f : Z * A -> bool) (l : list A) :
  forall start,
    StronglySorted Z.lt (map fst (filter f (enumerate_from start l))) /\
    Forall (fun i => start <= i) (map fst (filter f (enumerate_from start l))).
Proof.
  induction l as [|x l IH]; intros start; cbn [enumerate_from filter map].
  - split; constructor.
  - destruct (IH (start + 1)) as [H1 H2].
    assert (H3 : Forall (fun i => start < i)
                        (map fst (filter f (enumerate_from (start + 1) l)))).
    { eapply Forall_impl; [|exact H2]. cbn. intros; lia. }
    destruct (f (start, x)); cbn [map fst].
    + split; constructor; try assumption; try lia.
      eapply Forall_impl; [|exact H3]. cbn. intros; lia.
    + split; [assumption|]. eapply Forall_impl; [|exact H3]. cbn. intros; lia.
Qed.

Lemma forallb_false_witness {A} (f : A -> bool) (l : list A) :
  forallb f l = false -> exists x, In x l /\ f x = false.
Proof.
  induction l as [|x l IH]; cbn; [discriminate|].
  destruct (f x) eqn:E; cbn.
  - intros H. destruct (IH H) as (y & Hy & Hf). exists y. tauto.
  - intros _. exists x. tauto.
Qed.

(** What [read_word_file] returns, it returns for a document that was
    opened: there is no partial result. *)
Lemma read_word_file_result (P : platform) (docx : option (string -> option Document))
    (path : string) (out : WordFileData) :
  read_word_file P docx path = inr out ->
  exists open_document doc,
    docx = Some open_document /\ open_document path = Some doc /\
    out = read_word_document P path doc.
Proof.
  unfold read_word_file. destruct docx as [open_document|]; [|discriminate].
  destruct (fs P path); [|discriminate].
  destruct (negb _); [discriminate|].
  destruct (open_document path) as [doc|] eqn:E; [|discriminate].
  intros H. injection H as <-. now exists open_document, doc.
Qed.

(** What [read_word_document] makes of a document. *)
Lemma read_word_document_record
    (P : platform) (path : string) (doc : Document) :
  let out := read_word_document P path doc in
  out_paragraphs out
  = map paragraph_record (filter keeps_paragraph (enumerate (paragraphs doc))) /\
  out_tables out
  = map table_record (filter keeps_table (enumerate (tables doc))) /\
  out_full_text out
  = join [LF] (map text (out_paragraphs out) ++ map full_text (out_tables out)) /\
  StronglySorted Z.lt (map paragraph_index (out_paragraphs out)) /\
  StronglySorted Z.lt (map table_index (out_tables out)) /\
  (forall p, In p (out_paragraphs out) -> text p <> []) /\
  (forall t, In t (out_tables out) ->
     rows t <> [] /\
     StronglySorted Z.lt (map row_index (rows t)) /\
     forall r, In r (rows t) -> exists c, In c (cells r) /\ c <> []).
Proof.
  intros out.
  assert (Hp : out_paragraphs out
               = map paragraph_record (filter keeps_paragraph (enumerate (paragraphs doc)))).
  { unfold out, read_word_document, enumerate.
    rewrite paragraphs_fold, tables_fold. reflexivity. }
  assert (Ht : out_tables out
               = map table_record (filter keeps_table (enumerate (tables doc)))).
  { unfold out, read_word_document, enumerate.
    rewrite paragraphs_fold, tables_fold. reflexivity. }
  split; [exact Hp|]. split; [exact Ht|]. split; [|split; [|split; [|split]]].
  - unfold out, read_word_document, enumerate.
    rewrite paragraphs_fold, tables_fold. reflexivity.
  - rewrite Hp, map_map. cbn [paragraph_record paragraph_index].
    apply (filter_enumerate_sorted keeps_paragraph (paragraphs doc) 0).
  - rewrite Ht, map_map. cbn [table_record table_index].
    apply (filter_enumerate_sorted keeps_table (tables doc) 0).
  - intros p Hin. rewrite Hp in Hin. apply in_map_iff in Hin.
    destruct Hin as (ip & <- & Hip). apply filter_In in Hip. destruct Hip as [_ Hk].
    unfold keeps_paragraph in Hk. cbn [paragraph_record text].
    apply truthy_true. now rewrite truthy_strip.
  - intros t Hin. rewrite Ht in Hin. apply in_map_iff in Hin.
    destruct Hin as (it & <- & Hit). apply filter_In in Hit. destruct Hit as [_ Hk].
    unfold keeps_table in Hk. cbn [table_record rows]. split; [|split].
    + apply truthy_true. now rewrite truthy_map.
    + rewrite map_map. cbn [row_record_of row_index].
      apply (filter_enumerate_sorted keeps_row (table_rows (snd it)) 0).
    + intros r Hr. apply in_map_iff in Hr. destruct Hr as (ir & <- & Hir).
      apply filter_In in Hir. destruct Hir as [_ Hkr]. unfold keeps_row in Hkr.
      apply negb_true_iff in Hkr.
      destruct (forallb_false_witness _ _ Hkr) as (c & Hc & Hb).
      exists (strip c). cbn [row_record_of cells]. split; [now apply in_map|].
      apply truthy_true. now rewrite truthy_strip, Hb.
Qed.

(** C8 (amended).  For a file with the suffix of a Word document that
    python-docx opens, [read_word_file] returns a record.  Its paragraph
    records are, in document order, those of the paragraphs that hold more
    than white space; its table records are, in document order, those of
    the tables with a row that is not empty, each listing in order its rows
    with a non-blank cell, a row record holding the stripped cells of the
    row, not joined.  The units of its [full_text] are the paragraph texts
    followed by one unit for each of these tables, not for each row: the
    texts of the rows of the table (the non-empty stripped cells of a row
    joined with " | ") joined with " | " in turn.  The indices of the
    paragraphs, of the tables and of the rows of each table increase; no
    paragraph record is empty and no row record is without a non-empty
    cell. *)
Theorem word_units_paragraphs_then_tables
    (P : platform) (open_document : string -> option Document) (path : string)
    (doc : Document) :
  fs P path <> None ->
  lower (path_suffix P path) = ".docx"%string \/ lower (path_suffix P path) = ".doc"%string ->
  open_document path = Some doc ->
  exists out,
    read_word_file P (Some open_document) path = inr out /\
    out_paragraphs out
    = map paragraph_record (filter keeps_paragraph (enumerate (paragraphs doc))) /\
    out_tables out
    = map table_record (filter keeps_table (enumerate (tables doc))) /\
    (forall t, In t (out_tables out) ->
       exists it, In it (enumerate (tables doc)) /\
                  rows t = map row_record_of (kept_rows (snd it)) /\
                  full_text t = join bar (map (fun ir => row_text (snd ir))
                                              (kept_rows (snd it)))) /\
    out_full_text out = join [LF] (units out) /\
    StronglySorted Z.lt (map paragraph_index (out_paragraphs out)) /\
    StronglySorted Z.lt (map table_index (out_tables out)) /\
    (forall p, In p (out_paragraphs out) -> text p <> []) /\
    (forall t, In t (out_tables out) ->
       rows t <> [] /\
       StronglySorted Z.lt (map row_index (rows t)) /\
       forall r, In r (rows t) -> exists c, In c (cells r) /\ c <> []).
Proof.
  intros Hfs Hsuffix Hopen.
  exists (read_word_document P path doc). split.
  - unfold read_word_file. destruct (fs P path); [|congruence].
    rewrite Hopen. now destruct Hsuffix as [-> | ->].
  - destruct (read_word_document_record P path doc)
      as (Hp & Ht & Hfull & Hsp & Hst & Hne & Hrows).
    split; [exact Hp|]. split; [exact Ht|]. split; [|split; [exact Hfull|]].
    + intros t Hin. rewrite Ht in Hin. apply in_map_iff in Hin.
      destruct Hin as (it & <- & Hit). apply filter_In in Hit. destruct Hit as [Hit _].
      exists it. split; [exact Hit|]. split; reflexivity.
    + split; [exact Hsp|]. split; [exact Hst|]. split; [exact Hne|exact Hrows].
Qed.

Lemma word_units_paragraphs_then_tables_witness :
  fs SampleOffice.office "report.docx" <> None /\
  exists out,
    read_word_file SampleOffice.office (Some SampleOffice.open_document) "report.docx"
    = inr out /\
    map text (out_paragraphs out) = [lit "Title"] /\
    map table_index (out_tables out) = [0].
Proof.
  assert (Hfs : fs SampleOffice.office "report.docx" <> None) by discriminate.
  split; [exact Hfs|].
  destruct (word_units_paragraphs_then_tables SampleOffice.office
              SampleOffice.open_document "report.docx" SampleOffice.report
              Hfs (or_introl eq_refl) eq_refl)
    as (out & Hout & Hp & Ht & _).
  exists out. split; [exact Hout|]. rewrite Hp, Ht. split; reflexivity.
Defined.

(** C8, as stated, fails on a document with a table of two rows that hold
    text: the output has one unit for the table, the texts of the rows "a"
    and "b | c" joined into "a | b | c", where the claim has one unit for
    each row; the row records of the table hold the cells of the rows, not
    joined (the blank cell of the first row included). *)
Lemma table_rows_are_joined_into_one_unit :
  exists out,
    read_word_file SampleOffice.office (Some SampleOffice.open_document) "report.docx"
    = inr out /\
    units out = [lit "Title"; lit "a | b | c"] /\
    units_of_design SampleOffice.report = [lit "Title"; lit "a"; lit "b | c"] /\
    flat_map (fun t => map cells (rows t)) (out_tables out)
    = [[lit "a"; lit ""]; [lit "b"; lit "c"]] /\
    out_full_text out = lit "Title" ++ [LF] ++ lit "a | b | c" /\
    units out <> units_of_design SampleOffice.report.
Proof.
  eexists. split; [reflexivity|]. split; [reflexivity|]. split; [reflexivity|].
  split; [reflexivity|]. split; [reflexivity|]. discriminate.
Qed.

End WordDocuments.

(** ** File metadata *)

Section Metadata.

Import FileRead.

Variable H : hashlib.
Hypothesis contract : hashlib_contract H.

(** The reading loop feeds the unread bytes of the open file to the hash
    object and leaves the file read to its end. *)
Lemma update_blocks_spec (fuel : nat) :
  forall (unread : bytes) (others : list bytes) (f : string -> option node)
         (h : hash_object H),
    (List.length unread < fuel)%nat ->
    update_blocks H fuel h (mkWorld f (unread :: others)) =
    (inr (hash_update H h unread), mkWorld f ([] :: others)).
Proof.
  induction fuel as [|fuel IH]; intros unread others f h Hlt; [lia|].
  cbn [update_blocks]. unfold bind at 1. unfold read at 1. cbn [open_files files].
  destruct unread as [|b unread].
  - rewrite firstn_nil, skipn_nil. cbn [truthy]. unfold ret.
    now rewrite (update_nil H contract).
  - assert (Hpos : exists n, Z.to_nat 4096 = S n) by (exists (Nat.pred (Z.to_nat 4096)); lia).
    destruct Hpos as [n Hn]. rewrite Hn. cbn [firstn skipn truthy].
    rewrite IH.
    + rewrite (update_app H contract).
      change (b :: firstn n unread) with ([b] ++ firstn n unread).
      now rewrite <- app_assoc, firstn_skipn.
    + rewrite length_skipn. cbn [List.length] in Hlt. lia.
Qed.

Lemma calculate_file_hash_spec (path algorithm : string) (w : world)
    (data : bytes) (ctime mtime : Z) :
  files w path = Some (RegularFile data ctime mtime) ->
  calculate_file_hash H path algorithm w =
  (match digest H algorithm data with
   | Some d => inr d
   | None => inl ValueError_unknown_hash
   end, w).
Proof.
  intros Hf. unfold calculate_file_hash, digest.
  destruct (hash_new H algorithm) as [h0|]; [|reflexivity].
  unfold bind at 1, with_open_rb, bind at 1, open_rb. rewrite Hf.
  unfold bind at 1, unread_count. cbn [open_files files].
  rewrite update_blocks_spec by lia.
  cbn. now destruct w.
Qed.

Lemma get_file_metadata_regular (P : platform) (path : string) (w : world)
    (data : bytes) (ctime mtime : Z) :
  files w path = Some (RegularFile data ctime mtime) ->
  exists meta,
    get_file_metadata P H path w = (inr meta, w) /\
    Some (file_hash meta) = digest H "md5" data /\
    file_size meta = len data /\
    file_path meta = path_absolute P path /\
    filename meta = path_name P path.
Proof.
  intros Hf. unfold get_file_metadata.
  unfold bind at 1, path_exists. rewrite Hf. cbn [negb].
  unfold bind at 1, path_is_file. rewrite Hf. cbn [negb].
  unfold bind at 1, path_stat. rewrite Hf.
  unfold bind at 1. rewrite (calculate_file_hash_spec path "md5" w data ctime mtime Hf).
  unfold digest. destruct (hash_new H "md5") as [h0|] eqn:E.
  - eexists. split; [reflexivity|]. cbn. now repeat split.
  - exfalso. now apply (md5_known H contract).
Qed.

End Metadata.

Section MetadataClaim.

Import FileRead.

Lemma get_file_metadata_not_regular (P : platform) (H : hashlib) (path : string)
    (w : world) (n : node) :
  files w path = Some n ->
  match n with Directory _ _ _ | Special _ _ _ _ => True | _ => False end ->
  get_file_metadata P H path w = (inl ValueError_not_a_file, w).
Proof.
  intros Hf Hn. unfold get_file_metadata, bind, path_exists, path_is_file. cbv beta.
  rewrite Hf. cbn [negb]. cbv beta. rewrite Hf. now destruct n.
Qed.

Lemma get_file_metadata_unreadable (P : platform) (H : hashlib) (path : string)
    (w : world) (st_size ctime mtime : Z) :
  hash_new H "md5" <> None ->
  files w path = Some (Unreadable st_size ctime mtime) ->
  get_file_metadata P H path w = (inl PermissionError, w).
Proof.
  intros Hmd5 Hf. unfold get_file_metadata.
  unfold bind at 1, path_exists. rewrite Hf. cbn [negb].
  unfold bind at 1, path_is_file. rewrite Hf. cbn [negb].
  unfold bind at 1, path_stat. rewrite Hf.
  unfold bind at 1, calculate_file_hash.
  destruct (hash_new H "md5") as [h0|]; [|congruence].
  unfold bind at 1, with_open_rb, bind at 1, open_rb. now rewrite Hf.
Qed.


Lemma checksum_contract : hashlib_contract Sample.checksum.
Proof.
  constructor.
  - intros h a b. cbn. unfold Sample.checksum_update. now rewrite fold_left_app.
  - reflexivity.
  - discriminate.
Qed.



End MetadataClaim.

(** ** The processing queue *)

Section QueueFacts.

Import Queue.

Lemma violation_iff (t : table) (row : QueueItem) :
  unique_among_non_terminal t row = true <->
  exists r, In r t /\ file_path r = file_path row /\
            (item_status r = PENDING \/ item_status r = PROCESSING).
Proof.
  unfold unique_among_non_terminal. rewrite existsb_exists. split.
  - intros (r & Hin & Hr). apply andb_prop in Hr. destruct Hr as [Hp Hs].
    apply String.eqb_eq in Hp. exists r. split; [assumption|]. split; [assumption|].
    destruct (item_status r); try discriminate; tauto.
  - intros (r & Hin & Hp & Hs). exists r. split; [assumption|].
    rewrite Hp, String.eqb_refl. now destruct Hs as [-> | ->].
Qed.

(** The three ways a call of [enqueue] ends. *)
Lemma enqueue_cases (S : store) (now : string) (request : EnqueueRequest) (db : table) :
  let row := mkItem (rowid S db) (req_file_path request) PENDING
                    (req_priority request) 0 None None None now now None None in
  ((breaks S db = true \/ fits_int64 (req_priority request) = false) /\
   enqueue S now request db = (inl (HTTP 500), db)) \/
  (breaks S db = false /\ fits_int64 (req_priority request) = true /\
   violates S db row = true /\
   enqueue S now request db = (inl (HTTP 400), db)) \/
  (breaks S db = false /\ fits_int64 (req_priority request) = true /\
   violates S db row = false /\
   enqueue S now request db
   = (inr (mkResponse (rowid S db) (req_file_path request) PENDING
                      (req_priority request)), db ++ [row])).
Proof.
  cbn zeta. unfold enqueue, insert. cbn [priority].
  destruct (breaks S db); [left; split; [now left|reflexivity]|].
  destruct (fits_int64 (req_priority request)); cbn [negb];
    [|left; split; [now right|reflexivity]].
  destruct (violates S db _); [right; left|right; right]; now repeat split.
Qed.




(** Under a plain [UNIQUE] constraint on the column the same handler
    refuses a path whose only row is COMPLETED: what [enqueue] does with a
    finished path is decided by the declaration of the table. *)
Remark enqueue_under_plain_unique :
  let done := mkItem 1 "report.txt" COMPLETED 5 0 None None None "t0" "t1"
                     (Some "t0"%string) (Some "t1"%string) in
  fst (enqueue (SampleQueue.store_with unique_file_path) "t2" (mkRequest "report.txt" 5)
               [done]) = inl (HTTP 400) /\
  fst (enqueue SampleQueue.store "t2" (mkRequest "report.txt" 5) [done])
  = inr (mkResponse 2 "report.txt" PENDING 5).
Proof. split; reflexivity. Qed.

(** [get_queue_list] lists every row once, the higher priority first and,
    at equal priority, the older first. *)
Lemma comes_before_total (a b : QueueItem) :
  comes_before a b = false -> comes_before b a = true.
Proof.
  unfold comes_before. intros H. apply orb_false_iff in H. destruct H as [H1 H2].
  destruct (Z.gtb_spec (priority b) (priority a)) as [Hgt|Hle]; [reflexivity|].
  destruct (Z.gtb_spec (priority a) (priority b)) as [Hgt'|Hle']; [discriminate|].
  assert (E : priority a = priority b) by lia.
  rewrite E, Z.eqb_refl in *. cbn in *.
  destruct (String.leb_total (created_at a) (created_at b)) as [Ht|Ht]; congruence.
Qed.

Lemma insert_ordered_perm (x : QueueItem) (l : list QueueItem) :
  Permutation (x :: l) (insert_ordered x l).
Proof.
  induction l as [|y l IH]; cbn [insert_ordered]; [reflexivity|].
  destruct (comes_before y x); [|reflexivity].
  rewrite perm_swap. now constructor.
Qed.

Lemma insert_ordered_sorted (x : QueueItem) (l : list QueueItem) :
  Sorted (fun a b => comes_before a b = true) l ->
  Sorted (fun a b => comes_before a b = true) (insert_ordered x l).
Proof.
  induction 1 as [|y l Hs IH Hd]; cbn [insert_ordered]; [repeat constructor|].
  destruct (comes_before y x) eqn:E.
  - constructor; [assumption|].
    destruct l as [|z l]; cbn [insert_ordered] in *; [now constructor|].
    destruct (comes_before z x); constructor; [now inversion Hd|assumption].
  - constructor; [now constructor|]. constructor. now apply comes_before_total.
Qed.

Lemma order_by_spec (t : table) :
  Permutation t (order_by t) /\ Sorted (fun a b => comes_before a b = true) (order_by t).
Proof.
  unfold order_by.
  assert (G : forall acc, Sorted (fun a b => comes_before a b = true) acc ->
              Permutation (acc ++ t) (fold_left (fun s x => insert_ordered x s) t acc) /\
              Sorted (fun a b => comes_before a b = true)
                     (fold_left (fun s x => insert_ordered x s) t acc)).
  { induction t as [|x t IH]; intros acc Hacc; cbn [fold_left].
    - rewrite app_nil_r. now split.
    - destruct (IH (insert_ordered x acc) (insert_ordered_sorted x acc Hacc)) as [Hp Hs].
      split; [|assumption]. rewrite <- Hp.
      rewrite <- (insert_ordered_perm x acc). symmetry. apply Permutation_middle. }
  apply (G []). constructor.
Qed.

(** Enqueued with priority 1 and then 5, the two files are listed with the
    priority 5 first, both still PENDING. *)
Example listing_by_priority :
  let db1 := snd (enqueue SampleQueue.store "t1" (mkRequest "notes.txt" 1) []) in
  let db2 := snd (enqueue SampleQueue.store "t2" (mkRequest "report.txt" 5) db1) in
  map (fun e => (entry_file_path e, entry_status e)) (fst (fst (get_queue_list db2)))
  = [("report.txt"%string, PENDING); ("notes.txt"%string, PENDING)].
Proof. reflexivity. Qed.

End QueueFacts.

(** ** The handlers of the queue router, one call after another *)

Section Router.

Import Queue.

Lemma after_call_cases (S : store) (db : table) (c : call) :
  after_call S db c = db \/
  exists row, after_call S db c = db ++ [row] /\
              untouched row /\ id row = rowid S db /\ violates S db row = false.
Proof.
  destruct c as [now request|now request|]; cbn [after_call]; [| |now left].
  - destruct (enqueue_cases S now request db)
      as [[_ E]|[(_ & _ & _ & E)|(_ & _ & Hv & E)]]; rewrite E;
      cbn [snd]; [now left|now left|right].
    eexists. split; [reflexivity|]. split; [|split; [reflexivity|exact Hv]].
    now repeat split.
  - unfold dequeue.
    destruct (enqueue_cases S now (mkRequest (req_file_path request) 0) db)
      as [[_ E]|[(_ & _ & _ & E)|(_ & _ & Hv & E)]]; rewrite E;
      cbn [snd]; [now left|now left|right].
    eexists. split; [reflexivity|]. split; [|split; [reflexivity|exact Hv]].
    now repeat split.
Qed.

(** X1.  The router never moves an item through the state machine: after
    any sequence of calls of its handlers ([enqueue], [dequeue],
    [get_queue_list]), whatever the constraints of the table and whatever
    the state of the database, the rows that were in the table are still
    there, unchanged and in the same order, at the start of the table, and
    every row added since is PENDING with [retry_count] 0, no
    [started_at], no [completed_at] and no error message. *)
Theorem router_only_appends_pending_rows (S : store) (calls : list call)
    (db : table) :
  exists added,
    after_calls S db calls = db ++ added /\ Forall untouched added.
Proof.
  revert db. induction calls as [|c calls IH]; intros db; cbn [after_calls fold_left].
  - exists []. now rewrite app_nil_r.
  - fold (after_calls S (after_call S db c) calls).
    destruct (after_call_cases S db c) as [Hc|(row & Hc & Hrow & _)];
      rewrite Hc.
    + apply IH.
    + destruct (IH (db ++ [row])) as (added & E & Hadded).
      exists (row :: added). rewrite E, <- app_assoc. split; [reflexivity|].
      now constructor.
Qed.

Lemma comes_before_listed (a b : QueueItem) :
  comes_before a b = true -> listed_before (entry_of a) (entry_of b).
Proof.
  unfold comes_before, listed_before. cbn [entry_of entry_priority entry_created_at].
  intros H. apply orb_prop in H. destruct H as [H|H].
  - left. now apply Z.gtb_lt, Z.lt_gt in H.
  - apply andb_prop in H. destruct H as [H1 H2]. right. split; [now apply Z.eqb_eq|assumption].
Qed.

Lemma Sorted_map {A B} (R : A -> A -> Prop) (S : B -> B -> Prop) (f : A -> B)
    (l : list A) :
  (forall a b, R a b -> S (f a) (f b)) -> Sorted R l -> Sorted S (map f l).
Proof.
  intros HRS. induction 1 as [|x l _ IH Hd]; cbn [map]; constructor; [assumption|].
  destruct Hd; cbn [map]; constructor. now apply HRS.
Qed.

(** The listing is a rearrangement of the table, of the same length. *)
Lemma get_queue_list_lists_every_row_in_order_aux (db : table) :
  Permutation (map entry_of db) (fst (fst (get_queue_list db))) /\
  snd (fst (get_queue_list db)) = len db.
Proof.
  cbn [get_queue_list fst snd]. destruct (order_by_spec db) as [Hp _].
  split; [now apply Permutation_map|].
  unfold len. rewrite length_map. now rewrite (Permutation_length Hp).
Qed.






End Router.

(** ** More on the chunks of a text file *)

Section ChunkExtras.

Import TextRead.

Lemma nth_error_chunks_of_groups (gs : list (list str)) :
  forall cid lo j c,
    nth_error (chunks_of_groups cid lo gs) j = Some c -> chunk_id c = cid + Z.of_nat j.
Proof.
  induction gs as [|g gs IH]; intros cid lo j c H; cbn [chunks_of_groups] in H.
  - now destruct j.
  - destruct j as [|j]; cbn [nth_error] in H.
    + injection H as <-. cbn. lia.
    + rewrite (IH _ _ _ _ H). lia.
Qed.

Lemma length_chunks_of_groups (gs : list (list str)) :
  forall cid lo, List.length (chunks_of_groups cid lo gs) = List.length gs.
Proof.
  induction gs as [|g gs IH]; intros cid lo; cbn [chunks_of_groups List.length];
    [reflexivity|]. now rewrite IH.
Qed.

Lemma length_concat_nonempty {A} (gs : list (list A)) :
  Forall (fun g => g <> []) gs -> (List.length gs <= List.length (List.concat gs))%nat.
Proof.
  induction 1 as [|g gs Hg _ IH]; cbn [List.concat List.length]; [lia|].
  rewrite length_app. destruct g; [congruence|]. cbn [List.length]. lia.
Qed.

(** X7.  The chunks of a text file are numbered in the order they are
    returned, from 0 and without a gap, and there are at most as many
    chunks as lines. *)
Theorem chunk_ids_count_from_zero (lines : list str) (chunk_size : Z) :
  (forall j c, nth_error (chunks_of_lines lines chunk_size) j = Some c ->
               chunk_id c = Z.of_nat j) /\
  (List.length (chunks_of_lines lines chunk_size) <= List.length lines)%nat.
Proof.
  rewrite chunks_of_lines_groups. split.
  - intros j c H. rewrite (nth_error_chunks_of_groups _ _ _ _ _ H). lia.
  - rewrite length_chunks_of_groups.
    destruct (emitted_groups_spec chunk_size lines) as (tail & Hc & _ & _ & Hn & _).
    pose proof (length_concat_nonempty _ Hn) as Hle.
    rewrite <- Hc at 2. rewrite length_app. lia.
Qed.

(** X8.  With a budget of zero or less every chunk holds exactly one
    line: its range is a single line, its text that line without its
    trailing white space, its [char_count] the length of the line plus one. *)
Theorem nonpositive_budget_gives_one_line_per_chunk (lines : list str) (chunk_size : Z) :
  chunk_size <= 0 ->
  forall c, In c (chunks_of_lines lines chunk_size) ->
    line_start c = line_end c /\
    exists l, nth_error lines (Z.to_nat (line_start c)) = Some l /\
              text c = rstrip l /\ char_count c = len l + 1.
Proof.
  intros Hb c Hin.
  destruct (chunk_decomposition lines chunk_size c Hin)
    as (before & g & after & k & -> & Hg & Hbound & ->).
  assert (Hone : exists l, g = [l]).
  { destruct g as [|l [|l' g]]; [congruence|now exists l|].
    destruct Hbound as [H|H]; [|cbn in H; lia].
    pose proof (len_acc_text_in (l :: l' :: g) l (or_introl eq_refl)).
    pose proof (len_nonneg l). lia. }
  destruct Hone as [l ->]. cbn [line_start line_end text char_count].
  split; [unfold len; cbn [List.length]; lia|]. exists l.
  unfold len at 1. rewrite Nat2Z.id, nth_error_app2, Nat.sub_diag by lia.
  split; [reflexivity|]. rewrite acc_text_one.
  split; [apply rstrip_snoc_space, isspace_LF|].
  rewrite len_app. unfold len; cbn [List.length]; lia.
Qed.

Lemma nonpositive_budget_gives_one_line_per_chunk_witness :
  0 <= 0 /\
  chunks_of_lines [lit "ab"; lit "c"] 0
  = [mkChunk 0 0 0 (lit "ab") 3; mkChunk 1 1 1 (lit "c") 2] /\
  forall c, In c (chunks_of_lines [lit "ab"; lit "c"] 0) -> line_start c = line_end c.
Proof.
  split; [lia|]. split; [reflexivity|].
  intros c Hin.
  exact (proj1 (nonpositive_budget_gives_one_line_per_chunk
                  [lit "ab"; lit "c"] 0 (Z.le_refl 0) c Hin)).
Defined.

Lemma total_chunks_of_groups (gs : list (list str)) :
  forall cid lo,
    total_char_count (chunks_of_groups cid lo gs) = len (acc_text (List.concat gs)).
Proof.
  unfold total_char_count.
  induction gs as [|g gs IH]; intros cid lo;
    cbn [chunks_of_groups map fold_right List.concat char_count]; [reflexivity|].
  now rewrite IH, acc_text_app, len_app.
Qed.

(** X9.  The [char_count] of the chunks add up to the characters of the
    lines they cover, counting one newline for each line: the sum is at
    most the length of all the lines with their newlines, and it is that
    length whenever the accumulator left by the last line is not blank (no
    line is dropped). *)
Theorem char_counts_add_up (lines : list str) (chunk_size : Z) :
  total_char_count (chunks_of_lines lines chunk_size) <= len (acc_text lines) /\
  (blank (current_chunk (run_loop chunk_size lines)) = false ->
   total_char_count (chunks_of_lines lines chunk_size) = len (acc_text lines)).
Proof.
  rewrite chunks_of_lines_groups, total_chunks_of_groups.
  destruct (emitted_groups_spec chunk_size lines) as (tail & Hc & _ & _ & _ & _ & Hf & _).
  assert (E : len (acc_text lines)
              = len (acc_text (List.concat (emitted_groups lines chunk_size)))
                + len (acc_text tail)).
  { rewrite <- Hc at 1. now rewrite acc_text_app, len_app. }
  split.
  - pose proof (len_nonneg (acc_text tail)). lia.
  - intros H. rewrite (Hf H) in E. cbn in E. lia.
Qed.

Lemma lstrip_head (s : str) (c : codepoint) (r : str) :
  lstrip s = c :: r -> isspace c = false.
Proof.
  induction s as [|d s IH]; cbn [lstrip]; [discriminate|].
  destruct (isspace d) eqn:E; [exact IH|]. intros H. injection H as <- _. exact E.
Qed.

Lemma rstrip_last (s t : str) (w : codepoint) :
  rstrip s = t ++ [w] -> isspace w = false.
Proof.
  unfold rstrip. intros H.
  destruct (lstrip (rev s)) as [|c r] eqn:E.
  - cbn in H. now destruct t.
  - cbn [rev] in H. apply app_inj_tail in H. destruct H as [_ <-].
    exact (lstrip_head _ _ _ E).
Qed.

(** X10.  The text of a chunk never ends with white space: it is empty or
    its last character is not a white-space character. *)
Theorem chunk_text_has_no_trailing_space (lines : list str) (chunk_size : Z) :
  forall c, In c (chunks_of_lines lines chunk_size) ->
    forall t w, text c = t ++ [w] -> isspace w = false.
Proof.
  intros c Hin t w Ht.
  destruct (chunk_decomposition lines chunk_size c Hin)
    as (before & g & after & k & _ & _ & _ & ->).
  cbn [text] in Ht. exact (rstrip_last _ _ _ Ht).
Qed.

Lemma chunk_text_has_no_trailing_space_witness :
  In (mkChunk 0 0 0 (lit "ab") 5) (chunks_of_lines [lit "ab  "; lit "c"] 5) /\
  lit "ab" = lit "a" ++ [98%N] /\
  isspace 98%N = false.
Proof.
  assert (Hin : In (mkChunk 0 0 0 (lit "ab") 5) (chunks_of_lines [lit "ab  "; lit "c"] 5))
    by (left; reflexivity).
  split; [exact Hin|]. split; [reflexivity|].
  exact (chunk_text_has_no_trailing_space [lit "ab  "; lit "c"] 5 _ Hin
           (lit "a") 98%N eq_refl).
Defined.

Lemma group_lines_fits (budget : Z) (lines : list str) :
  forall acc, len (acc_text (acc ++ lines)) <= budget ->
              group_lines budget acc lines = ([], acc ++ lines).
Proof.
  induction lines as [|l rest IH]; intros acc Hfit; cbn [group_lines].
  - now rewrite app_nil_r.
  - assert (Hf : must_flush budget (acc_text acc) (l ++ [LF]) = false).
    { unfold must_flush. apply andb_false_iff. left.
      change (l :: rest) with ([l] ++ rest) in Hfit.
      rewrite !acc_text_app, acc_text_one, !len_app in Hfit.
      rewrite len_app. pose proof (len_nonneg (acc_text rest)). lia. }
    rewrite Hf, IH; rewrite <- app_assoc; [reflexivity|exact Hfit].
Qed.

(** X11.  A file that fits the budget is one chunk: when the lines with
    their newlines are no longer than the budget, the chunks are a single
    chunk, numbered 0, that covers every line, its text the lines joined by
    newlines without trailing white space; or no chunk at all when every
    line is blank. *)
Theorem file_within_budget_is_one_chunk (lines : list str) (chunk_size : Z) :
  len (acc_text lines) <= chunk_size ->
  chunks_of_lines lines chunk_size =
  if forallb blank lines then []
  else [mkChunk 0 0 (len lines - 1) (rstrip (acc_text lines)) (len (acc_text lines))].
Proof.
  intros Hfit. rewrite chunks_of_lines_groups. unfold emitted_groups.
  rewrite (group_lines_fits chunk_size lines [] Hfit). cbn [app].
  rewrite blank_acc_text. destruct (forallb blank lines); [reflexivity|].
  cbn [chunks_of_groups]. now rewrite !Z.add_0_l.
Qed.

Lemma file_within_budget_is_one_chunk_witness :
  len (acc_text [lit "ab"; lit ""; lit "c"]) <= 1000 /\
  chunks_of_lines [lit "ab"; lit ""; lit "c"] 1000
  = [mkChunk 0 0 2 (lit "ab" ++ [LF; LF] ++ lit "c") 6].
Proof.
  split; [cbn; lia|].
  rewrite (file_within_budget_is_one_chunk [lit "ab"; lit ""; lit "c"] 1000);
    [reflexivity|cbn; lia].
Defined.

End ChunkExtras.

(** ** Reading a text file: outcomes *)

Section TextFileExtras.

Import TextFile TextLines.

Lemma try_encodings_in_list (P : platform) (raw : bytes) :
  In (_try_encodings P raw) encodings.
Proof.
  unfold _try_encodings. rewrite try_each_find.
  destruct (find _ encodings) as [enc|] eqn:E.
  - now apply find_some in E.
  - now left.
Qed.

(** X13.  [detect_encoding] answers either the name chardet gives, in
    lower case, chardet being at least 0.7 confident, or a candidate of the
    trial list; an answer taken from the trial list decodes the whole file
    as soon as one candidate of the list does, and is ["utf-8"] when none
    does. *)
Theorem detect_encoding_answer (P : platform) (raw : bytes) :
  ((exists detect result name,
       chardet P = Some detect /\
       detect (firstn (Z.to_nat 10000) raw) = Some result /\
       low_confidence result = false /\
       cd_encoding result = Some name /\
       detect_encoding P raw = lower name) \/
   (uses_trial_list P raw = true /\ In (detect_encoding P raw) encodings)) /\
  (uses_trial_list P raw = true ->
   (forall enc, In enc encodings -> decodes P enc raw = true ->
                decodes P (detect_encoding P raw) raw = true) /\
   ((forall enc, In enc encodings -> decodes P enc raw = false) ->
    detect_encoding P raw = "utf-8"%string)).
Proof.
  split.
  - destruct (uses_trial_list P raw) eqn:Ht.
    + right. split; [reflexivity|]. rewrite (detect_encoding_trial P raw Ht).
      apply try_encodings_in_list.
    + left. unfold uses_trial_list in Ht. unfold detect_encoding.
      destruct (chardet P) as [detect|]; [|discriminate].
      destruct (detect _) as [result|] eqn:Hd; [|discriminate].
      apply orb_false_iff in Ht. destruct Ht as [Hl Hn]. rewrite Hl.
      destruct (cd_encoding result) as [name|] eqn:Hc; [|discriminate].
      exists detect, result, name. now repeat split.
  - intros Ht. rewrite (detect_encoding_trial P raw Ht). unfold _try_encodings.
    rewrite try_each_find. split.
    + intros enc Hin Hdec.
      destruct (find _ encodings) as [found|] eqn:E.
      * now apply find_some in E.
      * rewrite (find_none _ _ E enc Hin) in Hdec. discriminate.
    + intros Hnone. destruct (find _ encodings) as [found|] eqn:E; [|reflexivity].
      apply find_some in E. destruct E as [Hin Hdec].
      rewrite (Hnone found Hin) in Hdec. discriminate.
Qed.

Lemma by_lines_eq (P : platform) (path : string) (enc : option string)
    (lines : list str) (start_line : Z) (end_line : option Z) :
  read_text_file_lines P path enc = inr lines ->
  read_text_file_by_lines P path start_line end_line enc
  = inr (select_lines lines start_line end_line).
Proof. intros H. unfold read_text_file_by_lines. now rewrite H. Qed.

Lemma slice_lines_all (lines : list str) : slice_lines lines 0 (len lines) = lines.
Proof.
  unfold slice_lines, len. rewrite Z.sub_0_r, Nat2Z.id. cbn [Z.to_nat skipn].
  apply firstn_all.
Qed.

(** X14.  [read_text_file_by_lines] never fails on the bounds it is given:
    a start below 0 counts as 0 and an end beyond the last line as the
    number of lines, the default end is the number of lines, and the answer
    is the empty string when the end is not after the start, when the end
    is 0 or negative (a negative end does not count from the last line) and
    when the start is at or beyond the number of lines; from 0 to the
    default end the answer is the lines joined by newlines. *)
Theorem by_lines_bounds_are_clamped (P : platform) (path : string)
    (enc : option string) (lines : list str) :
  read_text_file_lines P path enc = inr lines ->
  (forall s e, read_text_file_by_lines P path s (Some e) enc
               = read_text_file_by_lines P path (Z.max 0 s)
                                         (Some (Z.min (len lines) e)) enc) /\
  (forall s, read_text_file_by_lines P path s None enc
             = read_text_file_by_lines P path s (Some (len lines)) enc) /\
  (forall s e, e <= s \/ e <= 0 \/ len lines <= s ->
               read_text_file_by_lines P path s (Some e) enc = inr []) /\
  read_text_file_by_lines P path 0 None enc = inr (join [LF] lines).
Proof.
  intros H. pose proof (len_nonneg lines) as Hn.
  split; [|split; [|split]].
  - intros s e. rewrite !(by_lines_eq P path enc lines) by assumption. f_equal.
    unfold select_lines.
    now replace (Z.max 0 (Z.max 0 s)) with (Z.max 0 s) by lia;
      replace (Z.min (len lines) (Z.min (len lines) e)) with (Z.min (len lines) e) by lia.
  - intros s. now rewrite !(by_lines_eq P path enc lines) by assumption.
  - intros s e Hse. rewrite (by_lines_eq P path enc lines) by assumption. f_equal.
    unfold select_lines.
    destruct (Z.geb_spec (Z.max 0 s) (Z.min (len lines) e)) as [|Hlt]; [reflexivity|lia].
  - rewrite (by_lines_eq P path enc lines) by assumption. f_equal.
    unfold select_lines. rewrite Z.max_id, Z.min_id.
    destruct (Z.geb_spec 0 (len lines)) as [Hge|Hlt].
    + assert (E : lines = []) by (destruct lines; [reflexivity|rewrite len_cons in Hge; pose proof (len_nonneg lines); lia]).
      now rewrite E.
    + now rewrite slice_lines_all.
Qed.

Lemma join_app (sep : str) (x y : list str) :
  x <> [] -> y <> [] -> join sep (x ++ y) = join sep x ++ sep ++ join sep y.
Proof.
  intros Hx Hy. induction x as [|a x IH]; [congruence|].
  destruct x as [|b x].
  - cbn [app join]. destruct y; [congruence|reflexivity].
  - change ((a :: b :: x) ++ y) with (a :: (b :: x) ++ y).
    change (join sep (a :: b :: x)) with (a ++ sep ++ join sep (b :: x)).
    assert (E : join sep (a :: (b :: x) ++ y) = a ++ sep ++ join sep ((b :: x) ++ y))
      by reflexivity.
    rewrite E, IH by discriminate. now rewrite <- !app_assoc.
Qed.

Lemma firstn_plus {A} (n m : nat) :
  forall l : list A, firstn (n + m) l = firstn n l ++ firstn m (skipn n l).
Proof.
  induction n as [|n IH]; intros l; [reflexivity|].
  destruct l as [|x l]; cbn [Nat.add firstn skipn app].
  - now rewrite firstn_nil.
  - now rewrite IH.
Qed.

Lemma slice_lines_split (lines : list str) (a b c : Z) :
  0 <= a -> a <= b -> b <= c ->
  slice_lines lines a c = slice_lines lines a b ++ slice_lines lines b c.
Proof.
  intros Ha Hab Hbc. unfold slice_lines.
  replace (Z.to_nat (c - a)) with (Z.to_nat (b - a) + Z.to_nat (c - b))%nat by lia.
  rewrite firstn_plus, skipn_skipn.
  now replace (Z.to_nat (b - a) + Z.to_nat a)%nat with (Z.to_nat b) by lia.
Qed.

Lemma slice_lines_nonempty (lines : list str) (a b : Z) :
  0 <= a -> a < b -> b <= len lines -> slice_lines lines a b <> [].
Proof.
  intros Ha Hab Hb Habs. apply (f_equal (@List.length _)) in Habs.
  unfold slice_lines, len in *. rewrite length_firstn, length_skipn in Habs.
  cbn [List.length] in Habs. lia.
Qed.

(** X15.  Consecutive ranges of lines compose: for bounds
    [0 <= a < b < c] within the file, the lines from [a] to [c] are the
    lines from [a] to [b], a newline, and the lines from [b] to [c]. *)
Theorem by_lines_ranges_compose (P : platform) (path : string) (enc : option string)
    (lines : list str) (a b c : Z) :
  read_text_file_lines P path enc = inr lines ->
  0 <= a -> a < b -> b < c -> c <= len lines ->
  exists first second,
    read_text_file_by_lines P path a (Some b) enc = inr first /\
    read_text_file_by_lines P path b (Some c) enc = inr second /\
    read_text_file_by_lines P path a (Some c) enc = inr (first ++ [LF] ++ second).
Proof.
  intros H Ha Hab Hbc Hc.
  exists (select_lines lines a (Some b)), (select_lines lines b (Some c)).
  rewrite !(by_lines_eq P path enc lines) by assumption.
  split; [reflexivity|]. split; [reflexivity|]. f_equal. unfold select_lines.
  replace (Z.max 0 a) with a by lia. replace (Z.max 0 b) with b by lia.
  replace (Z.min (len lines) b) with b by lia. replace (Z.min (len lines) c) with c by lia.
  destruct (Z.geb_spec a b); [lia|]. destruct (Z.geb_spec b c); [lia|].
  destruct (Z.geb_spec a c); [lia|].
  rewrite (slice_lines_split lines a b c) by lia.
  apply join_app; apply slice_lines_nonempty; lia.
Qed.

Lemma by_lines_bounds_are_clamped_witness :
  read_text_file_lines Sample.with_notes "notes.txt" None
  = inr [lit "one"; lit "two"; lit "three"] /\
  read_text_file_by_lines Sample.with_notes "notes.txt" (-4) (Some 2) None
  = inr (lit "one" ++ [LF] ++ lit "two") /\
  read_text_file_by_lines Sample.with_notes "notes.txt" 1 (Some (-1)) None = inr [].
Proof.
  split; [reflexivity|]. split; [reflexivity|].
  destruct (by_lines_bounds_are_clamped Sample.with_notes "notes.txt" None
              [lit "one"; lit "two"; lit "three"] eq_refl) as (_ & _ & H & _).
  apply H. right. left. lia.
Defined.

Lemma by_lines_ranges_compose_witness :
  read_text_file_lines Sample.with_notes "notes.txt" None
  = inr [lit "one"; lit "two"; lit "three"] /\
  0 <= 0 /\ 0 < 1 /\ 1 < 3 /\ 3 <= len [lit "one"; lit "two"; lit "three"] /\
  exists first second,
    read_text_file_by_lines Sample.with_notes "notes.txt" 0 (Some 1) None = inr first /\
    read_text_file_by_lines Sample.with_notes "notes.txt" 1 (Some 3) None = inr second /\
    read_text_file_by_lines Sample.with_notes "notes.txt" 0 (Some 3) None
    = inr (first ++ [LF] ++ second).
Proof.
  split; [reflexivity|]. split; [lia|]. split; [lia|]. split; [lia|].
  split; [cbn; lia|].
  apply (by_lines_ranges_compose Sample.with_notes "notes.txt" None
           [lit "one"; lit "two"; lit "three"] 0 1 3 eq_refl);
    [lia|lia|lia|cbn; lia].
Defined.

Lemma breakfree_app (a b : str) : breakfree (a ++ b) = breakfree a && breakfree b.
Proof. apply forallb_app. Qed.

Lemma splitlines_from_breakfree (n : nat) :
  forall s cur, (List.length s <= n)%nat -> breakfree cur = true ->
                Forall (fun l => breakfree l = true) (splitlines_from cur s).
Proof.
  induction n as [|n IH]; intros s cur Hlen Hcur.
  - destruct s; [|cbn in Hlen; lia]. cbn. destruct cur; repeat constructor. exact Hcur.
  - destruct s as [|c s]; cbn [splitlines_from].
    + destruct cur; repeat constructor. exact Hcur.
    + cbn [List.length] in Hlen. destruct (is_linebreak c) eqn:Hc.
      * constructor; [exact Hcur|]. destruct s as [|c' s']; [constructor|].
        cbn [List.length] in Hlen.
        destruct ((c =? CR)%N && (c' =? LF)%N); apply IH; try reflexivity;
          cbn [List.length]; lia.
      * apply IH; [lia|]. rewrite breakfree_app, Hcur. cbn. now rewrite Hc.
Qed.

(** X16.  No line of [read_text_file_lines] holds a line boundary (a
    newline, a carriage return or one of the other separators
    [str.splitlines] knows), and there are as many lines as the
    [line_count] of [read_text_file]. *)
Theorem lines_hold_no_line_boundary (P : platform) (path : string)
    (enc : option string) (lines : list str) :
  read_text_file_lines P path enc = inr lines ->
  Forall (fun l => breakfree l = true) lines /\
  exists data, read_text_file P path enc = inr data /\ line_count data = len lines.
Proof.
  unfold read_text_file_lines.
  destruct (read_text_file P path enc) as [e|data] eqn:E; [discriminate|].
  intros H. injection H as <-. split.
  - apply (splitlines_from_breakfree (List.length (content data))); [lia|reflexivity].
  - exists data. split; [reflexivity|].
    unfold read_text_file in E.
    destruct (fs P path) as [[s c m|raw ctime mtime|s c m|s c m stream]|];
      try discriminate.
    destruct (decode P _ raw); try discriminate.
    + now injection E as <-.
    + destruct enc; [|discriminate].
      destruct (decode P _ raw); try discriminate. now injection E as <-.
Qed.

Lemma lines_hold_no_line_boundary_witness :
  read_text_file_lines Sample.with_notes "notes.txt" None
  = inr [lit "one"; lit "two"; lit "three"] /\
  Forall (fun l => breakfree l = true) [lit "one"; lit "two"; lit "three"].
Proof.
  split; [reflexivity|].
  exact (proj1 (lines_hold_no_line_boundary Sample.with_notes "notes.txt" None
                  [lit "one"; lit "two"; lit "three"] eq_refl)).
Defined.

Lemma splitlines_from_line (l : str) :
  forall cur more, breakfree l = true ->
    splitlines_from cur (l ++ LF :: more) = (cur ++ l) :: splitlines_from [] more.
Proof.
  induction l as [|c l IH]; intros cur more Hl; cbn [app splitlines_from].
  - rewrite app_nil_r. change (is_linebreak LF) with true. cbn iota.
    destruct more as [|c' more']; [reflexivity|].
    change ((LF =? CR)%N) with false. reflexivity.
  - cbn [breakfree forallb] in Hl. apply andb_prop in Hl. destruct Hl as [Hc Hl].
    apply negb_true_iff in Hc. rewrite Hc, (IH _ _ Hl), <- app_assoc. reflexivity.
Qed.

(** X17.  The accumulator of a chunk splits back into its lines: for
    lines that hold no line boundary, as the lines of a file do, splitting
    the lines followed each by a newline gives the lines again; so the
    unstripped text a chunk counts in [char_count] splits into exactly the
    lines of its range. *)
Theorem accumulator_splits_into_its_lines (lines : list str) (chunk_size : Z) :
  Forall (fun l => breakfree l = true) lines ->
  splitlines (acc_text lines) = lines /\
  forall c, In c (TextRead.chunks_of_lines lines chunk_size) ->
    splitlines (acc_text (slice lines (TextRead.line_start c) (TextRead.line_end c)))
    = slice lines (TextRead.line_start c) (TextRead.line_end c).
Proof.
  assert (G : forall ls, Forall (fun l => breakfree l = true) ls ->
                         splitlines (acc_text ls) = ls).
  { induction 1 as [|l ls Hl _ IH]; [reflexivity|].
    unfold splitlines in *.
    change (acc_text (l :: ls)) with ((l ++ [LF]) ++ acc_text ls).
    rewrite <- app_assoc. cbn [app].
    rewrite (splitlines_from_line l [] (acc_text ls) Hl), IH. reflexivity. }
  intros Hall. split; [now apply G|].
  intros c Hin.
  destruct (chunk_decomposition lines chunk_size c Hin)
    as (before & g & after & k & -> & Hg & _ & ->).
  cbn [TextRead.line_start TextRead.line_end].
  rewrite (slice_middle before g after Hg). apply G.
  apply Forall_app in Hall. destruct Hall as [_ Hall].
  apply Forall_app in Hall. tauto.
Qed.

Lemma accumulator_splits_into_its_lines_witness :
  Forall (fun l => breakfree l = true) [lit "ab"; lit ""; lit "c"] /\
  splitlines (acc_text [lit "ab"; lit ""; lit "c"]) = [lit "ab"; lit ""; lit "c"].
Proof.
  assert (H : Forall (fun l => breakfree l = true) [lit "ab"; lit ""; lit "c"])
    by (repeat constructor).
  split; [exact H|].
  exact (proj1 (accumulator_splits_into_its_lines [lit "ab"; lit ""; lit "c"] 4 H)).
Defined.

End TextFileExtras.

(** ** The other readers of modules/file_read.py *)

Section FileExtras.

Import FileRead FileReaders.

Lemma world_eta (w : world) : mkWorld (files w) (open_files w) = w.
Proof. now destruct w. Qed.

(** The reading loop touches nothing but the file it reads, contract or
    no contract on the hash objects. *)
Lemma update_blocks_frame (H : hashlib) (fuel : nat) :
  forall (unread : bytes) (others : list bytes) (f : string -> option node)
         (h : hash_object H),
  exists r rest,
    update_blocks H fuel h (mkWorld f (unread :: others)) = (r, mkWorld f (rest :: others)).
Proof.
  induction fuel as [|fuel IH]; intros unread others f h; cbn [update_blocks].
  - now exists (inl OutOfFuel), unread.
  - unfold bind at 1. unfold read at 1. cbn [open_files files].
    destruct (truthy (firstn (Z.to_nat 4096) unread)).
    + apply IH.
    + now exists (inr h), (skipn (Z.to_nat 4096) unread).
Qed.

(** What [with open(path, 'rb')] does, by what [open] gives. *)
Lemma with_open_rb_cases {A} (path : string) (body : IO A) (w : world) (n : node) :
  files w path = Some n ->
  with_open_rb path body w =
  match opens n with
  | inl e => (inl e, w)
  | inr data =>
      (fst (body (mkWorld (files w) (data :: open_files w))),
       snd (close (snd (body (mkWorld (files w) (data :: open_files w))))))
  end.
Proof.
  intros Hf. unfold with_open_rb, bind, open_rb. rewrite Hf.
  destruct n as [s c m|data c m|s c m|s c m [data|]]; cbn [opens]; try reflexivity;
    now destruct (body _).
Qed.

Lemma with_open_rb_missing {A} (path : string) (body : IO A) (w : world) :
  files w path = None -> with_open_rb path body w = (inl FileNotFoundError, w).
Proof. intros Hf. unfold with_open_rb, bind, open_rb. now rewrite Hf. Qed.

Lemma calculate_file_hash_cases (H : hashlib) (path algorithm : string) (w : world)
    (h0 : hash_object H) (n : node) :
  hash_new H algorithm = Some h0 ->
  files w path = Some n ->
  match opens n with
  | inl e => calculate_file_hash H path algorithm w = (inl e, w)
  | inr _ => exists r, calculate_file_hash H path algorithm w = (r, w)
  end.
Proof.
  intros Hh Hf. destruct (opens n) as [e|data] eqn:Ho;
    unfold calculate_file_hash; rewrite Hh; unfold bind at 1;
    rewrite (with_open_rb_cases path _ w n Hf), Ho; [reflexivity|].
  change ((n0 <- unread_count ;; update_blocks H (S n0) h0)
            (mkWorld (files w) (data :: open_files w)))
    with (update_blocks H (S (List.length data)) h0
            (mkWorld (files w) (data :: open_files w))).
  destruct (update_blocks_frame H (S (List.length data)) data (open_files w)
                                (files w) h0) as (r & rest & E).
  rewrite E. cbn [fst snd close files open_files tl]. rewrite world_eta.
  destruct r; eexists; reflexivity.
Qed.


Lemma read_file_binary_cases (path : string) (w : world) (n : node) :
  files w path = Some n -> read_file_binary path w = (opens n, w).
Proof.
  intros Hf. unfold read_file_binary, bind at 1, path_exists. rewrite Hf. cbn [negb].
  rewrite (with_open_rb_cases path _ w n Hf).
  destruct (opens n) as [e|data]; [reflexivity|].
  cbn [read_all close open_files files fst snd tl]. now rewrite world_eta.
Qed.

Lemma read_file_binary_missing (path : string) (w : world) :
  files w path = None -> read_file_binary path w = (inl FileNotFoundError, w).
Proof.
  intros Hf. unfold read_file_binary, bind, path_exists. cbv beta. now rewrite Hf.
Qed.



Lemma read_file_content_cases (P : platform) (path encoding : string) (w : world)
    (n : node) :
  files w path = Some n ->
  read_file_content P path encoding w =
  (match opens n with
   | inl e => inl e
   | inr raw =>
       match decode P encoding raw with
       | Decoded text => inr text
       | UnicodeDecodeError => inl ValueError_not_text
       | LookupError => inl LookupError_raised
       end
   end, w).
Proof.
  intros Hf. unfold read_file_content, bind at 1, path_exists. rewrite Hf. cbn [negb].
  rewrite (with_open_rb_cases path _ w n Hf).
  destruct (opens n) as [e|raw]; [reflexivity|].
  unfold bind. cbn [read_all open_files files].
  destruct (decode P encoding raw); cbn; now rewrite world_eta.
Qed.


Lemma get_file_info_summary_cases (P : platform) (path : string) (w : world) :
  get_file_info_summary P path w =
  (inr match files w path with
       | None => Missing None
       | Some n =>
           Present (path_name P path) (stat_size n) (lower (path_suffix P path))
                   (isoformat P (stat_mtime n))
                   (match n with RegularFile _ _ _ | Unreadable _ _ _ => true | _ => false end)
                   (match n with Directory _ _ _ => true | _ => false end)
       end, w).
Proof.
  unfold get_file_info_summary, bind, path_exists, path_stat, path_is_file, path_is_dir, ret.
  cbv beta. destruct (files w path) as [[s c m|data c m|s c m|s c m stream]|] eqn:Hf;
    cbn [negb]; cbv beta iota zeta; rewrite ?Hf; reflexivity.
Qed.



End FileExtras.

(** ** The other Word readers *)

Section WordExtras.

Import WordRead WordTools WordChunks.

Lemma blank_rstrip (s : str) : blank (rstrip s) = blank s.
Proof. unfold rstrip. now rewrite blank_rev, blank_lstrip, blank_rev. Qed.

Lemma blank_strip (s : str) : blank (strip s) = blank s.
Proof. unfold strip. now rewrite blank_rstrip, blank_lstrip. Qed.

Lemma simple_paragraphs_fold (ps : list Paragraph) :
  forall start texts,
    fold_left simple_paragraph_step ps texts =
    texts ++ map WordRead.text
                 (map paragraph_record (filter keeps_paragraph (enumerate_from start ps))).
Proof.
  induction ps as [|p ps IH]; intros start texts; cbn [enumerate_from fold_left filter map].
  - now rewrite app_nil_r.
  - unfold simple_paragraph_step at 2, keeps_paragraph at 1. cbn [snd].
    rewrite truthy_strip. rewrite (IH (start + 1)).
    destruct (blank (par_text p)); cbn [negb map]; [reflexivity|].
    now rewrite <- app_assoc.
Qed.

Lemma simple_rows_fold (rs : list (list str)) :
  forall start texts,
    fold_left simple_row_step rs texts =
    texts ++ map (fun ir => row_text (snd ir)) (filter keeps_row (enumerate_from start rs)).
Proof.
  induction rs as [|r rs IH]; intros start texts; cbn [enumerate_from fold_left filter map].
  - now rewrite app_nil_r.
  - unfold simple_row_step at 2, keeps_row at 1. cbn [snd].
    fold (row_text r). rewrite truthy_row_text, (IH (start + 1)).
    destruct (forallb blank r); cbn [negb map]; [reflexivity|].
    now rewrite <- app_assoc.
Qed.

Lemma table_lines_record (it : Z * Table) :
  table_lines (table_record it)
  = lit "=== Table ===" :: map (fun ir => row_text (snd ir)) (kept_rows (snd it)).
Proof.
  unfold table_lines, table_record. cbn [rows]. now rewrite map_map.
Qed.

Lemma simple_tables_fold (tbls : list Table) :
  forall start texts,
    fold_left simple_table_step tbls texts =
    texts ++ flat_map table_lines
                      (map table_record (filter keeps_table (enumerate_from start tbls))).
Proof.
  induction tbls as [|t tbls IH]; intros start texts;
    cbn [enumerate_from fold_left filter map flat_map].
  - now rewrite app_nil_r.
  - unfold simple_table_step at 2, keeps_table at 1. cbn [snd].
    rewrite (simple_rows_fold (table_rows t) 0 []). cbn [app].
    rewrite truthy_map. fold (enumerate (table_rows t)). fold (kept_rows t).
    rewrite (IH (start + 1)).
    destruct (truthy (kept_rows t)); [|reflexivity].
    cbn [map flat_map]. rewrite table_lines_record. cbn [snd].
    rewrite <- !app_assoc. reflexivity.
Qed.

Lemma read_word_text_record (P : platform) (path : string) (doc : Document) :
  read_word_text doc =
  join [LF] (map WordRead.text (out_paragraphs (read_word_document P path doc))
             ++ flat_map table_lines (out_tables (read_word_document P path doc))).
Proof.
  unfold read_word_text, read_word_document, enumerate.
  rewrite paragraphs_fold, tables_fold. cbn zeta. cbn [out_paragraphs out_tables app].
  rewrite (simple_paragraphs_fold (paragraphs doc) 0 []).
  rewrite (simple_tables_fold (tables doc) 0). reflexivity.
Qed.

(** X22.  Whenever [read_word_file] returns a record for a path,
    [read_word_simple] returns a text for it, and that text can be read off
    the record: the texts of the paragraph records, then for each table
    record the line "=== Table ===" and one line for each of its rows (its
    non-empty cells joined with " | "), all joined with newlines. *)
Theorem read_word_simple_from_record (P : platform)
    (docx : option (string -> option Document)) (path : string) (out : WordFileData) :
  read_word_file P docx path = inr out ->
  read_word_simple P docx path
  = inr (join [LF] (map WordRead.text (out_paragraphs out)
                    ++ flat_map table_lines (out_tables out))).
Proof.
  intros Hout. unfold read_word_simple.
  destruct (read_word_file_result P docx path out Hout) as (open_document & doc & -> & Hd & ->).
  unfold read_word_file in Hout. destruct (fs P path); [|discriminate].
  rewrite Hd. now rewrite <- read_word_text_record.
Qed.

Lemma read_word_simple_from_record_witness :
  read_word_simple SampleOffice.office (Some SampleOffice.open_document) "report.docx"
  = inr (lit "Title" ++ [LF] ++ lit "=== Table ===" ++ [LF] ++ lit "a" ++ [LF] ++ lit "b | c").
Proof.
  rewrite (read_word_simple_from_record SampleOffice.office
             (Some SampleOffice.open_document) "report.docx"
             (read_word_document SampleOffice.office "report.docx" SampleOffice.report)
             eq_refl).
  reflexivity.
Defined.


Lemma count_kept_tables (tbls : list Table) :
  forall start,
    len (filter keeps_table (enumerate_from start tbls)) <= len tbls /\
    (len (filter keeps_table (enumerate_from start tbls)) = len tbls
     <-> forallb table_kept tbls = true).
Proof.
  induction tbls as [|t tbls IH]; intros start; cbn [enumerate_from filter forallb].
  - split; [reflexivity|]. now split.
  - destruct (IH (start + 1)) as [Hle Heq].
    change (keeps_table (start, t)) with (table_kept t).
    destruct (table_kept t); cbn [andb]; rewrite !len_cons.
    + split; [lia|]. rewrite <- Heq. split; lia.
    + split; [lia|]. split; [lia|discriminate].
Qed.

Lemma count_kept_paragraphs (ps : list Paragraph) :
  forall start,
    len (filter keeps_paragraph (enumerate_from start ps))
    = len (filter (fun p => truthy (strip (par_text p))) ps).
Proof.
  induction ps as [|p ps IH]; intros start; cbn [enumerate_from filter]; [reflexivity|].
  unfold keeps_paragraph at 1. cbn [snd]. rewrite truthy_strip.
  destruct (blank (par_text p)); cbn [negb]; rewrite ?len_cons, (IH (start + 1)); reflexivity.
Qed.

(** X23.  When [get_word_metadata] and [read_word_file] both return for a
    document, they count the same paragraphs (those that hold more than
    white space), but not the same tables: [get_word_metadata] counts every
    table, [read_word_file] only the tables with a row that is not blank,
    so that its count is the smaller one, and the same exactly when every
    table of the document has such a row. *)
Theorem word_metadata_counts (P : platform)
    (open_document : string -> option (Document * list DocSection)) (path : string)
    (meta : WordMetadata) (out : WordFileData) :
  get_word_metadata P (Some open_document) path = inr meta ->
  read_word_file P (Some (fun p => option_map fst (open_document p))) path = inr out ->
  meta_paragraph_count meta = paragraph_count out /\
  table_count out <= meta_table_count meta /\
  (forall doc sections,
      open_document path = Some (doc, sections) ->
      (table_count out = meta_table_count meta <-> forallb table_kept (tables doc) = true)).
Proof.
  intros Hm Ho. unfold get_word_metadata in Hm. unfold read_word_file in Ho.
  destruct (fs P path); [|discriminate].
  destruct (negb _); [discriminate|].
  destruct (open_document path) as [[doc sections]|]; [|discriminate].
  cbn [option_map fst] in Ho. injection Ho as <-.
  unfold word_metadata in Hm. destruct (any_heading (paragraphs doc)); [|discriminate].
  injection Hm as <-. cbn [meta_paragraph_count meta_table_count].
  unfold read_word_document, enumerate. rewrite paragraphs_fold, tables_fold.
  cbn zeta. cbn [paragraph_count table_count app].
  rewrite !len_map.
  destruct (count_kept_tables (tables doc) 0) as [Hle Heq].
  split; [now rewrite count_kept_paragraphs|]. split; [exact Hle|].
  intros doc' sections' E. injection E as <- <-. exact Heq.
Qed.

Lemma word_metadata_counts_witness :
  exists meta out,
    get_word_metadata SampleOffice.office (Some SampleOffice.open_report) "report.docx"
    = inr meta /\
    read_word_file SampleOffice.office
      (Some (fun p => option_map fst (SampleOffice.open_report p))) "report.docx" = inr out /\
    meta_paragraph_count meta = 1 /\ paragraph_count out = 1 /\
    meta_table_count meta = 2 /\ table_count out = 1.
Proof.
  eexists. eexists.
  split; [reflexivity|]. split; [reflexivity|].
  destruct (word_metadata_counts SampleOffice.office SampleOffice.open_report "report.docx"
              _ _ eq_refl eq_refl) as (H1 & H2 & H3).
  repeat split; reflexivity.
Defined.

End WordExtras.

(** ** The chunks of a Word document *)

Section WordChunkExtras.

Import WordRead WordTools WordChunks.

Variable chunk_size : Z.

Lemma ids_snoc (cs : list WordChunk) (c : WordChunk) :
  map chunk_id cs = map Z.of_nat (seq 0 (List.length cs)) ->
  chunk_id c = len cs ->
  map chunk_id (cs ++ [c]) = map Z.of_nat (seq 0 (List.length (cs ++ [c]))).
Proof.
  intros Hids Hc. rewrite map_app, length_app, seq_app, map_app, <- Hids.
  cbn [List.length seq map Nat.add]. now rewrite Hc.
Qed.

Lemma gathers_init : gathers loop_init [].
Proof.
  constructor; cbn; try reflexivity; [|now left].
  exists []. repeat split; constructor.
Qed.

Lemma gathers_save (st : loop_state) (gathered : str) (default : Z) :
  gathers st gathered -> truthy (current_chunk st) = true ->
  gathers (save st default) gathered.
Proof.
  intros [Hids Hnext (accs & Hcat & Htext & Hcount & Hnb) Hcur] Htruthy.
  assert (Hb : blank (current_chunk st) = false).
  { destruct Hcur as [Hcur|Hcur]; [|exact Hcur]. rewrite Hcur in Htruthy. discriminate. }
  constructor; cbn [save chunks next_id current_chunk].
  - apply ids_snoc; [exact Hids|exact Hnext].
  - rewrite len_app, len_cons, len_nil. lia.
  - exists (accs ++ [current_chunk st]). rewrite concat_app, !map_app. cbn [List.concat map text char_count].
    rewrite !app_nil_r, Hcat, Htext, Hcount. repeat split.
    apply Forall_app. split; [exact Hnb|]. now constructor.
  - now left.
Qed.

Lemma gathers_may_save (st : loop_state) (gathered : str) (default : Z) (piece : str) :
  gathers st gathered ->
  gathers (if must_save chunk_size (current_chunk st) piece then save st default else st)
          gathered.
Proof.
  intros Hg. destruct (must_save chunk_size (current_chunk st) piece) eqn:E; [|exact Hg].
  apply gathers_save; [exact Hg|]. unfold must_save in E. now apply andb_prop in E.
Qed.

Lemma gathers_grow (st : loop_state) (gathered piece : str) (ps : list Z) :
  gathers st gathered -> blank piece = false ->
  gathers (mkLoop (chunks st) (next_id st) (current_chunk st ++ piece) ps)
          (gathered ++ piece).
Proof.
  intros [Hids Hnext (accs & Hcat & Htext & Hcount & Hnb) Hcur] Hb.
  constructor; cbn [chunks next_id current_chunk]; try assumption.
  - exists accs. rewrite app_assoc, Hcat. now repeat split.
  - right. rewrite blank_app, Hb. apply andb_false_r.
Qed.

Lemma paragraph_piece_not_blank (ip : Z * Paragraph) :
  keeps_paragraph ip = true -> blank (paragraph_piece ip) = false.
Proof.
  unfold keeps_paragraph, paragraph_piece. intros H.
  rewrite blank_app, blank_strip. now apply negb_true_iff in H as ->.
Qed.

Lemma paragraph_body_gathers (st : loop_state) (gathered : str) (ip : Z * Paragraph) :
  gathers st gathered ->
  gathers (paragraph_body chunk_size st ip)
          (gathered ++ if keeps_paragraph ip then paragraph_piece ip else []).
Proof.
  intros Hg. destruct ip as [idx p]. unfold paragraph_body.
  rewrite truthy_strip, negb_involutive.
  unfold keeps_paragraph at 1. cbn [snd].
  destruct (blank (par_text p)) eqn:Hb; cbn [negb].
  - now rewrite app_nil_r.
  - apply (gathers_grow _ gathered (strip (par_text p) ++ [LF])).
    + apply gathers_may_save, Hg.
    + apply (paragraph_piece_not_blank (idx, p)). unfold keeps_paragraph. cbn [snd].
      now rewrite Hb.
Qed.

Lemma paragraphs_gather (ps : list Paragraph) :
  forall start st gathered,
    gathers st gathered ->
    gathers (fold_left (paragraph_body chunk_size) (enumerate_from start ps) st)
            (gathered ++ List.concat (map paragraph_piece
                                          (filter keeps_paragraph (enumerate_from start ps)))).
Proof.
  induction ps as [|p ps IH]; intros start st gathered Hg;
    cbn [enumerate_from fold_left filter].
  - cbn. now rewrite app_nil_r.
  - pose proof (paragraph_body_gathers st gathered (start, p) Hg) as H1.
    apply (IH (start + 1)) in H1.
    destruct (keeps_paragraph (start, p)); cbn [map List.concat].
    + now rewrite <- app_assoc in H1.
    + now rewrite app_nil_r in H1.
Qed.

Lemma table_text_fold (rs : list (list str)) :
  forall start table_text,
    fold_left table_text_step rs table_text =
    table_text ++ List.concat (map (fun ir => row_text (snd ir) ++ [LF])
                                   (filter keeps_row (enumerate_from start rs))).
Proof.
  induction rs as [|r rs IH]; intros start table_text;
    cbn [enumerate_from fold_left filter map List.concat].
  - now rewrite app_nil_r.
  - unfold table_text_step at 2, keeps_row at 1. cbn [snd].
    fold (row_text r). rewrite truthy_row_text, (IH (start + 1)).
    destruct (forallb blank r); cbn [negb map List.concat]; [reflexivity|].
    now rewrite <- !app_assoc.
Qed.

Lemma table_text_block (t : Table) :
  fold_left table_text_step (table_rows t) [] = table_block t.
Proof. now rewrite (table_text_fold (table_rows t) 0 []). Qed.

Lemma truthy_table_block (t : Table) : truthy (table_block t) = truthy (kept_rows t).
Proof.
  unfold table_block. destruct (kept_rows t) as [|ir rest]; [reflexivity|].
  cbn [map List.concat]. now destruct (row_text (snd ir)).
Qed.

Lemma table_piece_not_blank (it : Z * Table) : blank (table_piece it) = false.
Proof. unfold table_piece, table_banner. rewrite !blank_app. reflexivity. Qed.

Lemma table_body_spec (st : loop_state) (it : Z * Table) :
  table_body chunk_size st it =
  if keeps_table it then
    let st1 := if must_save chunk_size (current_chunk st) (table_block (snd it))
               then save st 0 else st in
    mkLoop (chunks st1) (next_id st1) (current_chunk st1 ++ table_piece it)
           (current_chunk_paragraphs st1)
  else st.
Proof.
  destruct it as [idx t]. unfold table_body, keeps_table, table_piece. cbn [fst snd].
  now rewrite table_text_block, truthy_table_block.
Qed.

Lemma table_body_gathers (st : loop_state) (gathered : str) (it : Z * Table) :
  gathers st gathered ->
  gathers (table_body chunk_size st it)
          (gathered ++ if keeps_table it then table_piece it else []).
Proof.
  intros Hg. rewrite table_body_spec. destruct (keeps_table it).
  - cbn zeta. apply gathers_grow; [|apply table_piece_not_blank].
    apply gathers_may_save, Hg.
  - now rewrite app_nil_r.
Qed.

Lemma tables_gather (tbls : list Table) :
  forall start st gathered,
    gathers st gathered ->
    gathers (fold_left (table_body chunk_size) (enumerate_from start tbls) st)
            (gathered ++ List.concat (map table_piece
                                          (filter keeps_table (enumerate_from start tbls)))).
Proof.
  induction tbls as [|t tbls IH]; intros start st gathered Hg;
    cbn [enumerate_from fold_left filter].
  - cbn. now rewrite app_nil_r.
  - pose proof (table_body_gathers st gathered (start, t) Hg) as H1.
    apply (IH (start + 1)) in H1.
    destruct (keeps_table (start, t)); cbn [map List.concat].
    + now rewrite <- app_assoc in H1.
    + now rewrite app_nil_r in H1.
Qed.

Lemma run_loops_gathers (doc : Document) :
  gathers (run_loops chunk_size doc) (List.concat (document_pieces doc)).
Proof.
  unfold run_loops, document_pieces, enumerate. rewrite concat_app.
  apply tables_gather.
  apply (paragraphs_gather (paragraphs doc) 0 loop_init [] gathers_init).
Qed.

(** *** The paragraph ranges *)

Lemma sorted_snoc (l : list Z) (x : Z) :
  StronglySorted Z.lt l -> Forall (fun i => i < x) l -> StronglySorted Z.lt (l ++ [x]).
Proof.
  induction 1 as [|y l Hs IH Hy]; intros Hx; cbn [app].
  - constructor; constructor.
  - constructor.
    + apply IH. now apply Forall_inv_tail in Hx.
    + apply Forall_app. split; [exact Hy|]. constructor; [|constructor].
      now apply Forall_inv in Hx.
Qed.

Lemma sorted_first_last (l : list Z) (default : Z) :
  StronglySorted Z.lt l ->
  first_or l default <= last l default /\
  forall i, In i l -> first_or l default <= i <= last l default.
Proof.
  induction 1 as [|y l Hs IH Hy].
  - cbn. split; [lia|]. intros i [].
  - cbn [first_or]. destruct l as [|z l].
    + cbn. split; [lia|]. intros i [<-|[]]. lia.
    + change (last (y :: z :: l) default) with (last (z :: l) default).
      destruct IH as [IH1 IH2]. cbn [first_or] in IH1, IH2.
      assert (Hyz : y < z) by (now apply Forall_inv in Hy).
      split; [lia|]. intros i [<-|Hi]; [lia|].
      specialize (IH2 i Hi). lia.
Qed.

Lemma ranges_init : ranges loop_init 0.
Proof. constructor; cbn; constructor. Qed.

Lemma ranges_save (st : loop_state) (bound default : Z) :
  ranges st bound -> ranges (save st default) bound.
Proof.
  intros [Ho Hs Hb He]. constructor; cbn [save chunks current_chunk_paragraphs current_chunk].
  - apply Forall_app. split; [exact Ho|]. constructor; [|constructor].
    cbn [paragraph_start paragraph_end]. exact (proj1 (sorted_first_last _ default Hs)).
  - constructor.
  - constructor.
  - reflexivity.
Qed.

Lemma ranges_weaken (st : loop_state) (bound bound' : Z) :
  bound <= bound' -> ranges st bound -> ranges st bound'.
Proof.
  intros Hle [Ho Hs Hb He]. constructor; try assumption.
  eapply Forall_impl; [|exact Hb]. cbn. intros; lia.
Qed.

Lemma ranges_may_save (st : loop_state) (bound default : Z) (piece : str) :
  ranges st bound ->
  ranges (if must_save chunk_size (current_chunk st) piece then save st default else st)
         bound.
Proof.
  intros H. destruct (must_save _ _ _); [now apply ranges_save|exact H].
Qed.

Lemma paragraph_body_ranges (st : loop_state) (idx : Z) (p : Paragraph) :
  ranges st idx -> ranges (paragraph_body chunk_size st (idx, p)) (idx + 1).
Proof.
  intros H. unfold paragraph_body.
  destruct (negb (truthy (strip (par_text p)))).
  - apply (ranges_weaken st idx); [lia|exact H].
  - pose proof (ranges_may_save st idx idx (strip (par_text p)) H) as [Ho Hs Hb He].
    constructor; cbn [chunks current_chunk_paragraphs current_chunk].
    + exact Ho.
    + now apply sorted_snoc.
    + apply Forall_app. split.
      * eapply Forall_impl; [|exact Hb]. cbn. intros; lia.
      * constructor; [lia|constructor].
    + intros E. apply app_eq_nil in E. destruct E as [_ E].
      apply app_eq_nil in E. destruct E as [_ E]. discriminate.
Qed.

Lemma table_body_ranges (st : loop_state) (bound : Z) (it : Z * Table) :
  ranges st bound -> ranges (table_body chunk_size st it) bound.
Proof.
  intros H. rewrite table_body_spec. destruct (keeps_table it); [|exact H].
  cbn zeta.
  pose proof (ranges_may_save st bound 0 (table_block (snd it)) H) as [Ho Hs Hb He].
  constructor; cbn [chunks current_chunk_paragraphs current_chunk]; try assumption.
  intros E. apply app_eq_nil in E. destruct E as [_ E].
  unfold table_piece, table_banner in E. discriminate.
Qed.

Lemma covered_save (st : loop_state) (bound default i : Z) :
  ranges st bound -> covered st i -> covered (save st default) i.
Proof.
  intros [Ho Hs Hb He] [(c & Hc & Hi)|Hi]; left.
  - exists c. split; [|exact Hi]. cbn [save chunks]. apply in_or_app. now left.
  - eexists. split; [cbn [save chunks]; apply in_or_app; right; left; reflexivity|].
    cbn [paragraph_start paragraph_end]. exact (proj2 (sorted_first_last _ default Hs) i Hi).
Qed.

Lemma covered_may_save (st : loop_state) (bound default i : Z) (piece : str) :
  ranges st bound -> covered st i ->
  covered (if must_save chunk_size (current_chunk st) piece then save st default else st) i.
Proof.
  intros H Hc. destruct (must_save _ _ _); [now apply (covered_save st bound)|exact Hc].
Qed.

Lemma covered_grow (st : loop_state) (cur : str) (more : list Z) (i : Z) :
  covered st i ->
  covered (mkLoop (chunks st) (next_id st) cur (current_chunk_paragraphs st ++ more)) i.
Proof.
  intros [Hc|Hi]; [now left|right]. cbn [current_chunk_paragraphs].
  apply in_or_app. now left.
Qed.

Lemma paragraph_body_covers (st : loop_state) (idx : Z) (p : Paragraph) :
  ranges st idx ->
  (forall i, covered st i -> covered (paragraph_body chunk_size st (idx, p)) i) /\
  (keeps_paragraph (idx, p) = true -> covered (paragraph_body chunk_size st (idx, p)) idx).
Proof.
  intros H. unfold paragraph_body, keeps_paragraph. cbn [snd].
  rewrite truthy_strip, negb_involutive.
  destruct (blank (par_text p)); cbn [negb].
  - split; [auto|discriminate].
  - split.
    + intros i Hi. apply covered_grow. now apply (covered_may_save st idx).
    + intros _. right. cbn [current_chunk_paragraphs]. apply in_or_app. right. now left.
Qed.

Lemma table_body_covers (st : loop_state) (bound : Z) (it : Z * Table) (i : Z) :
  ranges st bound -> covered st i -> covered (table_body chunk_size st it) i.
Proof.
  intros H Hi. rewrite table_body_spec. destruct (keeps_table it); [|exact Hi].
  cbn zeta.
  pose proof (covered_may_save st bound 0 i (table_block (snd it)) H Hi) as Hc.
  destruct Hc as [Hc|Hc]; [now left|now right].
Qed.

Lemma paragraphs_cover (ps : list Paragraph) :
  forall start st,
    ranges st start ->
    let st' := fold_left (paragraph_body chunk_size) (enumerate_from start ps) st in
    ranges st' (start + len ps) /\
    (forall i, covered st i -> covered st' i) /\
    (forall ip, In ip (enumerate_from start ps) -> keeps_paragraph ip = true ->
                covered st' (fst ip)).
Proof.
  induction ps as [|p ps IH]; intros start st H; cbn [enumerate_from fold_left].
  - cbn zeta. rewrite len_nil, Z.add_0_r. split; [exact H|]. split; [auto|]. intros ip [].
  - destruct (IH (start + 1) _ (paragraph_body_ranges st start p H)) as (H1 & H2 & H3).
    destruct (paragraph_body_covers st start p H) as [H4 H5].
    cbn zeta. rewrite len_cons. split; [|split].
    + now replace (start + (1 + len ps)) with (start + 1 + len ps) by lia.
    + intros i Hi. apply H2, H4, Hi.
    + intros ip [<-|Hin] Hk.
      * apply H2, H5, Hk.
      * now apply H3.
Qed.

Lemma tables_cover (tbls : list Table) :
  forall start st bound,
    ranges st bound ->
    let st' := fold_left (table_body chunk_size) (enumerate_from start tbls) st in
    ranges st' bound /\ (forall i, covered st i -> covered st' i).
Proof.
  induction tbls as [|t tbls IH]; intros start st bound H; cbn [enumerate_from fold_left].
  - split; [exact H|auto].
  - destruct (IH (start + 1) _ bound (table_body_ranges st bound (start, t) H)) as (H1 & H2).
    split; [exact H1|]. intros i Hi. apply H2. now apply (table_body_covers st bound).
Qed.

Lemma run_loops_covers (doc : Document) :
  let st := run_loops chunk_size doc in
  ranges st (len (paragraphs doc)) /\
  forall ip, In ip (enumerate (paragraphs doc)) -> keeps_paragraph ip = true ->
             covered st (fst ip).
Proof.
  unfold run_loops, enumerate.
  destruct (paragraphs_cover (paragraphs doc) 0 loop_init ranges_init) as (H1 & _ & H3).
  cbn zeta in H1, H3. rewrite Z.add_0_l in H1.
  destruct (tables_cover (tables doc) 0 _ _ H1) as (H4 & H5).
  cbn zeta. split; [exact H4|]. intros ip Hin Hk. apply H5. now apply H3.
Qed.

Lemma concat_nil_nonempty {A} (l : list (list A)) :
  Forall (fun x => x <> []) l -> List.concat l = [] -> l = [].
Proof.
  destruct 1 as [|x l Hx _]; [reflexivity|]. cbn [List.concat]. intros E.
  apply app_eq_nil in E. destruct E as [E _]. contradiction.
Qed.

Lemma document_pieces_nonempty (doc : Document) :
  Forall (fun piece => piece <> []) (document_pieces doc).
Proof.
  unfold document_pieces. apply Forall_app. split; apply Forall_forall; intros x Hx;
    apply in_map_iff in Hx; destruct Hx as (i & <- & _).
  - unfold paragraph_piece. intros E. apply app_eq_nil in E. destruct E as [_ E]. discriminate.
  - unfold table_piece, table_banner. discriminate.
Qed.

(** What the chunks returned have, given what the loops keep true. *)
Lemma chunks_of_state (doc : Document) :
  let st := run_loops chunk_size doc in
  let cs := chunks_of_document doc chunk_size in
  exists st', chunks st' = cs /\ current_chunk st' = [] /\
              gathers st' (List.concat (document_pieces doc)) /\
              ranges st' (len (paragraphs doc)) /\
              forall i, covered st i -> covered st' i.
Proof.
  intros st cs. subst cs. unfold chunks_of_document. fold st.
  pose proof (run_loops_gathers doc) as Hg. fold st in Hg.
  destruct (run_loops_covers doc) as [Hr _]. fold st in Hr.
  rewrite truthy_strip. destruct (blank (current_chunk st)) eqn:Hb; cbn [negb].
  - exists st. assert (E : current_chunk st = []).
    { destruct (current_not_blank _ _ Hg) as [E|E]; [exact E|congruence]. }
    split; [reflexivity|]. split; [exact E|]. split; [exact Hg|]. split; [exact Hr|auto].
  - exists (save st 0). split; [reflexivity|]. split; [reflexivity|]. split; [|split].
    + apply gathers_save; [exact Hg|]. destruct (current_chunk st); [discriminate|reflexivity].
    + now apply ranges_save.
    + intros i. now apply (covered_save st (len (paragraphs doc))).
Qed.

(** X24.  The chunks [extract_word_to_chunks] builds from a document are
    numbered from zero, and they hold the whole text of the document: the
    kept paragraphs (each with a newline), then the kept tables (each under
    its banner, a line for each row), are cut into consecutive segments, a
    chunk holding the stripped text of its segment and counting its
    characters.  No chunk is empty, the paragraph range of a chunk is never
    reversed, every paragraph that holds more than white space lies in the
    range of some chunk, and no chunk is returned only when the document
    has no such paragraph and no table with text. *)
Theorem word_chunks_hold_the_document (doc : Document) :
  let cs := chunks_of_document doc chunk_size in
  map chunk_id cs = map Z.of_nat (seq 0 (List.length cs)) /\
  (exists segments,
      List.concat segments = List.concat (document_pieces doc) /\
      map text cs = map strip segments /\
      map char_count cs = map len segments) /\
  (forall c, In c cs -> text c <> [] /\ paragraph_start c <= paragraph_end c) /\
  (forall ip, In ip (enumerate (paragraphs doc)) -> keeps_paragraph ip = true ->
              exists c, In c cs /\ paragraph_start c <= fst ip <= paragraph_end c) /\
  (cs = [] <-> document_pieces doc = []).
Proof.
  intros cs.
  destruct (chunks_of_state doc) as (st' & Hcs & Hcur & Hg & Hr & Hcov).
  fold cs in Hcs. destruct (run_loops_covers doc) as [_ Hall].
  destruct Hg as [Hids Hnext (accs & Hcat & Htext & Hcount & Hnb) _].
  rewrite Hcur, app_nil_r in Hcat. rewrite Hcs in Hids, Htext, Hcount.
  split; [exact Hids|]. split; [now exists accs|]. split; [|split].
  - intros c Hc. split.
    + assert (Hin : In (text c) (map strip accs)) by (rewrite <- Htext; now apply in_map).
      apply in_map_iff in Hin. destruct Hin as (a & <- & Ha).
      rewrite Forall_forall in Hnb. apply truthy_true.
      now rewrite truthy_strip, (Hnb a Ha).
    + pose proof (ordered_chunks _ _ Hr) as Ho. rewrite Hcs, Forall_forall in Ho.
      now apply Ho.
  - intros ip Hin Hk. destruct (Hcov _ (Hall ip Hin Hk)) as [(c & Hc & Hi)|Hi].
    + exists c. rewrite <- Hcs. now split.
    + rewrite (current_empty _ _ Hr Hcur) in Hi. destruct Hi.
  - assert (Hlen : List.length cs = List.length accs).
    { rewrite <- (length_map text cs), Htext. apply length_map. }
    split.
    + intros E. rewrite E in Hlen. destruct accs; [|discriminate].
      apply (concat_nil_nonempty _ (document_pieces_nonempty doc)). now rewrite <- Hcat.
    + intros E. rewrite E in Hcat. cbn in Hcat.
      assert (Ha : accs = []).
      { apply concat_nil_nonempty; [|exact Hcat].
        eapply Forall_impl; [|exact Hnb]. cbn. intros a Hb ->. discriminate. }
      rewrite Ha in Hlen. now destruct cs.
Qed.

End WordChunkExtras.

(** ** The other Excel readers *)

Section ExcelExtras.

Import ExcelRead ExcelTools ExcelChunks.

Lemma str_eqb_eq (a b : str) : str_eqb a b = true <-> a = b.
Proof.
  revert b. induction a as [|x a IH]; intros [|y b]; cbn [str_eqb];
    try (split; [discriminate|discriminate]).
  - now split.
  - rewrite andb_true_iff, N.eqb_eq, IH. split.
    + now intros [-> ->].
    + intros E. injection E as -> ->. now split.
Qed.

Lemma read_sheet_In (wb : workbook) (name : str) (df : DataFrame) :
  NoDup (names wb) -> In (name, df) wb -> read_sheet wb name = Some df.
Proof.
  unfold read_sheet, names. induction wb as [|[n d] wb IH]; intros Hnd Hin; [destruct Hin|].
  cbn [map fst] in Hnd. inversion Hnd as [|? ? Hn Hnd']; subst. cbn [find fst].
  destruct (str_eqb n name) eqn:E.
  - apply str_eqb_eq in E. subst n. destruct Hin as [Hin|Hin]; [now injection Hin as <-|].
    exfalso. apply Hn. change name with (fst (name, df)). now apply in_map.
  - destruct Hin as [Hin|Hin]; [|now apply IH].
    injection Hin as -> ->.
    assert (E' : str_eqb name name = true) by now apply str_eqb_eq.
    congruence.
Qed.

Lemma read_sheet_found (wb : workbook) (name : str) (df : DataFrame) :
  read_sheet wb name = Some df -> In (name, df) wb.
Proof.
  unfold read_sheet. destruct (find _ wb) as [[n d]|] eqn:E; [|discriminate].
  intros H. injection H as <-. apply find_some in E. destruct E as [Hin E].
  cbn [fst] in E. apply str_eqb_eq in E. now subst n.
Qed.

Lemma read_sheet_missing (wb : workbook) (name : str) :
  read_sheet wb name = None -> ~ In name (names wb).
Proof.
  unfold read_sheet, names. destruct (find _ wb) as [s|] eqn:E; [discriminate|].
  intros _ Hin. apply in_map_iff in Hin. destruct Hin as (s & <- & Hs).
  pose proof (find_none _ _ E s Hs) as Hn. cbn beta in Hn.
  assert (E' : str_eqb (fst s) (fst s) = true) by now apply str_eqb_eq.
  congruence.
Qed.

Lemma dict_set_fresh {V} (d : list (str * V)) (key : str) (value : V) :
  ~ In key (map fst d) -> dict_set d key value = d ++ [(key, value)].
Proof.
  induction d as [|[k v] d IH]; intros Hn; cbn [dict_set app]; [reflexivity|].
  cbn [map fst] in Hn. destruct (str_eqb k key) eqn:E.
  - apply str_eqb_eq in E. subst k. exfalso. apply Hn. now left.
  - rewrite IH; [reflexivity|]. intros Hin. apply Hn. now right.
Qed.

Lemma sheet_step_raised (wb : workbook) (l : list str) :
  fold_left (sheet_step wb) l None = None.
Proof. induction l as [|s l IH]; [reflexivity|exact IH]. Qed.

(** With sheet names that differ, the dictionary of the sheets lists the
    sheets of the workbook in order, if every one of them gets a record. *)
Lemma sheets_fold (wb : workbook) (l : workbook) :
  forall d,
    (forall s, In s l -> read_sheet wb (fst s) = Some (snd s)) ->
    NoDup (map fst d ++ map fst l) ->
    fold_left (sheet_step wb) (map fst l) (Some d) =
    match records l with
    | Some ds => Some (d ++ ds)
    | None => None
    end.
Proof.
  induction l as [|s l IH]; intros d Hread Hnd; cbn [map fold_left records validated].
  - now rewrite app_nil_r.
  - unfold sheet_step at 2. rewrite (Hread s (or_introl eq_refl)).
    unfold record_of at 1.
    destruct (extracted (snd s)) as [data|]; [|apply sheet_step_raised].
    cbn [map] in Hnd. rewrite dict_set_fresh.
    + rewrite IH.
      * fold (records l). destruct (records l); [|reflexivity].
        now rewrite <- app_assoc.
      * intros s' Hs'. apply Hread. now right.
      * rewrite map_app. cbn [map fst]. now rewrite <- app_assoc.
    + intros Hin. apply NoDup_remove_2 in Hnd. apply Hnd. apply in_or_app. now left.
Qed.

Lemma workbook_reads (wb : workbook) :
  NoDup (names wb) -> forall s, In s wb -> read_sheet wb (fst s) = Some (snd s).
Proof. intros Hnd [n d] Hin. now apply read_sheet_In. Qed.

Lemma all_sheets (wb : workbook) :
  NoDup (names wb) -> sheets_of wb None = records wb.
Proof.
  intros Hnd. unfold sheets_of, asked, names.
  rewrite (sheets_fold wb wb [] (workbook_reads wb Hnd) Hnd).
  now destruct (records wb).
Qed.

Lemma extracted_inr (df : DataFrame) (d : ExcelSheetData) :
  extracted df = Some d <-> _extract_dataframe_text df = inr d.
Proof.
  unfold extracted. destruct (_extract_dataframe_text df); split; congruence.
Qed.

(** The records of the sheets, when every sheet has one. *)
Lemma records_spec (l : workbook) (ds : list (str * ExcelSheetData)) :
  records l = Some ds ->
  map fst ds = map fst l /\
  map (fun entry => inr (snd entry)) ds = map (fun s => _extract_dataframe_text (snd s)) l /\
  (forall name df, In (name, df) l ->
                   exists d, extracted df = Some d /\ In (name, d) ds).
Proof.
  revert ds. induction l as [|[n df] l IH]; intros ds; cbn [records validated].
  - intros H. injection H as <-. repeat split. intros ? ? [].
  - unfold record_of at 1. cbn [fst snd].
    destruct (extracted df) as [d|] eqn:E; [|discriminate]. fold (records l).
    destruct (records l) as [ds'|]; [|discriminate].
    intros H. injection H as <-. destruct (IH ds' eq_refl) as (H1 & H2 & H3).
    cbn [map fst snd]. rewrite H1, H2. apply extracted_inr in E. rewrite E.
    split; [reflexivity|]. split; [reflexivity|].
    intros name df' [Hin|Hin].
    + injection Hin as <- <-. exists d. apply extracted_inr in E. split; [assumption|now left].
    + destruct (H3 name df' Hin) as (d' & Hd & Hi). exists d'. split; [assumption|now right].
Qed.

(** X26.  For a workbook whose sheet names differ, the record
    [read_excel_file] returns without a sheet name lists every sheet of
    the workbook, in order; an empty sheet name gives the same record,
    being taken as none; and for any other name, the call either returns
    a record with that one sheet, whose data is the one listed under that
    name in the record of all sheets, or raises the [ValueError] of its
    [except] clause, which it does exactly when the workbook has no sheet
    of that name. *)
Theorem read_excel_file_sheets (P : platform) (open_workbook : string -> option workbook)
    (path : string) (wb : workbook) (all : ExcelFileData) :
  open_workbook path = Some wb ->
  NoDup (names wb) ->
  read_excel_file P (Some open_workbook) path None = inr all ->
  sheet_names all = names wb /\
  sheet_count all = len wb /\
  map (fun entry => inr (snd entry)) (sheets all)
  = map (fun s => _extract_dataframe_text (snd s)) wb /\
  read_excel_file P (Some open_workbook) path (Some []) = inr all /\
  (forall name,
      truthy name = true ->
      match read_excel_file P (Some open_workbook) path (Some name) with
      | inr one => exists d, sheets one = [(name, d)] /\ sheet_count one = 1 /\
                             In (name, d) (sheets all)
      | inl e => e = ValueError_raised /\ ~ In name (sheet_names all)
      end).
Proof.
  intros Hopen Hnd. unfold read_excel_file.
  destruct (fs P path); [|discriminate].
  destruct (negb _); [discriminate|].
  rewrite Hopen.
  change (sheets_of wb (Some [])) with (sheets_of wb None).
  rewrite (all_sheets wb Hnd).
  destruct (records wb) as [ds|] eqn:Hds; [|discriminate].
  destruct (records_spec wb ds Hds) as (H1 & H2 & H3).
  intros Hall. injection Hall as <-.
  cbn [sheet_names sheet_count sheets].
  split; [exact H1|]. split.
  { unfold len. f_equal. rewrite <- (length_map fst ds), H1. apply length_map. }
  split; [exact H2|]. split; [reflexivity|].
  intros name Hname. unfold sheets_of, asked. rewrite Hname.
  destruct (read_sheet wb name) as [df|] eqn:E.
  - apply read_sheet_found in E. destruct (H3 name df E) as (d & Hd & Hin).
    rewrite Hd. exists d. cbn [sheets sheet_count].
    split; [reflexivity|]. split; [reflexivity|assumption].
  - split; [reflexivity|]. rewrite H1. now apply read_sheet_missing.
Qed.

Lemma read_excel_file_sheets_witness :
  exists all,
    read_excel_file SampleOffice.office (Some SampleOffice.open_ledger) "ledger.xlsx" None
    = inr all /\
    sheet_names all = [lit "Q1"; lit "Q2"] /\
    sheet_count all = 2.
Proof.
  destruct (read_excel_file SampleOffice.office (Some SampleOffice.open_ledger)
              "ledger.xlsx" None) as [e|all] eqn:E; [discriminate|].
  exists all. split; [reflexivity|].
  assert (Hnd : NoDup (names SampleOffice.ledger)).
  { repeat constructor; cbn; intuition discriminate. }
  destruct (read_excel_file_sheets SampleOffice.office SampleOffice.open_ledger
              "ledger.xlsx" SampleOffice.ledger all eq_refl Hnd E) as (H1 & H2 & _).
  split; [exact H1|exact H2].
Defined.

(** *** The simple text *)

Lemma reads_alike_text (c : cell) :
  reads_alike c = true -> array_str (fillna c) = cell_text c.
Proof.
  destruct c as [| |v|scalar element]; cbn [reads_alike fillna array_str cell_text];
    try discriminate; try reflexivity.
  intros E. apply str_eqb_eq in E. now subst.
Qed.

Lemma reads_alike_at (row : list cell) (j : nat) :
  forallb reads_alike row = true -> reads_alike (at_column row j) = true.
Proof.
  intros H. unfold at_column. destruct (nth_in_or_default j row NaN) as [Hin|E].
  - rewrite forallb_forall in H. now apply H.
  - now rewrite E.
Qed.

Lemma row_values_cells (cols : list label) (row : list cell) :
  forallb reads_alike row = true ->
  row_values cols row = map snd (nonblank_cells cols row).
Proof.
  intros Hrow. unfold row_values, filled_row, nonblank_cells, labelled_cells.
  induction (positions 0 cols) as [|jc l IH]; [reflexivity|].
  cbn [map filter snd]. rewrite truthy_strip.
  rewrite (reads_alike_text _ (reads_alike_at row (fst jc) Hrow)).
  destruct (blank (cell_text (at_column row (fst jc)))); cbn [negb map snd]; now rewrite IH.
Qed.

Lemma lines_fold (cols : list label) (rows : list (list cell)) :
  forallb (forallb reads_alike) rows = true ->
  forall start lines,
    fold_left (line_step cols) rows lines =
    lines ++ map (fun ir => join (lit " | ") (map snd (nonblank_cells cols (snd ir))))
                 (filter (nonempty_row cols) (enumerate_from start rows)).
Proof.
  induction rows as [|row rows IH]; intros Hrows start lines;
    cbn [enumerate_from fold_left filter map].
  - now rewrite app_nil_r.
  - cbn [forallb] in Hrows. apply andb_true_iff in Hrows. destruct Hrows as [Hrow Hrows].
    unfold line_step at 2, nonempty_row at 1. cbn [snd].
    rewrite (row_values_cells cols row Hrow), truthy_map, (IH Hrows (start + 1)).
    destruct (truthy (nonblank_cells cols row)); [|reflexivity].
    cbn [map snd]. now rewrite <- app_assoc.
Qed.

(** The simple text of a frame whose cells read alike is made of the rows
    of its record. *)
Lemma dataframe_to_text_lines (df : DataFrame) (d : ExcelSheetData) :
  plain df = true ->
  _extract_dataframe_text df = inr d ->
  _dataframe_to_text df = sheet_lines d.
Proof.
  intros Hplain Hd. destruct (extract_cases df) as [(names & Hc & E)|[_ E]];
    [|rewrite E in Hd; discriminate].
  rewrite E, extract_named in Hd. injection Hd as <-.
  unfold _dataframe_to_text, sheet_lines. cbn [rows].
  rewrite (lines_fold (columns df) (ExcelRead.values df) Hplain 0 []). cbn [app].
  rewrite Hc, (filter_ext _ _ (nonempty_row_map Name names)), map_map.
  unfold enumerate. f_equal. apply map_ext. intros ir.
  unfold row_record. cbn [data]. now rewrite nonblank_cells_map, map_map.
Qed.

Lemma sheet_text_step_raised (wb : workbook) (l : list str) :
  fold_left (sheet_text_step wb) l None = None.
Proof. induction l as [|s l IH]; [reflexivity|exact IH]. Qed.

Lemma sheet_texts_fold (wb : workbook) (l : workbook) :
  forall texts ds,
    (forall s, In s l -> read_sheet wb (fst s) = Some (snd s)) ->
    forallb (fun s => plain (snd s)) l = true ->
    records l = Some ds ->
    fold_left (sheet_text_step wb) (map fst l) (Some texts) =
    Some (texts ++ map sheet_block ds).
Proof.
  induction l as [|s l IH]; intros texts ds Hread Hplain; cbn [map fold_left records validated].
  - intros H. injection H as <-. now rewrite app_nil_r.
  - cbn [forallb] in Hplain. apply andb_true_iff in Hplain. destruct Hplain as [Hs Hl].
    unfold record_of at 1.
    destruct (extracted (snd s)) as [d|] eqn:E; [|discriminate]. fold (records l).
    destruct (records l) as [ds'|] eqn:E'; [|discriminate].
    intros H. injection H as <-.
    unfold sheet_text_step at 2. rewrite (Hread s (or_introl eq_refl)).
    rewrite (IH _ ds') by (try reflexivity; try assumption; intros s' Hs'; apply Hread; now right).
    rewrite <- app_assoc. unfold sheet_block at 2. cbn [fst snd app map].
    apply extracted_inr in E. now rewrite (dataframe_to_text_lines (snd s) d Hs E).
Qed.


End ExcelExtras.

(** ** The chunks of a workbook *)

Section ExcelChunkExtras.

Import ExcelRead ExcelTools ExcelChunks.

Variable chunk_size : Z.

Lemma spaced_app (g g' : list str) : spaced (g ++ g') = spaced g ++ spaced g'.
Proof. unfold spaced. now rewrite map_app, concat_app. Qed.

Lemma spaced_one (t : str) : spaced [t] = t ++ [SP].
Proof. unfold spaced. cbn [map List.concat]. now rewrite app_nil_r. Qed.

Lemma len_spaced (g : list str) : len (spaced g) = len (acc_text g).
Proof.
  unfold spaced, acc_text. induction g as [|t g IH]; cbn [map List.concat]; [reflexivity|].
  rewrite !len_app, IH. reflexivity.
Qed.

Lemma truthy_spaced (g : list str) : truthy (spaced g) = truthy g.
Proof. destruct g as [|t g]; [reflexivity|]. unfold spaced. cbn. now destruct t. Qed.

Lemma blank_spaced (g : list str) : blank (spaced g) = forallb blank g.
Proof.
  unfold spaced. induction g as [|t g IH]; cbn [map List.concat forallb]; [reflexivity|].
  rewrite !blank_app, IH. cbn [blank forallb]. now rewrite andb_true_r.
Qed.

(** The chunker of rows saves where the chunker of lines does under a
    budget one larger: its test leaves the separator out. *)
Lemma must_save_flush (acc : list str) (t : str) :
  must_save chunk_size (spaced acc) t
  = TextRead.must_flush (chunk_size + 1) (acc_text acc) (t ++ [LF]).
Proof.
  unfold must_save, TextRead.must_flush.
  rewrite len_spaced, truthy_spaced, truthy_acc_text, len_app. f_equal.
  change (len [LF]) with 1. rewrite !Z.gtb_ltb.
  destruct (Z.ltb_spec chunk_size (len (acc_text acc) + len t));
    destruct (Z.ltb_spec (chunk_size + 1) (len (acc_text acc) + (len t + 1)));
    try reflexivity; lia.
Qed.

Lemma indices_snoc (lo : Z) (n : nat) :
  indices lo (S n) = indices lo n ++ [lo + Z.of_nat n].
Proof. unfold indices. now rewrite seq_S, map_app. Qed.

Lemma indices_cons (lo : Z) (n : nat) : indices lo (S n) = lo :: indices (lo + 1) n.
Proof.
  unfold indices. cbn [seq map]. rewrite <- seq_shift, map_map. f_equal; [cbn; lia|].
  apply map_ext. intros k. lia.
Qed.

Lemma indices_app (lo : Z) (n m : nat) :
  indices lo (n + m) = indices lo n ++ indices (lo + Z.of_nat n) m.
Proof.
  revert lo. induction n as [|n IH]; intros lo.
  - cbn [Nat.add]. unfold indices at 2. cbn [seq map app]. f_equal. cbn. lia.
  - cbn [Nat.add]. rewrite !indices_cons, IH. cbn [app]. do 3 f_equal. lia.
Qed.

Lemma indices_first (lo : Z) (n : nat) (default : Z) :
  first_or (indices lo (S n)) default = lo.
Proof. now rewrite indices_cons. Qed.

Lemma indices_last (lo : Z) (n : nat) (default : Z) :
  last (indices lo (S n)) default = lo + Z.of_nat n.
Proof. rewrite indices_snoc. apply last_last. Qed.

Lemma chunks_of_runs_app (sheet : str) (gs gs' : list (list str)) :
  forall cid lo,
    chunks_of_runs sheet cid lo (gs ++ gs') =
    chunks_of_runs sheet cid lo gs
      ++ chunks_of_runs sheet (cid + len gs) (lo + len (List.concat gs)) gs'.
Proof.
  induction gs as [|g gs IH]; intros cid lo; cbn [chunks_of_runs app List.concat].
  - rewrite !len_nil, !Z.add_0_r. reflexivity.
  - rewrite IH, len_cons, len_app, !Z.add_assoc. reflexivity.
Qed.

Lemma length_chunks_of_runs (sheet : str) (gs : list (list str)) :
  forall cid lo, List.length (chunks_of_runs sheet cid lo gs) = List.length gs.
Proof.
  induction gs as [|g gs IH]; intros cid lo; cbn [chunks_of_runs List.length];
    [reflexivity|]. now rewrite IH.
Qed.

Lemma len_chunks_of_runs (sheet : str) (gs : list (list str)) (cid lo : Z) :
  len (chunks_of_runs sheet cid lo gs) = len gs.
Proof. unfold len. now rewrite length_chunks_of_runs. Qed.

Lemma saved_chunk (sheet : str) (st : loop_state) (acc : list str) (lo default : Z) :
  acc <> [] ->
  current_chunk st = spaced acc ->
  current_chunk_rows st = indices lo (List.length acc) ->
  chunk_of sheet st default
  = mkExcelChunk (next_id st) sheet lo (lo + len acc - 1) (strip (spaced acc))
                 (len (spaced acc)).
Proof.
  intros Hne Hcur Hrows. unfold chunk_of. rewrite Hcur, Hrows.
  destruct acc as [|t acc]; [congruence|]. cbn [List.length].
  rewrite indices_first, indices_last. f_equal. unfold len. cbn [List.length]. lia.
Qed.

Lemma row_body_save (sheet : str) (cols : list label) (st : loop_state) (index : Z)
    (row : list cell) :
  must_save chunk_size (current_chunk st) (row_text_of cols row) = true ->
  row_body chunk_size sheet cols st (index, row) =
  mkLoop (chunks st ++ [chunk_of sheet st index]) (next_id st + 1)
         (row_text_of cols row ++ [SP]) [index].
Proof. intros H. unfold row_body. now rewrite H. Qed.

Lemma row_body_keep (sheet : str) (cols : list label) (st : loop_state) (index : Z)
    (row : list cell) :
  must_save chunk_size (current_chunk st) (row_text_of cols row) = false ->
  row_body chunk_size sheet cols st (index, row) =
  mkLoop (chunks st) (next_id st) (current_chunk st ++ row_text_of cols row ++ [SP])
         (current_chunk_rows st ++ [index]).
Proof. intros H. unfold row_body. now rewrite H. Qed.

(** The loop over the rows of a sheet, started in any state whose
    accumulator holds the run [acc], saves the chunks of the runs that
    [group_lines] makes of the row texts. *)
Lemma rows_loop_runs (sheet : str) (cols : list label) (rows : list (list cell)) :
  forall (st : loop_state) (acc : list str) (gs : list (list str)) (a : list str) (lo : Z),
    current_chunk st = spaced acc ->
    current_chunk_rows st = indices lo (List.length acc) ->
    group_lines (chunk_size + 1) acc (map (row_text_of cols) rows) = (gs, a) ->
    let st' := fold_left (row_body chunk_size sheet cols)
                         (enumerate_from (lo + len acc) rows) st in
    chunks st' = chunks st ++ chunks_of_runs sheet (next_id st) lo gs /\
    next_id st' = next_id st + len gs /\
    current_chunk st' = spaced a /\
    current_chunk_rows st' = indices (lo + len (List.concat gs)) (List.length a).
Proof.
  induction rows as [|row rest IH]; intros st acc gs a lo Hcur Hrows Hg;
    cbn [map group_lines] in Hg.
  - injection Hg as <- <-. cbn [enumerate_from fold_left chunks_of_runs List.concat].
    rewrite app_nil_r, len_nil, !Z.add_0_r. now repeat split.
  - cbn [enumerate_from fold_left].
    rewrite <- must_save_flush, <- Hcur in Hg.
    destruct (must_save chunk_size (current_chunk st) (row_text_of cols row)) eqn:Hf.
    + destruct (group_lines (chunk_size + 1) [row_text_of cols row]
                            (map (row_text_of cols) rest)) as [gs' a'] eqn:Hg'.
      injection Hg as <- <-.
      assert (Hne : acc <> []).
      { unfold must_save in Hf. apply andb_prop in Hf. destruct Hf as [_ Hf].
        rewrite Hcur, truthy_spaced in Hf. now apply truthy_true. }
      rewrite (row_body_save sheet cols st _ row Hf).
      rewrite (saved_chunk sheet st acc lo (lo + len acc) Hne Hcur Hrows).
      match goal with |- context [fold_left _ _ ?s] => set (st1 := s) end.
      specialize (IH st1 [row_text_of cols row] gs' a' (lo + len acc)).
      cbn [st1 chunks next_id current_chunk current_chunk_rows] in IH.
      rewrite spaced_one in IH. specialize (IH eq_refl).
      assert (Hone : [lo + len acc] = indices (lo + len acc) (List.length [row_text_of cols row])).
      { unfold indices. cbn [List.length seq map]. f_equal. cbn. lia. }
      specialize (IH Hone Hg').
      replace (lo + len acc + len [row_text_of cols row]) with (lo + len acc + 1) in IH
        by (rewrite len_cons, len_nil; lia).
      destruct IH as (H1 & H2 & H3 & H4).
      rewrite H1, H2, H3, H4, <- app_assoc. cbn [chunks_of_runs app List.concat].
      rewrite len_app, len_cons.
      repeat split; try lia. f_equal. lia.
    + rewrite (row_body_keep sheet cols st _ row Hf).
      match goal with |- context [fold_left _ _ ?s] => set (st1 := s) end.
      specialize (IH st1 (acc ++ [row_text_of cols row]) gs a lo).
      cbn [st1 chunks next_id current_chunk current_chunk_rows] in IH.
      rewrite spaced_app, spaced_one, Hcur in IH. specialize (IH eq_refl).
      assert (Hmore : current_chunk_rows st ++ [lo + len acc]
                      = indices lo (List.length (acc ++ [row_text_of cols row]))).
      { rewrite length_app. cbn [List.length]. rewrite Nat.add_1_r, indices_snoc, Hrows.
        reflexivity. }
      specialize (IH Hmore Hg).
      replace (lo + len (acc ++ [row_text_of cols row])) with (lo + len acc + 1) in IH
        by (rewrite len_app, len_cons, len_nil; lia).
      exact IH.
Qed.

(** What the rows of one sheet add to the chunks. *)
Lemma sheet_loop_runs (sheet : str) (df : DataFrame) (done : list ExcelChunk) (cid : Z) :
  sheet_loop chunk_size sheet df (done, cid) =
  (done ++ chunks_of_runs sheet cid 0 (emitted_groups (row_texts df) (chunk_size + 1)),
   cid + len (emitted_groups (row_texts df) (chunk_size + 1))).
Proof.
  unfold sheet_loop, emitted_groups, enumerate, row_texts. cbn [fst snd].
  destruct (group_lines (chunk_size + 1) [] (map (row_text_of (columns df)) (values df)))
    as [gs a] eqn:Hg.
  pose proof (rows_loop_runs sheet (columns df) (values df) (mkLoop done cid [] []) [] gs a 0
                eq_refl eq_refl Hg) as H.
  cbn zeta in H. change (0 + len (@nil str)) with 0 in H.
  cbn [chunks next_id] in H. destruct H as (H1 & H2 & H3 & H4).
  rewrite truthy_strip, H3, blank_spaced, blank_acc_text.
  destruct (forallb blank a) eqn:Hb; cbn [negb].
  - now rewrite H1, H2.
  - assert (Hne : a <> []) by (intros ->; discriminate).
    rewrite (saved_chunk sheet _ a (0 + len (List.concat gs)) 0 Hne H3 H4).
    rewrite chunks_of_runs_app, H1, H2, len_app. cbn [chunks_of_runs].
    rewrite <- app_assoc. f_equal. rewrite len_cons, len_nil. lia.
Qed.

(** The chunks of runs are the chunks of lines, read as chunks of rows. *)
Lemma runs_as_lines (sheet : str) (first_id : Z) (texts : list str) (gs : list (list str)) :
  forall (before after : list str) (cid : Z),
    Forall (fun g => g <> []) gs ->
    texts = before ++ List.concat gs ++ after ->
    map (of_lines sheet first_id texts) (chunks_of_groups cid (len before) gs)
    = chunks_of_runs sheet (first_id + cid) (len before) gs.
Proof.
  induction gs as [|g gs IH]; intros before after cid Hne Htexts;
    cbn [chunks_of_groups chunks_of_runs map]; [reflexivity|].
  inversion Hne as [|? ? Hg Hne']; subst.
  cbn [List.concat]. rewrite <- app_assoc.
  f_equal.
  - unfold of_lines. cbn [TextRead.chunk_id TextRead.line_start TextRead.line_end
                            TextRead.char_count].
    rewrite (slice_middle before g (List.concat gs ++ after) Hg), len_spaced. reflexivity.
  - specialize (IH (before ++ g) after (cid + 1) Hne').
    rewrite len_app in IH. rewrite Z.add_assoc in IH. rewrite <- IH.
    + cbn [List.concat]. now rewrite <- !app_assoc.
    + cbn [List.concat]. now rewrite <- !app_assoc.
Qed.

Lemma sheet_chunks_runs (sheet : str) (first_id : Z) (df : DataFrame) :
  sheet_chunks sheet first_id df chunk_size
  = chunks_of_runs sheet first_id 0 (emitted_groups (row_texts df) (chunk_size + 1)).
Proof.
  unfold sheet_chunks. rewrite chunks_of_lines_groups.
  destruct (emitted_groups_spec (chunk_size + 1) (row_texts df))
    as (tail & Hc & _ & _ & Hn & _).
  pose proof (runs_as_lines sheet first_id (row_texts df) _ [] tail 0 Hn (eq_sym Hc)) as H.
  change (len (@nil str)) with 0 in H. now rewrite Z.add_0_r in H.
Qed.

(** The loop over the sheets. *)
Lemma workbook_fold (wb : workbook) (l : workbook) :
  forall done cid,
    (forall s, In s l -> read_sheet wb (fst s) = Some (snd s)) ->
    fold_left (sheet_body chunk_size wb) (map fst l) (Some (done, cid)) =
    Some (done ++ workbook_chunks cid l chunk_size,
          cid + len (workbook_chunks cid l chunk_size)).
Proof.
  induction l as [|[sheet df] l IH]; intros done cid Hread;
    cbn [map fold_left workbook_chunks fst].
  - now rewrite app_nil_r, len_nil, Z.add_0_r.
  - unfold sheet_body at 2.
    pose proof (Hread (sheet, df) (or_introl eq_refl)) as Hs. cbn [fst snd] in Hs.
    rewrite Hs, sheet_loop_runs, IH by (intros s Hin; apply Hread; now right).
    cbn zeta. rewrite sheet_chunks_runs, len_app, <- app_assoc.
    rewrite (len_chunks_of_runs sheet). f_equal. f_equal. lia.
Qed.

Lemma ids_chunks_of_runs (sheet : str) (gs : list (list str)) :
  forall cid lo,
    map chunk_id (chunks_of_runs sheet cid lo gs) = indices cid (List.length gs).
Proof.
  induction gs as [|g gs IH]; intros cid lo; cbn [chunks_of_runs map List.length];
    [reflexivity|]. now rewrite indices_cons, IH.
Qed.

Lemma ids_workbook_chunks (wb : workbook) :
  forall cid,
    map chunk_id (workbook_chunks cid wb chunk_size)
    = indices cid (List.length (workbook_chunks cid wb chunk_size)).
Proof.
  induction wb as [|[sheet df] wb IH]; intros cid; cbn [workbook_chunks]; [reflexivity|].
  cbn zeta. rewrite map_app, length_app, indices_app, IH. f_equal.
  rewrite sheet_chunks_runs, ids_chunks_of_runs, length_chunks_of_runs. reflexivity.
Qed.

Lemma ranges_chunks_of_runs (sheet : str) (gs : list (list str)) :
  forall cid lo c,
    Forall (fun g => g <> []) gs ->
    In c (chunks_of_runs sheet cid lo gs) ->
    sheet_name c = sheet /\ lo <= row_start c <= row_end c.
Proof.
  induction gs as [|g gs IH]; intros cid lo c Hne Hin; cbn [chunks_of_runs] in Hin;
    [destruct Hin|].
  inversion Hne as [|? ? Hg Hne']; subst.
  assert (0 < len g) by (destruct g; [congruence|rewrite len_cons; pose proof (len_nonneg g); lia]).
  destruct Hin as [<-|Hin].
  - cbn [sheet_name row_start row_end]. split; [reflexivity|lia].
  - destruct (IH _ _ _ Hne' Hin) as [H1 H2]. split; [exact H1|lia].
Qed.

Lemma ranges_workbook_chunks (wb : workbook) :
  forall cid c,
    In c (workbook_chunks cid wb chunk_size) ->
    In (sheet_name c) (names wb) /\ 0 <= row_start c <= row_end c.
Proof.
  induction wb as [|[sheet df] wb IH]; intros cid c Hin; cbn [workbook_chunks] in Hin;
    [destruct Hin|].
  cbn zeta in Hin. apply in_app_or in Hin. destruct Hin as [Hin|Hin].
  - rewrite sheet_chunks_runs in Hin.
    destruct (emitted_groups_spec (chunk_size + 1) (row_texts df))
      as (tail & _ & _ & _ & Hn & _).
    destruct (ranges_chunks_of_runs sheet _ _ _ _ Hn Hin) as [H1 H2].
    split; [|exact H2]. left. now rewrite H1.
  - destruct (IH _ _ Hin) as [H1 H2]. split; [|exact H2]. now right.
Qed.

(** X27.  For a workbook whose sheet names differ, [extract_excel_to_chunks]
    cuts the rows of each sheet exactly where the loop of
    [extract_text_to_chunks] cuts lines as long as the texts of the rows,
    under a budget one larger (the test of the row loop leaves the
    separator out, the test of the line loop counts it): the chunks of a
    sheet have the ranges and the character counts of those chunks of
    lines, and hold the stripped texts of their rows, each followed by a
    space.  The sheets follow one another in the order of the workbook,
    the identifiers run on from sheet to sheet, so that they count from
    zero over the whole list, every chunk belongs to a sheet of the
    workbook, and no row range is reversed. *)
Theorem excel_chunks_are_line_chunks (wb : workbook) :
  NoDup (names wb) ->
  chunks_of_workbook wb chunk_size = Some (workbook_chunks 0 wb chunk_size) /\
  map chunk_id (workbook_chunks 0 wb chunk_size)
  = map Z.of_nat (seq 0 (List.length (workbook_chunks 0 wb chunk_size))) /\
  (forall c, In c (workbook_chunks 0 wb chunk_size) ->
             In (sheet_name c) (names wb) /\ 0 <= row_start c <= row_end c).
Proof.
  intros Hnd. split; [|split].
  - unfold chunks_of_workbook, names.
    now rewrite (workbook_fold wb wb [] 0 (workbook_reads wb Hnd)).
  - rewrite ids_workbook_chunks. unfold indices. apply map_ext. intros k. lia.
  - apply ranges_workbook_chunks.
Qed.

End ExcelChunkExtras.

Lemma excel_chunks_are_line_chunks_witness :
  NoDup (ExcelTools.names SampleOffice.ledger) /\
  ExcelChunks.chunks_of_workbook SampleOffice.ledger 5
  = Some (workbook_chunks 0 SampleOffice.ledger 5) /\
  map ExcelChunks.row_end (workbook_chunks 0 SampleOffice.ledger 5) = [0; 2; 0].
Proof.
  assert (Hnd : NoDup (ExcelTools.names SampleOffice.ledger)).
  { repeat constructor; cbn; intuition discriminate. }
  split; [exact Hnd|].
  split; [exact (proj1 (excel_chunks_are_line_chunks 5 SampleOffice.ledger Hnd))|].
  reflexivity.
Defined.
